(** * AwesomeGIC bank: the ledger and interest engine of [bank-Js.js]

    A shallow embedding of class [BankAccountSystem] and the proofs of its
    specified properties.

    Conventions of the embedding.
    - A JavaScript Number is an IEEE-754 binary64 value: Rocq's primitive
      [float], whose operations are the hardware ones.  Numbers that only
      ever hold small integers (day numbers, running numbers, lengths) are
      [Z] or [nat]; a Number that may be NaN there is an [option Z].
    - A JavaScript string is a [string]: one [ascii] per code unit, so the
      embedding covers strings whose code units are below 256, and
      [toUpperCase] is that of the ASCII letters.
    - A JavaScript object used as a dictionary is a [gmap] with [string]
      keys: only own properties are modelled.  For a key that is a name
      inherited from [Object.prototype] the program finds the inherited
      property and throws; the theorems about what a handler returns take
      the keys entered not to be such names ([own_key]).
    - [Array.prototype.sort] is a stable sort; [localeCompare] is the
      code-unit order [String.compare].  The collation of the host is that
      order on strings of digits, and may differ from it on letters; the
      theorems about the order of dates take the dates to be written in
      digits ([digit_date]).
    - [new Date(year, month, day)] is a day of the proleptic Gregorian
      calendar: the time zone of the host is taken to skip no day.
    - The readline interface is a function of the lines entered: each menu
      handler is a function from the state and the white-space separated
      tokens of its line to the new state and what was printed, and the menu
      loop gives each line to the prompt that is open.  The texts of the
      prompts and of the menu are left out. *)

From Stdlib Require Import Floats ZArith Ascii String List Lia Bool Sorted QArith Qround.
From stdpp Require Import gmap strings list sorting.

#[local] Set Warnings "-inexact-float".
#[local] Open Scope string_scope.
#[local] Open Scope list_scope.
#[local] Open Scope Z_scope.

(** ** The host: JavaScript built-ins the program calls *)

Module JS.

(** *** Characters and digits *)

Definition code (c : ascii) : Z := Z.of_nat (nat_of_ascii c).

Definition is_digit (c : ascii) : bool := (48 <=? code c) && (code c <=? 57).

Definition digit_value (c : ascii) : Z := code c - 48.

(** The value of a hexadecimal digit, if [c] is one. *)
Definition hex_value (c : ascii) : option Z :=
  let n := code c in
  if (48 <=? n) && (n <=? 57) then Some (n - 48)
  else if (65 <=? n) && (n <=? 70) then Some (n - 55)
  else if (97 <=? n) && (n <=? 102) then Some (n - 87)
  else None.

Definition is_in_radix (r : Z) (c : ascii) : bool :=
  match hex_value c with
  | Some v => v <? r
  | None => false
  end.

(** The longest prefix of [s] whose characters satisfy [p], and the rest. *)
Fixpoint span (p : ascii -> bool) (s : string) : string * string :=
  match s with
  | EmptyString => (EmptyString, EmptyString)
  | String c s' =>
      if p c then let '(a, b) := span p s' in (String c a, b)
      else (EmptyString, s)
  end.

Fixpoint all_chars (p : ascii -> bool) (s : string) : bool :=
  match s with
  | EmptyString => true
  | String c s' => p c && all_chars p s'
  end.

(** The number written by the digits [s] in radix [r], most significant
    digit first, continuing from [acc]. *)
Fixpoint digits_value (r : Z) (acc : Z) (s : string) : Z :=
  match s with
  | EmptyString => acc
  | String c s' => digits_value r (r * acc + default 0 (hex_value c)) s'
  end.

(** *** Strings *)

(** [s.substring(a, b)] for [a <= b]. *)
Definition substring (a b : nat) (s : string) : string :=
  String.substring a (b - a) s.

(** [s.startsWith(p)]. *)
Definition startsWith (s p : string) : bool := String.prefix p s.

(** [s.padStart(2, "0")]. *)
Definition padStart2 (s : string) : string :=
  match String.length s with
  | O => "00"
  | S O => String "0" s
  | _ => s
  end.

(** [s.toUpperCase()] on code units below 128. *)
Definition upper_char (c : ascii) : ascii :=
  let n := code c in
  if (97 <=? n) && (n <=? 122) then ascii_of_nat (Z.to_nat (n - 32)) else c.

Fixpoint toUpperCase (s : string) : string :=
  match s with
  | EmptyString => EmptyString
  | String c s' => String (upper_char c) (toUpperCase s')
  end.

(** [s.split(".")]. *)
Fixpoint split_dot_aux (cur : string) (s : string) : list string :=
  match s with
  | EmptyString => [cur]
  | String c s' =>
      if Ascii.eqb c "."%char then cur :: split_dot_aux EmptyString s'
      else split_dot_aux (cur +:+ String c EmptyString) s'
  end.

Definition split_dot (s : string) : list string := split_dot_aux EmptyString s.

(** White space and line terminators among the code units below 256: tab,
    line feed, vertical tab, form feed, carriage return, space and no-break
    space.  They are what [trim] strips and what [\s] matches. *)
Definition is_space (c : ascii) : bool :=
  let n := code c in
  ((9 <=? n) && (n <=? 13)) || (n =? 32) || (n =? 160).

Fixpoint trimStart (s : string) : string :=
  match s with
  | EmptyString => EmptyString
  | String c s' => if is_space c then trimStart s' else s
  end.

Fixpoint trimEnd (s : string) : string :=
  match s with
  | EmptyString => EmptyString
  | String c s' =>
      match trimEnd s' with
      | EmptyString => if is_space c then EmptyString else String c EmptyString
      | t => String c t
      end
  end.

(** [s.trim()]. *)
Definition trim (s : string) : string := trimEnd (trimStart s).

(** [s.split(/\s+/)]: the pieces between the runs of white space, with an
    empty piece before a run that starts the string and after one that ends
    it.  [in_space]: the character before was white space; [cur]: the piece
    read so far. *)
Fixpoint split_space_aux (in_space : bool) (cur : string) (s : string) : list string :=
  match s with
  | EmptyString => [cur]
  | String c s' =>
      if is_space c then
        if in_space then split_space_aux true cur s'
        else cur :: split_space_aux true EmptyString s'
      else split_space_aux false (cur +:+ String c EmptyString) s'
  end.

Definition split_space (s : string) : list string := split_space_aux false EmptyString s.

(** [a.localeCompare(b)] and the relational operators on strings.  The
    operators compare code units; [localeCompare] is given the same order,
    which is the order of the host's collation on strings of digits. *)
Definition localeCompare (a b : string) : comparison := String.compare a b.

Definition str_lt (a b : string) : bool := String.ltb a b.

Definition str_le (a b : string) : bool := String.leb a b.

(** *** Integers as text *)

(** The decimal digits of a natural number, least significant first; the
    fuel bounds the number of digits. *)
Fixpoint rev_digits (fuel : nat) (n : Z) : list ascii :=
  match fuel with
  | O => []
  | S f =>
      let c := ascii_of_nat (Z.to_nat (48 + n mod 10)) in
      if n <? 10 then [c] else c :: rev_digits f (n / 10)
  end.

(** [n.toString()] for an integral Number. *)
Definition toString (n : Z) : string :=
  let ds := string_of_list_ascii (rev (rev_digits (S (Z.to_nat (Z.log2 (Z.abs n)))) (Z.abs n))) in
  if n <? 0 then String "-"%char ds else ds.

(** [parseInt(s)]: an optional sign, then hexadecimal digits after [0x] or
    decimal digits otherwise, as far as they go; [None] is NaN.  (A result
    of -0 is 0 here; the program never tells them apart.) *)
Definition parseInt_unsigned (s : string) : option Z :=
  match s with
  | String "0" (String x s') =>
      if Ascii.eqb x "x"%char || Ascii.eqb x "X"%char then
        let '(ds, _) := span (is_in_radix 16) s' in
        match ds with
        | EmptyString => None
        | _ => Some (digits_value 16 0 ds)
        end
      else
        let '(ds, _) := span is_digit s in Some (digits_value 10 0 ds)
  | _ =>
      let '(ds, _) := span is_digit s in
      match ds with
      | EmptyString => None
      | _ => Some (digits_value 10 0 ds)
      end
  end.

Definition parseInt (s : string) : option Z :=
  match s with
  | String "-" s' => Z.opp <$> parseInt_unsigned s'
  | String "+" s' => parseInt_unsigned s'
  | _ => parseInt_unsigned s
  end.

(** *** Numbers *)

(** The binary64 value nearest to the ratio [p / q] (ties to even): the
    value the host gives to a decimal numeral. *)
Definition nearest_ratio (p q : positive) : float :=
  SF2Prim (SFdiv prec emax (S754_finite false p 0) (S754_finite false q 0)).

(** The Number of an integer. *)
Definition of_Z (z : Z) : float :=
  match z with
  | Z0 => 0%float
  | Zpos p => nearest_ratio p 1
  | Zneg p => (- nearest_ratio p 1)%float
  end.

(** A Number that holds an integer or NaN. *)
Definition of_int (z : option Z) : float :=
  match z with
  | Some z => of_Z z
  | None => nan
  end.

(** The Number written [m * 10^e] in decimal, with its sign. *)
Definition of_decimal (neg : bool) (m e : Z) : float :=
  let v :=
    match m with
    | Zpos p =>
        match e with
        | Z0 => nearest_ratio p 1
        | Zpos k => nearest_ratio (p * 10 ^ k) 1
        | Zneg k => nearest_ratio p (10 ^ k)
        end
    | _ => 0%float
    end in
  if neg then (- v)%float else v.

(** The exponent part [e], [e+] or [e-] followed by digits at the start of
    [s], when there is one: its value and what follows it. *)
Definition exponent_part (s : string) : option (Z * string) :=
  match s with
  | String c s1 =>
      if Ascii.eqb c "e"%char || Ascii.eqb c "E"%char then
        let '(neg, s2) :=
          match s1 with
          | String "-" s2 => (true, s2)
          | String "+" s2 => (false, s2)
          | _ => (false, s1)
          end in
        let '(ds, rest) := span is_digit s2 in
        match ds with
        | EmptyString => None
        | _ => Some (if neg then - digits_value 10 0 ds else digits_value 10 0 ds, rest)
        end
      else None
  | EmptyString => None
  end.

(** The longest unsigned decimal literal at the start of [s], as mantissa
    and decimal exponent, and what follows it.  [None]: no literal starts
    there.  The literal [Infinity] is handled by the callers. *)
Definition unsigned_decimal (s : string) : option (Z * Z * string) :=
  let '(ip, s1) := span is_digit s in
  let '(fp, s2) :=
    match s1 with
    | String "." s1' => span is_digit s1'
    | _ => (EmptyString, s1)
    end in
  match ip, fp with
  | EmptyString, EmptyString => None
  | _, _ =>
      let m := digits_value 10 0 (ip +:+ fp) in
      let e := - Z.of_nat (String.length fp) in
      match exponent_part s2 with
      | Some (x, rest) => Some (m, e + x, rest)
      | None => Some (m, e, s2)
      end
  end.

Definition strip_sign (s : string) : bool * string :=
  match s with
  | String "-" s' => (true, s')
  | String "+" s' => (false, s')
  | _ => (false, s)
  end.

(** [parseFloat(s)] for a string without leading white space: the value of
    the longest prefix that is a decimal literal, NaN when there is none. *)
Definition parseFloat (s : string) : float :=
  let '(neg, u) := strip_sign s in
  if String.prefix "Infinity" u then (if neg then neg_infinity else infinity)
  else
    match unsigned_decimal u with
    | Some (m, e, _) => of_decimal neg m e
    | None => nan
    end.

(** Whether the whole of [s] is a numeric literal: [Number(s)] is then not
    NaN.  The string has no white space; the empty string converts to 0. *)
Definition is_numeric (s : string) : bool :=
  let decimal u :=
    String.eqb u "Infinity" ||
    match unsigned_decimal u with
    | Some (_, _, rest) => String.eqb rest ""
    | None => false
    end in
  match s with
  | EmptyString => true
  | String "0" (String x r) =>
      if Ascii.eqb x "x"%char || Ascii.eqb x "X"%char then
        negb (String.eqb r "") && all_chars (is_in_radix 16) r
      else if Ascii.eqb x "o"%char || Ascii.eqb x "O"%char then
        negb (String.eqb r "") && all_chars (is_in_radix 8) r
      else if Ascii.eqb x "b"%char || Ascii.eqb x "B"%char then
        negb (String.eqb r "") && all_chars (is_in_radix 2) r
      else decimal s
  | _ => decimal (strip_sign s).2
  end.

(** The global [isNaN] applied to a string, and to a Number. *)
Definition isNaN_string (s : string) : bool := negb (is_numeric s).

Definition isNaN (x : float) : bool := PrimFloat.is_nan x.

(** [parseFloat(x.toFixed(2))].  [toFixed] writes NaN and the infinities by
    name and a magnitude of 1e21 or more in full precision, so these come
    back unchanged; otherwise it writes the integer [n] nearest to
    [|x| * 100], the larger one on a tie, as [n / 100] with the sign of
    [x], and [parseFloat] reads that back. *)
Definition toFixed2 (x : float) : float :=
  match Prim2SF x with
  | S754_finite s m e =>
      if (1e21 <=? PrimFloat.abs x)%float then x
      else
        let n :=
          match e with
          | Zneg k => (200 * Zpos m + 2 ^ Zpos k) / 2 ^ (Zpos k + 1)
          | _ => 100 * Zpos m * 2 ^ e
          end in
        of_decimal s n (-2)
  | S754_zero _ => 0%float
  | _ => x
  end.

(** *** Dates *)

Definition is_leap (y : Z) : bool :=
  ((y mod 4 =? 0) && negb (y mod 100 =? 0)) || (y mod 400 =? 0).

(** The number of days of month [m] (0 is January) of year [y]. *)
Definition days_in (y m : Z) : Z :=
  if m =? 1 then (if is_leap y then 29 else 28)
  else if (m =? 3) || (m =? 5) || (m =? 8) || (m =? 10) then 30
  else 31.

Definition prev_month (y m : Z) : Z * Z := if m =? 0 then (y - 1, 11) else (y, m - 1).

Definition next_month (y m : Z) : Z * Z := if m =? 11 then (y + 1, 0) else (y, m + 1).

(** Day [d] of month [m] of year [y], carried into the neighbouring months
    while [d] is not a day of the month. *)
Fixpoint carry_days (fuel : nat) (y m d : Z) : Z * Z * Z :=
  match fuel with
  | O => (y, m, d)
  | S f =>
      if d <? 1 then
        let '(y', m') := prev_month y m in carry_days f y' m' (d + days_in y' m')
      else if days_in y m <? d then
        let '(y', m') := next_month y m in carry_days f y' m' (d - days_in y m)
      else (y, m, d)
  end.

(** [new Date(year, month, day)] in local time, as the triple
    [(getFullYear(), getMonth(), getDate())]; [None] is the invalid date
    that a NaN argument gives.  A year from 0 to 99 means 1900 + year.
    The local time zone is taken to skip no day of the calendar. *)
Definition Date (year month day : option Z) : option (Z * Z * Z) :=
  match year, month, day with
  | Some y, Some m, Some d =>
      let y1 := if (0 <=? y) && (y <=? 99) then 1900 + y else y in
      Some (carry_days (S (Z.to_nat (Z.abs d))) (y1 + m / 12) (m mod 12) d)
  | _, _, _ => None
  end.

Definition getFullYear (d : option (Z * Z * Z)) : option Z := (fun t => t.1.1) <$> d.

Definition getMonth (d : option (Z * Z * Z)) : option Z := (fun t => t.1.2) <$> d.

Definition getDate (d : option (Z * Z * Z)) : option Z := (fun t => t.2) <$> d.

(** [a === b] on Numbers that hold an integer or NaN. *)
Definition int_eq (a b : option Z) : bool :=
  match a, b with
  | Some x, Some y => x =? y
  | _, _ => false
  end.

End JS.

(** ** [Array.prototype.sort]

    A stable sort by a comparator: the elements are taken in their order
    and each is put behind those that do not compare greater than it. *)

Section Sort.
Context {A : Type} (cmp : A -> A -> comparison).

Fixpoint insert_last (x : A) (l : list A) : list A :=
  match l with
  | [] => [x]
  | y :: l' =>
      match cmp y x with
      | Gt => x :: l
      | _ => y :: insert_last x l'
      end
  end.

Definition sort (l : list A) : list A :=
  fold_left (fun acc x => insert_last x acc) l [].

End Sort.

(** ** The data of [BankAccountSystem] *)

(** A transaction object [{ date, account, type, amount, txnId, balance }]. *)
Module Txn.
Record t := mk {
  date : string;
  account : string;
  type : string;
  amount : float;
  txnId : string;
  balance : float
}.
End Txn.

(** An entry [{ createdDate, transactions }] of [this.accounts]. *)
Module Account.
Record t := mk {
  createdDate : string;
  transactions : list Txn.t
}.
End Account.

(** A rule [{ date, ruleId, rate }] of [this.interestRules]. *)
Module Rule.
Record t := mk {
  date : string;
  ruleId : string;
  rate : float
}.
End Rule.

(** A statement line [{ date, txnId, type, amount, balance }].  The source
    keeps [amount] and [balance] as their [toFixed(2)] renderings; the line
    here keeps the Numbers that are rendered. *)
Module Line.
Record t := mk {
  date : string;
  txnId : string;
  type : string;
  amount : float;
  balance : float
}.
End Line.

(** The fields set by the constructor. *)
Record BankAccountSystem := mkBank {
  accounts : gmap string Account.t;
  transactions : list Txn.t;
  interestRules : list Rule.t;
  runningNumbers : gmap string nat
}.

Definition constructor : BankAccountSystem :=
  {| accounts := ∅; transactions := []; interestRules := []; runningNumbers := ∅ |}.

(** What a handler printed before it went back to a prompt. *)
Inductive Printed :=
| MainMenu
| Message (text : string)
| AccountStatement (account : string) (lines : list Line.t)
| InterestRules (rules : list Rule.t)
| Statement (account : string) (lines : list Line.t).

(** The texts of the rejections. *)
Definition InvalidInputFormat := Message "Invalid input format. Please try again.".
Definition InvalidDate := Message "Invalid date format. Please use YYYYMMdd.".
Definition InvalidTransactionType :=
  Message "Invalid transaction type. Use D for deposit or W for withdrawal.".
Definition InvalidAmount := Message "Amount must be a positive number.".
Definition InvalidDecimals := Message "Amount must have up to 2 decimal places.".
Definition UnopenedAccountWithdrawal :=
  Message "Cannot withdraw from a new account. First transaction must be a deposit.".
Definition InsufficientFunds := Message "Insufficient balance for this withdrawal.".
Definition InvalidRate := Message "Rate must be a number between 0 and 100.".
Definition AccountNotFound := Message "Account not found.".
Definition InvalidMonth := Message "Invalid month format. Please use YYYYMM.".
Definition NoActivity :=
  Message "No transactions found for this account in the specified month.".

(** ** Helper methods *)

Definition isValidDate (dateStr : string) : bool :=
  if negb (String.length dateStr =? 8)%nat || JS.isNaN_string dateStr then false
  else
    let year := JS.parseInt (JS.substring 0 4 dateStr) in
    let month := Z.pred <$> JS.parseInt (JS.substring 4 6 dateStr) in
    let day := JS.parseInt (JS.substring 6 8 dateStr) in
    let date := JS.Date year month day in
    JS.int_eq (JS.getFullYear date) year &&
    JS.int_eq (JS.getMonth date) month &&
    JS.int_eq (JS.getDate date) day.

Definition isValidAmount (amountStr : string) : bool :=
  match JS.split_dot amountStr with
  | [_] => true
  | [_; frac] => (String.length frac <=? 2)%nat
  | _ => false
  end.

(** [this.runningNumbers[dateStr]] after the update, and the id made of it. *)
Definition generateTransactionId (this : BankAccountSystem) (dateStr : string)
  : BankAccountSystem * string :=
  let n := S (default O (runningNumbers this !! dateStr)) in
  ({| accounts := accounts this;
      transactions := transactions this;
      interestRules := interestRules this;
      runningNumbers := <[dateStr := n]> (runningNumbers this) |},
   dateStr +:+ "-" +:+ JS.padStart2 (JS.toString (Z.of_nat n))).

Definition calculateNewBalance (balance : float) (type : string) (amount : float) : float :=
  if String.eqb type "D" then (balance + amount)%float else (balance - amount)%float.

(** The [for ... of] loops that fold [calculateNewBalance] over transactions. *)
Definition fold_balance (balance : float) (txns : list Txn.t) : float :=
  fold_left (fun b txn => calculateNewBalance b (Txn.type txn) (Txn.amount txn)) txns balance.

(** [null] is [None].  The account id is taken to be an own key of
    [this.accounts] or no property of it at all. *)
Definition getAccountBalance (this : BankAccountSystem) (account : string) : option float :=
  match accounts this !! account with
  | None => None
  | Some a => Some (fold_balance 0 (Account.transactions a))
  end.

(** The comparator [(a, b) => a.date.localeCompare(b.date)]. *)
Definition by_date (a b : Txn.t) : comparison :=
  JS.localeCompare (Txn.date a) (Txn.date b).

(** [this.accounts[account].transactions.sort(...)]: the array is sorted in
    place, so the state changes.  [None] is the TypeError raised when the
    account is missing. *)
Definition sort_transactions (this : BankAccountSystem) (account : string)
  : option (BankAccountSystem * list Txn.t) :=
  match accounts this !! account with
  | None => None
  | Some a =>
      let sorted := sort by_date (Account.transactions a) in
      Some ({| accounts :=
                 <[account := {| Account.createdDate := Account.createdDate a;
                                 Account.transactions := sorted |}]> (accounts this);
               transactions := transactions this;
               interestRules := interestRules this;
               runningNumbers := runningNumbers this |},
            sorted)
  end.

(** The statement lines of transactions, from a starting balance; also the
    balance reached. *)
Fixpoint statement_lines (balance : float) (txns : list Txn.t) : list Line.t * float :=
  match txns with
  | [] => ([], balance)
  | txn :: rest =>
      let balance' := calculateNewBalance balance (Txn.type txn) (Txn.amount txn) in
      let '(lines, final) := statement_lines balance' rest in
      ({| Line.date := Txn.date txn;
          Line.txnId := Txn.txnId txn;
          Line.type := Txn.type txn;
          Line.amount := Txn.amount txn;
          Line.balance := balance' |} :: lines, final)
  end.

Definition displayAccountStatement (this : BankAccountSystem) (account : string)
  : option (BankAccountSystem * Printed) :=
  match sort_transactions this account with
  | None => None
  | Some (this', txns) =>
      Some (this', AccountStatement account (statement_lines 0 txns).1)
  end.

Definition displayInterestRules (this : BankAccountSystem) : Printed :=
  InterestRules (interestRules this).

(** The comparator [(a, b) => b.date.localeCompare(a.date)]. *)
Definition by_date_desc (a b : Rule.t) : comparison :=
  JS.localeCompare (Rule.date b) (Rule.date a).

Definition getInterestRate (this : BankAccountSystem) (date : string) : float :=
  let applicableRules :=
    filter (fun rule => JS.str_le (Rule.date rule) date = true) (interestRules this) in
  match sort by_date_desc applicableRules with
  | [] => 0%float
  | rule :: _ => Rule.rate rule
  end.

(** ** [calculateMonthlyInterest] *)

(** The key [monthStr + day.toString().padStart(2, "0")]. *)
Definition dateKey (monthStr : string) (day : Z) : string :=
  monthStr +:+ JS.padStart2 (JS.toString day).

(** The values of [d] in [for (let d = from; d <= daysInMonth; d++)]; none
    when a bound is NaN. *)
Definition days_from (from daysInMonth : option Z) : list Z :=
  match from, daysInMonth with
  | Some a, Some n => (fun i => a + Z.of_nat i) <$> seq 0 (Z.to_nat (n - a + 1))
  | _, _ => []
  end.

(** [new Date(year, month + 1, 0).getDate()] for the year and month that
    [monthStr] starts with. *)
Definition daysInMonth (monthStr : string) : option Z :=
  let year := JS.parseInt (JS.substring 0 4 monthStr) in
  let month := Z.pred <$> JS.parseInt (JS.substring 4 6 monthStr) in
  JS.getDate (JS.Date year (Z.succ <$> month) (Some 0)).

(** The balance before the month: the fold over [transactionsBefore]. *)
Definition balanceBefore (allTransactions : list Txn.t) (monthStr : string) : float :=
  fold_balance 0
    (filter (fun txn => JS.str_lt (Txn.date txn) (monthStr +:+ "01") = true) allTransactions).

(** [dailyBalances[dateKey] = currentBalance] for the days from [from]. *)
Definition set_from (monthStr : string) (n : option Z) (from : option Z)
    (currentBalance : float) (dailyBalances : gmap string float) : gmap string float :=
  fold_left (fun db d => <[dateKey monthStr d := currentBalance]> db)
    (days_from from n) dailyBalances.

(** One round of the loop over [monthTransactions]. *)
Definition apply_month_txn (monthStr : string) (n : option Z)
    (st : float * gmap string float) (txn : Txn.t) : float * gmap string float :=
  let day := JS.parseInt (JS.substring 6 8 (Txn.date txn)) in
  let currentBalance := calculateNewBalance st.1 (Txn.type txn) (Txn.amount txn) in
  (currentBalance, set_from monthStr n day currentBalance st.2).

(** The table [dailyBalances] once both loops that fill it are done. *)
Definition dailyBalances (allTransactions : list Txn.t) (monthStr : string)
  : gmap string float :=
  let n := daysInMonth monthStr in
  let currentBalance := balanceBefore allTransactions monthStr in
  let monthTransactions :=
    filter (fun txn => JS.startsWith (Txn.date txn) monthStr = true) allTransactions in
  (fold_left (apply_month_txn monthStr n) monthTransactions
     (currentBalance, set_from monthStr n (Some 1) currentBalance ∅)).2.

(** [(((periodBalance * currentRate) / 100) * periodDays) / 365]; a missing
    table entry is [undefined], which the product turns into NaN. *)
Definition periodInterest (periodBalance : option float) (currentRate : float)
    (periodDays : option Z) : float :=
  (((default nan periodBalance * currentRate) / 100) * JS.of_int periodDays / 365)%float.

(** The variables of the loop over the days: [totalInterest],
    [currentPeriodStart] and [currentRate]. *)
Record Period := mkPeriod {
  totalInterest : float;
  currentPeriodStart : string;
  currentRate : float
}.

(** [totalInterest] after the period from [currentPeriodStart] is closed,
    [periodDays] long. *)
Definition close_period (db : gmap string float) (p : Period) (periodDays : option Z) : float :=
  if (0 <? currentRate p)%float then
    (totalInterest p + periodInterest (db !! currentPeriodStart p) (currentRate p) periodDays)%float
  else totalInterest p.

(** The day of the month that a key ends with. *)
Definition day_of (key : string) : option Z := JS.parseInt (JS.substring 6 8 key).

(** One round of the loop [for (let day = 2; day <= daysInMonth; day++)]. *)
Definition period_step (this : BankAccountSystem) (monthStr : string)
    (db : gmap string float) (p : Period) (day : Z) : Period :=
  let key := dateKey monthStr day in
  let rate := getInterestRate this key in
  if negb (rate =? currentRate p)%float then
    let periodDays := (fun s => day - s) <$> day_of (currentPeriodStart p) in
    {| totalInterest := close_period db p periodDays;
       currentPeriodStart := key;
       currentRate := rate |}
  else p.

Definition calculateMonthlyInterest (this : BankAccountSystem) (account monthStr : string)
    (endBalance : float) : option (BankAccountSystem * float) :=
  match interestRules this with
  | [] => Some (this, 0%float)
  | _ =>
      let n := daysInMonth monthStr in
      '(this', allTransactions) ← sort_transactions this account;
      let db := dailyBalances allTransactions monthStr in
      let start := monthStr +:+ "01" in
      let p := fold_left (period_step this' monthStr db) (days_from (Some 2) n)
                 {| totalInterest := 0;
                    currentPeriodStart := start;
                    currentRate := getInterestRate this' start |} in
      let finalPeriodDays :=
        s ← day_of (currentPeriodStart p); d ← n; Some (d - s + 1) in
      Some (this', JS.toFixed2 (close_period db p finalPeriodDays))
  end.

(** ** The menu handlers

    Each takes the tokens [input.trim().split(/\s+/)] of the line entered,
    with [[]] for a blank line.  [None] is an uncaught TypeError. *)

(** The part of [inputTransaction] behind the checks: the id is generated,
    the transaction pushed to [this.transactions] and to the account, which
    is created when missing, and the account statement displayed. *)
Definition recordTransaction (this : BankAccountSystem)
    (dateStr account type : string) (amount : float)
  : option (BankAccountSystem * Printed) :=
  let '(this1, txnId) := generateTransactionId this dateStr in
  let transaction :=
    {| Txn.date := dateStr; Txn.account := account; Txn.type := type;
       Txn.amount := amount; Txn.txnId := txnId; Txn.balance := 0 |} in
  let a :=
    default {| Account.createdDate := dateStr; Account.transactions := [] |}
      (accounts this1 !! account) in
  let this2 :=
    {| accounts :=
         <[account := {| Account.createdDate := Account.createdDate a;
                         Account.transactions :=
                           Account.transactions a ++ [transaction] |}]>
           (accounts this1);
       transactions := transactions this1 ++ [transaction];
       interestRules := interestRules this1;
       runningNumbers := runningNumbers this1 |} in
  displayAccountStatement this2 account.

Definition inputTransaction (this : BankAccountSystem) (parts : list string)
  : option (BankAccountSystem * Printed) :=
  match parts with
  | [] => Some (this, MainMenu)
  | [dateStr; account; typeStr; amountStr] =>
      let type := JS.toUpperCase typeStr in
      let amount := JS.parseFloat amountStr in
      if negb (isValidDate dateStr) then Some (this, InvalidDate)
      else if negb (String.eqb type "D") && negb (String.eqb type "W") then
        Some (this, InvalidTransactionType)
      else if JS.isNaN amount || (amount <=? 0)%float then Some (this, InvalidAmount)
      else if negb (isValidAmount amountStr) then Some (this, InvalidDecimals)
      else
        let rejected :=
          if String.eqb type "W" then
            match getAccountBalance this account with
            | None => Some UnopenedAccountWithdrawal
            | Some currentBalance =>
                if (currentBalance <? amount)%float then Some InsufficientFunds else None
            end
          else None in
        match rejected with
        | Some message => Some (this, message)
        | None => recordTransaction this dateStr account type amount
        end
  | _ => Some (this, InvalidInputFormat)
  end.

Definition defineInterestRule (this : BankAccountSystem) (parts : list string)
  : option (BankAccountSystem * Printed) :=
  match parts with
  | [] => Some (this, MainMenu)
  | [dateStr; ruleId; rateStr] =>
      let rate := JS.parseFloat rateStr in
      if negb (isValidDate dateStr) then Some (this, InvalidDate)
      else if JS.isNaN rate || (rate <=? 0)%float || (100 <=? rate)%float then
        Some (this, InvalidRate)
      else
        let rule := {| Rule.date := dateStr; Rule.ruleId := ruleId; Rule.rate := rate |} in
        let rules : list Rule.t :=
          match list_find (fun r => Rule.date r = dateStr) (interestRules this) with
          | Some (existingRuleIndex, _) => <[existingRuleIndex := rule]> (interestRules this)
          | None => interestRules this ++ [rule]
          end in
        let this' :=
          {| accounts := accounts this;
             transactions := transactions this;
             interestRules :=
               sort (fun a b => JS.localeCompare (Rule.date a) (Rule.date b)) rules;
             runningNumbers := runningNumbers this |} in
        Some (this', displayInterestRules this')
  | _ => Some (this, InvalidInputFormat)
  end.

(** The synthetic line of the interest of a month. *)
Definition interestLine (year month : string) (interest balance : float) : Line.t :=
  {| Line.date := (year +:+ month) +:+ "30";
     Line.txnId := "";
     Line.type := "I";
     Line.amount := interest;
     Line.balance := balance |}.

Definition printStatement (this : BankAccountSystem) (parts : list string)
  : option (BankAccountSystem * Printed) :=
  match parts with
  | [] => Some (this, MainMenu)
  | [account; monthStr] =>
      match accounts this !! account with
      | None => Some (this, AccountNotFound)
      | Some a =>
          if negb (String.length monthStr =? 6)%nat || JS.isNaN_string monthStr then
            Some (this, InvalidMonth)
          else
            let year := JS.substring 0 4 monthStr in
            let month := JS.substring 4 6 monthStr in
            let accountTransactions :=
              sort by_date
                (filter (fun txn => JS.startsWith (Txn.date txn) (year +:+ month) = true)
                   (Account.transactions a)) in
            match accountTransactions with
            | [] => Some (this, NoActivity)
            | _ =>
                let transactionsBefore :=
                  sort by_date
                    (filter (fun txn =>
                               JS.str_lt (Txn.date txn) ((year +:+ month) +:+ "01") = true)
                       (Account.transactions a)) in
                let '(statementLines, balance) :=
                  statement_lines (fold_balance 0 transactionsBefore) accountTransactions in
                '(this', interest) ← calculateMonthlyInterest this account (year +:+ month) balance;
                let statementLines :=
                  if (0 <? interest)%float then
                    statementLines ++ [interestLine year month interest (balance + interest)%float]
                  else statementLines in
                Some (this', Statement account statementLines)
            end
      end
  | _ => Some (this, InvalidInputFormat)
  end.

(** ** Sessions: what the menu loop can do to the state *)

Inductive Command :=
| T (parts : list string)
| I (parts : list string)
| P (parts : list string).

Definition handle (this : BankAccountSystem) (c : Command)
  : option (BankAccountSystem * Printed) :=
  match c with
  | T parts => inputTransaction this parts
  | I parts => defineInterestRule this parts
  | P parts => printStatement this parts
  end.

(** The state and what was printed, command after command. *)
Fixpoint session (this : BankAccountSystem) (cs : list Command)
  : option (BankAccountSystem * list Printed) :=
  match cs with
  | [] => Some (this, [])
  | c :: cs' =>
      '(this1, out) ← handle this c;
      '(this2, outs) ← session this1 cs';
      Some (this2, out :: outs)
  end.

(** The states a session can reach from the constructor's. *)
Inductive reachable : BankAccountSystem -> Prop :=
| reachable_constructor : reachable constructor
| reachable_handle this c this' out :
    reachable this -> handle this c = Some (this', out) -> reachable this'.

(** Whether what was printed is the account statement that follows a
    recorded transaction. *)
Definition accepted (out : Printed) : bool :=
  match out with
  | AccountStatement _ _ => true
  | _ => false
  end.

(** Whether what was printed is the list of rules that follows a definition. *)
Definition defined (out : Printed) : bool :=
  match out with
  | InterestRules _ => true
  | _ => false
  end.

(** The state a session from the constructor's state ends in. *)
Definition state_after (cs : list Command) : BankAccountSystem :=
  match session constructor cs with
  | Some (this, _) => this
  | None => constructor
  end.

(** ** The menu loop: [start], [promptUser], [showMainMenu]

    Every callback of [rl.question] ends by asking the next question, so
    the program is a function of the lines entered: each line goes to the
    prompt that is open. *)

(** The question that is open. *)
Inductive Prompt :=
| AtMenu
| AtTransaction
| AtRule
| AtStatement
| Closed.

Definition InvalidOption := Message "Invalid option. Please try again.".

(** The two lines printed at [Q], the first after a line feed. *)
Definition Farewell : list Printed :=
  [Message (String (ascii_of_nat 10) "Thank you for banking with AwesomeGIC Bank.");
   Message "Have a nice day!"].

(** The callback of [promptUser]: the prompt that the choice opens, and
    what is printed. *)
Definition promptUser (input : string) : Prompt * list Printed :=
  let choice := JS.toUpperCase (JS.trim input) in
  if String.eqb choice "T" then (AtTransaction, [])
  else if String.eqb choice "I" then (AtRule, [])
  else if String.eqb choice "P" then (AtStatement, [])
  else if String.eqb choice "Q" then (Closed, Farewell)
  else (AtMenu, [InvalidOption]).

(** What a handler's callback makes of its line: nothing when the line is
    blank, [input.trim().split(/\s+/)] otherwise. *)
Definition parts_of (input : string) : list string :=
  if String.eqb (JS.trim input) "" then [] else JS.split_space (JS.trim input).

(** Where a handler goes on: every branch that prints a rejection calls the
    handler again, every other branch calls [showMainMenu]. *)
Definition next_prompt (handler : Prompt) (out : Printed) : Prompt :=
  match out with
  | Message _ => handler
  | _ => AtMenu
  end.

(** The callback of the open question on a line: the next question, the
    state and what was printed.  [None] is an uncaught TypeError. *)
Definition question (prompt : Prompt) (this : BankAccountSystem) (input : string)
  : option (Prompt * BankAccountSystem * list Printed) :=
  match prompt with
  | AtMenu => let '(next, out) := promptUser input in Some (next, this, out)
  | AtTransaction =>
      '(this', out) ← inputTransaction this (parts_of input);
      Some (next_prompt AtTransaction out, this', [out])
  | AtRule =>
      '(this', out) ← defineInterestRule this (parts_of input);
      Some (next_prompt AtRule out, this', [out])
  | AtStatement =>
      '(this', out) ← printStatement this (parts_of input);
      Some (next_prompt AtStatement out, this', [out])
  | Closed => Some (Closed, this, [])
  end.

(** The lines entered, one after the other; after [rl.close()] no line is
    read. *)
Fixpoint run (prompt : Prompt) (this : BankAccountSystem) (lines : list string)
  : option (Prompt * BankAccountSystem * list Printed) :=
  match lines with
  | [] => Some (prompt, this, [])
  | input :: lines' =>
      '(prompt1, this1, out) ← question prompt this input;
      '(prompt2, this2, outs) ← run prompt1 this1 lines';
      Some (prompt2, this2, out ++ outs)
  end.

(** [new BankAccountSystem().start()] on the lines entered. *)
Definition start (lines : list string)
  : option (Prompt * BankAccountSystem * list Printed) :=
  run AtMenu constructor lines.

(** * The vocabulary of the properties *)

(** ** Orders *)

(** The comparator [cmp] does not put [x] behind [y]. *)
Definition le_by {A : Type} (cmp : A -> A -> comparison) (x y : A) : Prop := cmp x y <> Gt.

(** Strictly before, in the order of the dates. *)
Definition date_lt (d1 d2 : string) : Prop := JS.localeCompare d1 d2 = Lt.

(** ** Recording *)

(** The transaction that [inputTransaction] records next for these fields. *)
Definition next_transaction (this : BankAccountSystem)
    (dateStr account type : string) (amount : float) : Txn.t :=
  {| Txn.date := dateStr; Txn.account := account; Txn.type := type; Txn.amount := amount;
     Txn.txnId := (generateTransactionId this dateStr).2; Txn.balance := 0 |}.

(** The transactions of an account among [txns], in their order. *)
Definition of_account (account : string) (txns : list Txn.t) : list Txn.t :=
  filter (fun txn => Txn.account txn = account) txns.

(** The array of each account is what [this.transactions] holds for it, in
    the order of the dates and, within a date, of recording; an account
    exists once a transaction of it has been recorded. *)
Definition ledger_inv (this : BankAccountSystem) : Prop :=
  forall account,
    match accounts this !! account with
    | Some a =>
        Account.transactions a = sort by_date (of_account account (transactions this)) /\
        of_account account (transactions this) <> []
    | None => of_account account (transactions this) = []
    end.

(** ** Transaction ids *)

(** The id with running number [k] on a date. *)
Definition transactionId (dateStr : string) (k : nat) : string :=
  dateStr +:+ "-" +:+ JS.padStart2 (JS.toString (Z.of_nat k)).

(** The transactions of a date among [txns], in their order. *)
Definition on_date (dateStr : string) (txns : list Txn.t) : list Txn.t :=
  filter (fun txn => Txn.date txn = dateStr) txns.

(** The ids given on a date are those of the running numbers from 1 to the
    number that [runningNumbers] holds for the date. *)
Definition ids_inv (this : BankAccountSystem) : Prop :=
  forall dateStr,
    Txn.txnId <$> on_date dateStr (transactions this)
    = transactionId dateStr <$> seq 1 (default O (runningNumbers this !! dateStr)).

(** ** The rate schedule *)

(** The comparator [(a, b) => a.date.localeCompare(b.date)] on rules. *)
Definition by_rule_date (a b : Rule.t) : comparison :=
  JS.localeCompare (Rule.date a) (Rule.date b).

(** The rules after [defineInterestRule] has accepted a rule: the rule
    replaces the first one of its date or is pushed, and the array is sorted. *)
Definition upsert_rule (rule : Rule.t) (rules : list Rule.t) : list Rule.t :=
  sort by_rule_date
    match list_find (fun r => Rule.date r = Rule.date rule) rules with
    | Some (existingRuleIndex, _) => <[existingRuleIndex := rule]> rules
    | None => rules ++ [rule]
    end.

(** The dates of the rules ascend strictly. *)
Definition rules_inv (rules : list Rule.t) : Prop :=
  StronglySorted date_lt (Rule.date <$> rules).

(** ** Numbers *)

(** [===] on Numbers is the IEEE equality: the two zeros are equal and NaN
    is equal to nothing. *)
Definition same_number (x y : spec_float) : Prop :=
  match x, y with
  | S754_nan, _ | _, S754_nan => False
  | S754_zero _, S754_zero _ => True
  | _, _ => x = y
  end.

(** The rational number that a Number is; 0 stands for NaN and infinities. *)
Definition exact (x : float) : Q :=
  match Prim2SF x with
  | S754_finite s m e => ((if s then -1 else 1) * inject_Z (Zpos m) * Qpower 2 e)%Q
  | _ => 0%Q
  end.

(** The rational number that a decimal numeral writes. *)
Definition decimal (s : string) : Q :=
  match JS.unsigned_decimal s with
  | Some (m, e, _) => (inject_Z m * Qpower 10 e)%Q
  | None => 0%Q
  end.

(** The sum, in rational numbers, of the amounts of transactions, deposits
    counted positive and withdrawals negative. *)
Definition exact_sum (txns : list Txn.t) : Q :=
  fold_left (fun q txn => if String.eqb (Txn.type txn) "D" then (q + exact (Txn.amount txn))%Q
                          else (q - exact (Txn.amount txn))%Q) txns 0%Q.

(** ** Days, runs of days and their interest *)

(** The [k] successive days from [a]. *)
Definition days (a : Z) (k : nat) : list Z := (fun i => a + Z.of_nat i) <$> seq 0 k.

(** A day below 100 is written with two digits, which read back as the day. *)
Definition two_digits (d : Z) : bool :=
  let t := JS.padStart2 (JS.toString d) in
  (String.length t =? 2)%nat && bool_decide (JS.parseInt t = Some d).

(** The runs [(first day, last day)] of the successive days [start .. last]
    followed by [ds]: a run goes on while a day and the next are [same]. *)
Fixpoint runs_from (same : Z -> Z -> bool) (start last : Z) (ds : list Z) : list (Z * Z) :=
  match ds with
  | [] => [(start, last)]
  | d :: ds' =>
      if same last d then runs_from same start d ds'
      else (start, last) :: runs_from same d d ds'
  end.

(** [runs] cuts the days [from .. to] into successive runs, and each is
    maximal: inside a run a day and the next are [same], and the last day of
    a run and the first of the next run are not. *)
Fixpoint maximal_runs (same : Z -> Z -> bool) (from to : Z) (runs : list (Z * Z)) : Prop :=
  match runs with
  | [] => False
  | (s, e) :: rest =>
      s = from /\ s <= e /\ (forall d, s <= d < e -> same d (d + 1) = true) /\
      match rest with
      | [] => e = to
      | _ => same e (e + 1) = false /\ maximal_runs same (e + 1) to rest
      end
  end.

Section Periods.
Context (this : BankAccountSystem) (monthStr : string) (db : gmap string float).

(** The rate in force on day [d] of the month. *)
Definition rate_on (d : Z) : float := getInterestRate this (dateKey monthStr d).

(** Whether two days have the same rate, by [===]. *)
Definition same_rate (d1 d2 : Z) : bool := (rate_on d1 =? rate_on d2)%float.

(** The maximal runs of days of equal rate in a month of [n] days. *)
Definition rate_runs (n : Z) : list (Z * Z) :=
  runs_from same_rate 1 1 (days 2 (Z.to_nat (n - 1))).

(** The total with the interest of a run added: the balance of the first
    day of the run, at the rate of the run, for the days of the run; a run
    whose rate is not positive adds nothing. *)
Definition add_run (total : float) (run : Z * Z) : float :=
  let '(s, e) := run in
  if (0 <? rate_on s)%float then
    (total + default nan (db !! dateKey monthStr s) * rate_on s / 100
             * JS.of_Z (e - s + 1) / 365)%float
  else total.

End Periods.

(** The day of the month of a transaction, 0 when its date has none. *)
Definition txn_day (txn : Txn.t) : Z := default 0 (day_of (Txn.date txn)).

(** The transactions of the month among [txns], in their order. *)
Definition in_month (monthStr : string) (txns : list Txn.t) : list Txn.t :=
  filter (fun txn => JS.startsWith (Txn.date txn) monthStr = true) txns.

(** ** Statements *)

(** The type of a deposit or of a withdrawal. *)
Definition is_D_or_W (type : string) : Prop := type = "D" \/ type = "W".

(** The balances that a statement of all the transactions of an account
    shows, line by line. *)
Definition running_balances (this : BankAccountSystem) (account : string) : list float :=
  match accounts this !! account with
  | Some a => Line.balance <$> (statement_lines 0 (sort by_date (Account.transactions a))).1
  | None => []
  end.

(** The lines of a printed statement. *)
Definition lines_of (r : option (BankAccountSystem * Printed)) : list Line.t :=
  match r with
  | Some (_, Statement _ lines) => lines
  | _ => []
  end.

(** A deposit, then a withdrawal dated before it. *)
Definition backdated_withdrawal : list Command :=
  [T ["20230610"; "AC001"; "D"; "100.00"]; T ["20230601"; "AC001"; "W"; "50.00"]].


(** ** Dates and amounts as entered *)

(** Day [d] of month [m] (1 is January) of year [y] is a day of the calendar. *)
Definition calendar_date (y m d : Z) : Prop :=
  1 <= m <= 12 /\ 1 <= d <= JS.days_in y (m - 1).

(** The number that a string of decimal digits writes. *)
Definition number_of (s : string) : Z := JS.digits_value 10 0 s.

(** The number of dots of a string. *)
Fixpoint count_dots (s : string) : nat :=
  match s with
  | EmptyString => O
  | String c s' => if Ascii.eqb c "."%char then S (count_dots s') else count_dots s'
  end.

(** No character of the string is white space. *)
Definition no_space (s : string) : bool := JS.all_chars (fun c => negb (JS.is_space c)) s.

(** A token of a line: not empty, and without white space. *)
Definition token (s : string) : Prop := s <> "" /\ no_space s = true.

(** The property names that every object inherits from [Object.prototype].
    As keys of a dictionary they are outside the embedding, which has own
    properties only. *)
Definition inherited_names : list string :=
  ["constructor"; "hasOwnProperty"; "isPrototypeOf"; "propertyIsEnumerable";
   "toLocaleString"; "toString"; "valueOf"; "__proto__"; "__defineGetter__";
   "__defineSetter__"; "__lookupGetter__"; "__lookupSetter__"].

(** A string that is no inherited name. *)
Definition own_key (key : string) : bool :=
  forallb (fun name => negb (String.eqb key name)) inherited_names.

(** A date written in decimal digits only, as the format YYYYMMdd has it.
    On such dates the order of [localeCompare] is the order of the code
    units. *)
Definition digit_date (date : string) : Prop := JS.all_chars JS.is_digit date = true.

(** A line of ASCII characters: [toUpperCase] changes its letters [a] to
    [z] and nothing else. *)
Definition ascii_line (input : string) : Prop :=
  JS.all_chars (fun c => JS.code c <? 128) input = true.

(** ** What the state holds *)

(** Greater than 0, and less than 100, by [<] on Numbers. *)
Definition above_0 (x : float) : Prop := (0 <? x)%float = true.

Definition below_100 (x : float) : Prop := (x <? 100)%float = true.

(** A transaction as [inputTransaction] lets it through. *)
Definition checked_transaction (txn : Txn.t) : Prop :=
  isValidDate (Txn.date txn) = true /\ is_D_or_W (Txn.type txn) /\
  above_0 (Txn.amount txn) /\ Txn.balance txn = 0%float.

(** A rule as [defineInterestRule] lets it through. *)
Definition checked_rule (rule : Rule.t) : Prop :=
  isValidDate (Rule.date rule) = true /\ above_0 (Rule.rate rule) /\ below_100 (Rule.rate rule).

(** [<=] on date strings. *)
Definition date_le (d1 d2 : string) : Prop := JS.str_le d1 d2 = true.

(** The rule is in force on the date: it is the rule of the state with the
    greatest date among those dated on or before the date. *)
Definition in_force (this : BankAccountSystem) (rule : Rule.t) (date : string) : Prop :=
  rule ∈ interestRules this /\ date_le (Rule.date rule) date /\
  forall r, r ∈ interestRules this -> date_le (Rule.date r) date ->
            date_le (Rule.date r) (Rule.date rule).

(** The balance after each of the transactions, from a starting balance. *)
Definition balances_from (balance : float) (txns : list Txn.t) : list float :=
  (fun k => fold_balance balance (take k txns)) <$> seq 1 (length txns).

(** The statement line of a transaction that leaves the balance given. *)
Definition line_of (txn : Txn.t) (balance : float) : Line.t :=
  {| Line.date := Txn.date txn; Line.txnId := Txn.txnId txn; Line.type := Txn.type txn;
     Line.amount := Txn.amount txn; Line.balance := balance |}.


(** ** Balances in the order of the dates *)

(** Zero, or greater than zero: a Number that [0 <=] holds of. *)
Definition not_negative (x : spec_float) : Prop :=
  match x with
  | S754_zero _ | S754_infinity false | S754_finite false _ _ => True
  | _ => False
  end.

(** Recorded in the order of the dates: no transaction is dated before one
    that was recorded earlier. *)
Definition in_date_order (txns : list Txn.t) : Prop :=
  StronglySorted (fun txn1 txn2 => date_le (Txn.date txn1) (Txn.date txn2)) txns.

(** No amount is an infinity. *)
Definition finite_amounts (txns : list Txn.t) : Prop :=
  Forall (fun txn => is_finite (Txn.amount txn) = true) txns.

(** The transactions that the account holds; none when it does not exist. *)
Definition held (this : BankAccountSystem) (account : string) : list Txn.t :=
  default [] (Account.transactions <$> accounts this !! account).

(** ** The interest of a run of days *)

(** The balance of an account at the end of day [d] of the month: the
    balance of the transactions dated before the month, followed by those
    of the month up to the day. *)
Definition balance_at_end_of (txns : list Txn.t) (monthStr : string) (d : Z) : float :=
  fold_balance (balanceBefore txns monthStr)
    (filter (fun txn => txn_day txn <= d) (in_month monthStr txns)).

(** The total with the interest of a run of days added, in binary64: the
    balance at the end of the first day of the run, at the rate of that day,
    for the days of the run; a run whose rate is not greater than 0 adds
    nothing. *)
Definition add_interest (this : BankAccountSystem) (monthStr : string) (txns : list Txn.t)
    (total : float) (run : Z * Z) : float :=
  let '(s, e) := run in
  if (0 <? rate_on this monthStr s)%float then
    (total + balance_at_end_of txns monthStr s * rate_on this monthStr s / 100
             * JS.of_Z (e - s + 1) / 365)%float
  else total.

(** The number of cents nearest to an amount, the greater one when two are
    as near: the rule of [toFixed(2)], on a rational number. *)
Definition nearest_cents (q : Q) : Z := Qfloor (q * 100 + (1 # 2)).

(** ** What is recorded stays *)

(** What a command keeps: the transactions recorded, the accounts with
    their dates of creation, the running numbers reached and a rule for
    each date that has one. *)
Definition keeps (this this' : BankAccountSystem) : Prop :=
  (exists new, transactions this' = transactions this ++ new) /\
  (forall account a, accounts this !! account = Some a ->
     exists a', accounts this' !! account = Some a' /\
                Account.createdDate a' = Account.createdDate a) /\
  (forall date n, runningNumbers this !! date = Some n ->
     exists n', runningNumbers this' !! date = Some n' /\ (n <= n')%nat) /\
  (forall rule, rule ∈ interestRules this ->
     exists rule', rule' ∈ interestRules this' /\ Rule.date rule' = Rule.date rule).

(** * Properties *)

(** ** The order of strings *)

Lemma ascii_compare_refl c : Ascii.compare c c = Eq.
Proof. unfold Ascii.compare. apply N.compare_refl. Qed.

Lemma ascii_compare_le_trans a b c :
  Ascii.compare a b <> Gt -> Ascii.compare b c <> Gt -> Ascii.compare a c <> Gt.
Proof.
  unfold Ascii.compare. rewrite !N.compare_le_iff. intros; etransitivity; eauto.
Qed.

Lemma string_compare_refl s : String.compare s s = Eq.
Proof. induction s as [|c s IH]; simpl; [done|]. by rewrite ascii_compare_refl. Qed.

Lemma string_compare_eq s1 s2 : String.compare s1 s2 = Eq <-> s1 = s2.
Proof.
  split; [apply String.compare_eq_iff|]. intros ->. apply string_compare_refl.
Qed.

Lemma string_compare_le_trans s1 s2 s3 :
  String.compare s1 s2 <> Gt -> String.compare s2 s3 <> Gt -> String.compare s1 s3 <> Gt.
Proof.
  revert s2 s3. induction s1 as [|a s1 IH]; intros [|b s2] [|c s3]; simpl; try congruence.
  destruct (Ascii.compare a b) eqn:Hab; [|clear IH|congruence].
  - apply Ascii.compare_eq_iff in Hab as ->.
    destruct (Ascii.compare b c); [apply IH|congruence|congruence].
  - intros _. destruct (Ascii.compare b c) eqn:Hbc; [| |congruence].
    + apply Ascii.compare_eq_iff in Hbc as <-. rewrite Hab. congruence.
    + intros _. destruct (Ascii.compare a c) eqn:Hac; [|congruence|].
      * apply Ascii.compare_eq_iff in Hac as ->.
        exfalso. apply (ascii_compare_le_trans c b c); try congruence.
        rewrite Ascii.compare_antisym, Hab in Hbc. done.
      * exfalso. apply (ascii_compare_le_trans a b c); congruence.
Qed.

Lemma string_compare_Gt_Lt s1 s2 : String.compare s1 s2 = Gt -> String.compare s2 s1 = Lt.
Proof. rewrite (String.compare_antisym s2 s1). by intros ->. Qed.

Lemma string_compare_Lt_Gt s1 s2 : String.compare s1 s2 = Lt -> String.compare s2 s1 = Gt.
Proof. rewrite (String.compare_antisym s2 s1). by intros ->. Qed.

Lemma string_compare_lt_trans s1 s2 s3 :
  String.compare s1 s2 = Lt -> String.compare s2 s3 = Lt -> String.compare s1 s3 = Lt.
Proof.
  intros H12 H23.
  destruct (String.compare s1 s3) eqn:H13; [|done|].
  - apply String.compare_eq_iff in H13 as ->.
    apply string_compare_Lt_Gt in H12. congruence.
  - exfalso. apply (string_compare_le_trans s3 s1 s2).
    + apply string_compare_Gt_Lt in H13. congruence.
    + congruence.
    + by apply string_compare_Lt_Gt.
Qed.

(** ** The stable sort *)

Section SortFacts.
Context {A : Type} (cmp : A -> A -> comparison).

Lemma sort_snoc l x : sort cmp (l ++ [x]) = insert_last cmp x (sort cmp l).
Proof. unfold sort. by rewrite fold_left_app. Qed.

Lemma insert_last_perm x l : insert_last cmp x l ≡ₚ x :: l.
Proof.
  induction l as [|y l IH]; simpl; [done|].
  destruct (cmp y x); [| |done]; rewrite IH; apply Permutation_swap.
Qed.

Lemma sort_perm l : sort cmp l ≡ₚ l.
Proof.
  induction l as [|x l IH] using rev_ind; [done|].
  rewrite sort_snoc, insert_last_perm, IH. apply Permutation_cons_append.
Qed.

Lemma elem_of_sort x l : x ∈ sort cmp l <-> x ∈ l.
Proof. by rewrite sort_perm. Qed.

Lemma insert_last_behind x l :
  Forall (fun y => le_by cmp y x) l -> insert_last cmp x l = l ++ [x].
Proof.
  induction 1 as [|y l Hy _ IH]; simpl; [done|].
  unfold le_by in Hy. destruct (cmp y x); [by rewrite IH|by rewrite IH|done].
Qed.

Lemma sort_sorted_id l : StronglySorted (le_by cmp) l -> sort cmp l = l.
Proof.
  induction l as [|x l IH] using rev_ind; [done|].
  intros Hs. apply StronglySorted_app in Hs as (Hall & Hl & _).
  rewrite sort_snoc, IH by done. apply insert_last_behind.
  apply Forall_forall. intros y Hy. apply Hall; [done|]. apply list_elem_of_singleton. done.
Qed.

Hypothesis cmp_trans : forall a b c, le_by cmp a b -> le_by cmp b c -> le_by cmp a c.
Hypothesis cmp_total : forall a b, cmp a b = Gt -> le_by cmp b a.

Lemma insert_last_sorted x l :
  StronglySorted (le_by cmp) l -> StronglySorted (le_by cmp) (insert_last cmp x l).
Proof.
  induction 1 as [|y l Hl IH Hy]; simpl.
  - repeat constructor.
  - assert (Hins : forall z, le_by cmp y z -> le_by cmp y x -> Forall (le_by cmp y) (insert_last cmp x l)).
    { intros _ _ Hyx. rewrite insert_last_perm. by constructor. }
    destruct (cmp y x) eqn:Hyx.
    + constructor; [done|]. apply (Hins x); unfold le_by; congruence.
    + constructor; [done|]. apply (Hins x); unfold le_by; congruence.
    + constructor; [by constructor|].
      constructor; [by apply cmp_total|].
      eapply Forall_impl; [exact Hy|]. intros z Hz. simpl in Hz.
      eapply cmp_trans; [|exact Hz]. by apply cmp_total.
Qed.

Lemma sort_sorted l : StronglySorted (le_by cmp) (sort cmp l).
Proof.
  induction l as [|x l IH] using rev_ind; [constructor|].
  rewrite sort_snoc. by apply insert_last_sorted.
Qed.

Lemma sort_idem l : sort cmp (sort cmp l) = sort cmp l.
Proof. apply sort_sorted_id, sort_sorted. Qed.

End SortFacts.

(** The comparators of the program are total preorders. *)

Lemma by_date_trans a b c : le_by by_date a b -> le_by by_date b c -> le_by by_date a c.
Proof. apply string_compare_le_trans. Qed.

Lemma by_date_total a b : by_date a b = Gt -> le_by by_date b a.
Proof. unfold le_by, by_date, JS.localeCompare. intros H%string_compare_Gt_Lt. congruence. Qed.

Lemma sort_by_date_idem l : sort by_date (sort by_date l) = sort by_date l.
Proof. apply sort_idem; [apply by_date_trans|apply by_date_total]. Qed.

(** ** What the handlers do to the state *)

Lemma recordTransaction_spec this dateStr account type amount :
  let txn := next_transaction this dateStr account type amount in
  let a := default {| Account.createdDate := dateStr; Account.transactions := [] |}
             (accounts this !! account) in
  exists this' lines,
    recordTransaction this dateStr account type amount
      = Some (this', AccountStatement account lines) /\
    transactions this' = transactions this ++ [txn] /\
    interestRules this' = interestRules this /\
    runningNumbers this'
      = <[dateStr := S (default O (runningNumbers this !! dateStr))]> (runningNumbers this) /\
    accounts this'
      = <[account := {| Account.createdDate := Account.createdDate a;
                        Account.transactions :=
                          sort by_date (Account.transactions a ++ [txn]) |}]>
          (accounts this).
Proof.
  intros txn a. unfold recordTransaction, displayAccountStatement, sort_transactions.
  cbn [generateTransactionId accounts transactions interestRules runningNumbers].
  rewrite lookup_insert_eq. cbn [Account.transactions Account.createdDate].
  eexists _, _. split; [reflexivity|]. cbn.
  repeat split. by rewrite insert_insert_eq.
Qed.

Lemma inputTransaction_total this parts : is_Some (inputTransaction this parts).
Proof.
  unfold inputTransaction.
  repeat (match goal with
          | |- is_Some (Some _) => eexists; reflexivity
          | |- context [match ?x with _ => _ end] => destruct x
          end; try done).
  all: match goal with
       | |- is_Some (recordTransaction ?t ?d ?a ?ty ?am) =>
           destruct (recordTransaction_spec t d a ty am) as (? & ? & -> & _); done
       end.
Qed.

(** A handler that does not record leaves the state as it was. *)
Lemma inputTransaction_cases this parts this' out :
  inputTransaction this parts = Some (this', out) ->
  (this' = this /\ accepted out = false) \/
  (exists dateStr account typeStr amountStr,
     parts = [dateStr; account; typeStr; amountStr] /\
     isValidDate dateStr = true /\
     (JS.toUpperCase typeStr = "D" \/ JS.toUpperCase typeStr = "W") /\
     accepted out = true /\
     recordTransaction this dateStr account (JS.toUpperCase typeStr)
       (JS.parseFloat amountStr) = Some (this', out)).
Proof.
  unfold inputTransaction. intros H.
  destruct parts as [|dateStr [|account [|typeStr [|amountStr [|]]]]];
    try (injection H as <- <-; left; done).
  destruct (isValidDate dateStr) eqn:Hd; cbn [negb] in H;
    [|injection H as <- <-; left; done].
  destruct (negb (JS.toUpperCase typeStr =? "D")%string
            && negb (JS.toUpperCase typeStr =? "W")%string) eqn:Hty;
    [injection H as <- <-; left; done|].
  assert (Hty' : JS.toUpperCase typeStr = "D" \/ JS.toUpperCase typeStr = "W").
  { destruct (String.eqb_spec (JS.toUpperCase typeStr) "D"); [by left|].
    destruct (String.eqb_spec (JS.toUpperCase typeStr) "W"); [by right|done]. }
  clear Hty.
  destruct (JS.isNaN (JS.parseFloat amountStr) || (JS.parseFloat amountStr <=? 0)%float);
    [injection H as <- <-; left; done|].
  destruct (negb (isValidAmount amountStr)); [injection H as <- <-; left; done|].
  assert (Hrec : recordTransaction this dateStr account (JS.toUpperCase typeStr)
                   (JS.parseFloat amountStr) = Some (this', out) ->
                 accepted out = true).
  { destruct (recordTransaction_spec this dateStr account (JS.toUpperCase typeStr)
                (JS.parseFloat amountStr)) as (? & ? & -> & _).
    by intros [= <- <-]. }
  destruct (JS.toUpperCase typeStr =? "W")%string.
  - destruct (getAccountBalance this account) as [currentBalance|];
      [|injection H as <- <-; left; done].
    destruct (currentBalance <? JS.parseFloat amountStr)%float;
      [injection H as <- <-; left; done|].
    right. eexists _, _, _, _. eauto 6.
  - right. eexists _, _, _, _. eauto 6.
Qed.

(** A session steps through reachable states. *)
Lemma session_reachable this cs this' outs :
  reachable this -> session this cs = Some (this', outs) -> reachable this'.
Proof.
  revert this outs. induction cs as [|c cs IH]; intros this outs Hr; simpl.
  - by intros [= <- _].
  - destruct (handle this c) as [[this1 out]|] eqn:Hc; [|done]. simpl.
    destruct (session this1 cs) as [[this2 outs']|] eqn:Hs; [|done]. simpl.
    intros [= <- _]. eapply IH; [|exact Hs]. by eapply reachable_handle.
Qed.

Lemma state_after_reachable cs this outs :
  session constructor cs = Some (this, outs) -> reachable (state_after cs).
Proof.
  intros H. unfold state_after. rewrite H.
  eapply session_reachable; [apply reachable_constructor|exact H].
Qed.

Lemma calculateMonthlyInterest_state this account monthStr endBalance this' interest :
  calculateMonthlyInterest this account monthStr endBalance = Some (this', interest) ->
  this' = this \/ exists txns, sort_transactions this account = Some (this', txns).
Proof.
  unfold calculateMonthlyInterest. destruct (interestRules this); [intros [= <- _]; by left|].
  destruct (sort_transactions this account) as [[this1 txns]|]; [|done].
  cbn. intros [= <- _]. right. by eexists.
Qed.

Lemma printStatement_state this parts this' out :
  printStatement this parts = Some (this', out) ->
  this' = this \/ exists account txns, sort_transactions this account = Some (this', txns).
Proof.
  unfold printStatement. intros H.
  destruct parts as [|account [|monthStr [|]]]; try (injection H as <- <-; by left).
  destruct (accounts this !! account) as [a|]; [|injection H as <- <-; by left].
  destruct (negb (String.length monthStr =? 6)%nat || JS.isNaN_string monthStr);
    [injection H as <- <-; by left|].
  destruct (sort by_date _); [injection H as <- <-; by left|].
  destruct (statement_lines _ _) as [statementLines balance].
  destruct (calculateMonthlyInterest this account _ balance) as [[this1 interest]|] eqn:Hc;
    [|done].
  cbn in H. injection H as <- <-.
  apply calculateMonthlyInterest_state in Hc as [->|[txns Hs]]; [by left|].
  right. by eexists _, _.
Qed.

Lemma defineInterestRule_cases this parts this' out :
  defineInterestRule this parts = Some (this', out) ->
  accounts this' = accounts this /\
  transactions this' = transactions this /\
  runningNumbers this' = runningNumbers this /\
  ((interestRules this' = interestRules this /\ defined out = false) \/
   exists dateStr ruleId rateStr,
     parts = [dateStr; ruleId; rateStr] /\
     isValidDate dateStr = true /\
     interestRules this'
       = upsert_rule {| Rule.date := dateStr; Rule.ruleId := ruleId;
                        Rule.rate := JS.parseFloat rateStr |} (interestRules this) /\
     out = InterestRules (interestRules this')).
Proof.
  unfold defineInterestRule. intros H.
  destruct parts as [|dateStr [|ruleId [|rateStr [|]]]];
    try (injection H as <- <-; repeat split; by left).
  destruct (isValidDate dateStr) eqn:Hd; cbn [negb] in H;
    [|injection H as <- <-; repeat split; by left].
  destruct (JS.isNaN (JS.parseFloat rateStr) || (JS.parseFloat rateStr <=? 0)%float
            || (100 <=? JS.parseFloat rateStr)%float);
    [injection H as <- <-; repeat split; by left|].
  injection H as <- <-. cbn. repeat split. right. eexists _, _, _. repeat split; done.
Qed.

(** ** Invariants of the reachable states *)

Lemma sort_transactions_id this account this' txns :
  ledger_inv this -> sort_transactions this account = Some (this', txns) -> this' = this.
Proof.
  intros Hinv Hs. unfold sort_transactions in Hs.
  specialize (Hinv account). destruct (accounts this !! account) as [a|] eqn:Ha; [|done].
  destruct Hinv as [Ha' _]. injection Hs as <- <-.
  rewrite Ha', sort_by_date_idem, <- Ha'. destruct this, a; cbn in *.
  f_equal. by apply insert_id.
Qed.

Lemma printStatement_id this parts this' out :
  ledger_inv this -> printStatement this parts = Some (this', out) -> this' = this.
Proof.
  intros Hinv [->|(account & txns & Hs)]%printStatement_state; [done|].
  by eapply sort_transactions_id.
Qed.

Lemma ledger_inv_record this dateStr account type amount this' out :
  ledger_inv this ->
  recordTransaction this dateStr account type amount = Some (this', out) ->
  ledger_inv this'.
Proof.
  intros Hinv Hr.
  destruct (recordTransaction_spec this dateStr account type amount)
    as (this1 & lines & Hr' & Ht & _ & _ & Ha).
  rewrite Hr' in Hr. injection Hr as <- <-.
  intros account'. rewrite Ha, Ht. unfold of_account. rewrite filter_app.
  destruct (decide (account = account')) as [<-|Hne].
  - rewrite lookup_insert_eq.
    rewrite (filter_cons_True _ (next_transaction this dateStr account type amount)),
      filter_nil by done.
    split; [|by destruct (filter _ (transactions this))].
    specialize (Hinv account). unfold of_account in Hinv.
    destruct (accounts this !! account) as [a|]; cbn.
    + destruct Hinv as [-> _]. by rewrite !sort_snoc, sort_by_date_idem.
    + by rewrite Hinv.
  - rewrite lookup_insert_ne by done.
    rewrite filter_cons_False, filter_nil, app_nil_r by (cbn; congruence).
    apply Hinv.
Qed.

Lemma ledger_inv_reachable this : reachable this -> ledger_inv this.
Proof.
  induction 1 as [|this c this' out _ IH Hc].
  - intros account. cbn. by rewrite lookup_empty.
  - destruct c as [parts|parts|parts]; cbn in Hc.
    + apply inputTransaction_cases in Hc as [[-> _]|(d & a & ty & am & _ & _ & _ & _ & Hr)];
        [done|]. by eapply ledger_inv_record.
    + apply defineInterestRule_cases in Hc as (Ha & Ht & _).
      intros account. specialize (IH account). by rewrite Ha, Ht.
    + by apply printStatement_id in Hc as ->.
Qed.

(** ** Rejected operations *)

Lemma year_month_parts monthStr :
  String.length monthStr = 6%nat ->
  JS.substring 0 4 monthStr +:+ JS.substring 4 6 monthStr = monthStr.
Proof.
  destruct monthStr as [|c1 [|c2 [|c3 [|c4 [|c5 [|c6 [|c7 s]]]]]]]; cbn;
    first [congruence | reflexivity].
Qed.

Lemma filter_none {A} (P : A -> Prop) `{forall x, Decision (P x)} (l : list A) :
  Forall (fun x => ~ P x) l -> filter P l = [].
Proof.
  induction 1 as [|x l Hx _ IH]; [done|]. by rewrite filter_cons_False.
Qed.

(** C9: for an existing account and a well-formed target month (six
    characters that make a numeral) in which the account has no transaction,
    [printStatement] prints the no-activity message and no statement lines,
    whatever interest rules the state holds; the state is as it was. *)
Theorem printStatement_no_activity this account a monthStr :
  accounts this !! account = Some a ->
  String.length monthStr = 6%nat ->
  JS.isNaN_string monthStr = false ->
  Forall (fun txn => JS.startsWith (Txn.date txn) monthStr = false) (Account.transactions a) ->
  printStatement this [account; monthStr] = Some (this, NoActivity).
Proof.
  intros Ha Hlen Hnum Hnone. unfold printStatement.
  rewrite Ha, Hlen, Hnum, year_month_parts by done. cbn [Nat.eqb negb orb].
  rewrite filter_none; [done|].
  eapply Forall_impl; [exact Hnone|]. cbn. intros txn ->. done.
Qed.

(** A month without transactions of the account, with a rule in force. *)
Lemma printStatement_no_activity_witness :
  let this := state_after [I ["20230101"; "RULE01"; "2.20"];
                           T ["20230505"; "AC001"; "D"; "100.00"]] in
  interestRules this <> [] /\
  printStatement this ["AC001"; "202306"] = Some (this, NoActivity).
Proof.
  split; [vm_compute; discriminate|].
  eapply (printStatement_no_activity _ "AC001" _ "202306").
  - vm_compute. reflexivity.
  - reflexivity.
  - reflexivity.
  - repeat constructor.
Defined.



(** The amount 9007199254740993.00 is greater than the balance
    9007199254740992, and [parseFloat] reads it as 9007199254740992: the
    withdrawal is recorded, and the balance is 0 after it. *)
Lemma withdrawal_beyond_balance_recorded :
  let this := state_after [T ["20230601"; "AC001"; "D"; "9007199254740992"]] in
  let entered := inputTransaction this ["20230601"; "AC001"; "W"; "9007199254740993.00"] in
  getAccountBalance this "AC001" = Some 9007199254740992%float /\
  Qle_bool (decimal "9007199254740993.00") (exact 9007199254740992) = false /\
  JS.parseFloat "9007199254740993.00" = 9007199254740992%float /\
  (accepted ∘ snd) <$> entered = Some true /\
  (fun r => getAccountBalance r.1 "AC001") <$> entered = Some (Some 0%float).
Proof. vm_compute. repeat split. Qed.

(** C5, amended: the balance and the amount are compared as Numbers.  For
    parts none of which is a name that a dictionary inherits: a withdrawal
    from an existing account, valid in its date and in the form of its
    amount, is rejected with the message of insufficient funds exactly when
    the balance of the account is less than the Number that [parseFloat]
    reads from the amount; and whatever is entered, [inputTransaction]
    returns, and unless it records the transaction it leaves the whole state
    (transactions, accounts, running numbers) as it was. *)
Theorem withdrawal_beyond_balance_rejected this parts :
  forallb own_key parts = true ->
  (forall dateStr account typeStr amountStr currentBalance,
     parts = [dateStr; account; typeStr; amountStr] ->
     getAccountBalance this account = Some currentBalance ->
     isValidDate dateStr = true ->
     JS.toUpperCase typeStr = "W" ->
     JS.isNaN (JS.parseFloat amountStr) || (JS.parseFloat amountStr <=? 0)%float = false ->
     isValidAmount amountStr = true ->
     (inputTransaction this parts = Some (this, InsufficientFunds) <->
      (currentBalance <? JS.parseFloat amountStr)%float = true)) /\
  (exists this' out,
     inputTransaction this parts = Some (this', out) /\
     (accepted out = false -> this' = this)).
Proof.
  intros _. split.
  - intros dateStr account typeStr amountStr currentBalance -> Hb Hd Hw Ham Hv.
    unfold inputTransaction. rewrite Hd, Hw, Ham, Hv, Hb. cbn -[recordTransaction].
    destruct (currentBalance <? JS.parseFloat amountStr)%float; [done|].
    split; [|done]. intros H.
    destruct (recordTransaction_spec this dateStr account "W" (JS.parseFloat amountStr))
      as (this1 & lines & Hr & _).
    rewrite Hr in H. discriminate H.
  - destruct (inputTransaction_total this parts) as [[this' out] H].
    exists this', out. split; [done|].
    apply inputTransaction_cases in H as [[-> _]|(? & ? & ? & ? & _ & _ & _ & Hacc & _)];
      [done|congruence].
Qed.

(** Scenario C: after a deposit of 100.00 and a withdrawal of 30.00 the
    balance is 70.00; a withdrawal of 100.00 is then rejected and the state,
    with its balance of 70.00, stays. *)
Lemma withdrawal_beyond_balance_rejected_witness :
  let this := state_after [T ["20230601"; "AC001"; "D"; "100.00"];
                           T ["20230601"; "AC001"; "W"; "30.00"]] in
  getAccountBalance this "AC001" = Some 70%float /\
  inputTransaction this ["20230601"; "AC001"; "W"; "100.00"]
    = Some (this, InsufficientFunds).
Proof.
  cbv zeta. split; [vm_compute; reflexivity|].
  destruct (withdrawal_beyond_balance_rejected
              (state_after [T ["20230601"; "AC001"; "D"; "100.00"];
                            T ["20230601"; "AC001"; "W"; "30.00"]])
              ["20230601"; "AC001"; "W"; "100.00"]) as [Hw _]; [vm_compute; reflexivity|].
  apply (Hw "20230601" "AC001" "W" "100.00" 70%float); vm_compute; reflexivity.
Defined.

(** C10: the interest of a month does not depend on the [endBalance] that
    its caller passes: any two values give the same result and state. *)
Theorem calculateMonthlyInterest_ignores_endBalance this account monthStr b1 b2 :
  calculateMonthlyInterest this account monthStr b1
  = calculateMonthlyInterest this account monthStr b2.
Proof. reflexivity. Qed.

(** ** Numbers as text *)

Lemma hex_value_digit d :
  0 <= d < 10 -> JS.hex_value (ascii_of_nat (Z.to_nat (48 + d))) = Some d.
Proof.
  intros Hd.
  assert (Hc : d = 0 \/ d = 1 \/ d = 2 \/ d = 3 \/ d = 4 \/ d = 5 \/ d = 6 \/ d = 7
               \/ d = 8 \/ d = 9) by lia.
  repeat (destruct Hc as [->|Hc]; [reflexivity|]). by subst.
Qed.

Lemma is_digit_digit d :
  0 <= d < 10 -> JS.is_digit (ascii_of_nat (Z.to_nat (48 + d))) = true.
Proof.
  intros Hd.
  assert (Hc : d = 0 \/ d = 1 \/ d = 2 \/ d = 3 \/ d = 4 \/ d = 5 \/ d = 6 \/ d = 7
               \/ d = 8 \/ d = 9) by lia.
  repeat (destruct Hc as [->|Hc]; [reflexivity|]). by subst.
Qed.

Lemma string_of_list_ascii_app l1 l2 :
  string_of_list_ascii (l1 ++ l2) = string_of_list_ascii l1 +:+ string_of_list_ascii l2.
Proof. induction l1 as [|c l1 IH]; cbn; [done|]. by rewrite IH. Qed.

Lemma digits_value_app r acc s1 s2 :
  JS.digits_value r acc (s1 +:+ s2) = JS.digits_value r (JS.digits_value r acc s1) s2.
Proof. revert acc. induction s1 as [|c s1 IH]; intros acc; cbn; [done|]. apply IH. Qed.

Lemma all_chars_app p s1 s2 :
  JS.all_chars p (s1 +:+ s2) = JS.all_chars p s1 && JS.all_chars p s2.
Proof.
  induction s1 as [|c s1 IH]; [done|].
  change (String c s1 +:+ s2) with (String c (s1 +:+ s2)). cbn.
  by rewrite IH, andb_assoc.
Qed.

(** The digits written for a number are digits, and their value is the number. *)
Lemma rev_digits_spec fuel n :
  0 <= n < 2 ^ Z.of_nat (S fuel) ->
  let s := string_of_list_ascii (rev (JS.rev_digits (S fuel) n)) in
  JS.digits_value 10 0 s = n /\ JS.all_chars JS.is_digit s = true /\ s <> "".
Proof.
  revert n. induction fuel as [|fuel IH]; intros n Hn.
  all: assert (Hmod : 0 <= n mod 10 < 10) by (apply Z.mod_pos_bound; lia).
  all: cbn [JS.rev_digits]; destruct (n <? 10) eqn:Hlt.
  all: try (apply Z.ltb_lt in Hlt; cbn; rewrite hex_value_digit, is_digit_digit by done;
            cbn; rewrite Z.mod_small by lia; done).
  - apply Z.ltb_ge in Hlt. cbn in Hn. lia.
  - apply Z.ltb_ge in Hlt. cbn [rev]. cbv zeta.
    rewrite string_of_list_ascii_app, digits_value_app, all_chars_app.
    destruct (IH (n / 10)) as (Hv & Hd & Hne).
    { split; [apply Z.div_pos; lia|].
      apply Z.div_lt_upper_bound; [lia|].
      rewrite (Nat2Z.inj_succ (S fuel)), Z.pow_succ_r in Hn by lia. lia. }
    cbn [JS.rev_digits] in Hv, Hd, Hne. rewrite Hv, Hd. cbn.
    rewrite hex_value_digit, is_digit_digit by done. cbn.
    split; [|split; [done|]].
    + rewrite (Z.div_mod n 10) at 3 by lia. lia.
    + destruct (string_of_list_ascii _); done.
Qed.

Lemma toString_spec n :
  0 <= n ->
  JS.digits_value 10 0 (JS.toString n) = n /\
  JS.all_chars JS.is_digit (JS.toString n) = true /\
  JS.toString n <> "".
Proof.
  intros Hn. unfold JS.toString.
  replace (n <? 0) with false by (symmetry; apply Z.ltb_ge; lia).
  rewrite Z.abs_eq by done. apply rev_digits_spec.
  split; [done|]. rewrite Nat2Z.inj_succ, Z2Nat.id by apply Z.log2_nonneg.
  destruct (decide (n = 0)) as [->|]; [done|]. apply Z.log2_spec. lia.
Qed.

Lemma padStart2_spec s :
  JS.all_chars JS.is_digit s = true -> s <> "" ->
  JS.digits_value 10 0 (JS.padStart2 s) = JS.digits_value 10 0 s /\
  JS.all_chars JS.is_digit (JS.padStart2 s) = true /\
  (2 <= String.length (JS.padStart2 s))%nat.
Proof.
  intros Hd Hne. unfold JS.padStart2.
  destruct s as [|c1 [|c2 s]]; [done| |]; cbn in *; rewrite ?Hd; repeat split; lia.
Qed.

(** The two digits of a day, or more, read back as the day. *)
Lemma padded_value n :
  0 <= n -> JS.digits_value 10 0 (JS.padStart2 (JS.toString n)) = n.
Proof.
  intros Hn. destruct (toString_spec n Hn) as (Hv & Hd & Hne).
  destruct (padStart2_spec _ Hd Hne) as (-> & _). done.
Qed.

(** ** Transaction ids *)

Lemma string_app_inj_l s t1 t2 : s +:+ t1 = s +:+ t2 -> t1 = t2.
Proof.
  induction s as [|c s IH]; [done|].
  change (String c s +:+ t1) with (String c (s +:+ t1)).
  change (String c s +:+ t2) with (String c (s +:+ t2)).
  intros [= H]. by apply IH.
Qed.

Lemma transactionId_inj dateStr k1 k2 :
  transactionId dateStr k1 = transactionId dateStr k2 -> k1 = k2.
Proof.
  unfold transactionId. intros H%string_app_inj_l%string_app_inj_l.
  apply (f_equal (JS.digits_value 10 0)) in H. rewrite !padded_value in H; lia.
Qed.

Lemma ids_inv_record this dateStr account type amount this' out :
  ids_inv this ->
  recordTransaction this dateStr account type amount = Some (this', out) ->
  ids_inv this'.
Proof.
  intros Hinv Hr.
  destruct (recordTransaction_spec this dateStr account type amount)
    as (this1 & lines & Hr' & Ht & _ & Hn & _).
  rewrite Hr' in Hr. injection Hr as <- <-.
  intros d. rewrite Ht, Hn. unfold on_date. rewrite filter_app, fmap_app.
  fold (on_date d (transactions this)). rewrite Hinv.
  destruct (decide (dateStr = d)) as [<-|Hne].
  - rewrite lookup_insert_eq. cbn [default from_option id]. rewrite seq_S, fmap_app.
    f_equal. rewrite (filter_cons_True _ (next_transaction _ _ _ _ _)) by done.
    reflexivity.
  - rewrite lookup_insert_ne by done.
    rewrite (filter_cons_False _ (next_transaction _ _ _ _ _)) by done.
    by rewrite filter_nil, app_nil_r.
Qed.

Lemma ids_inv_reachable this : reachable this -> ids_inv this.
Proof.
  induction 1 as [|this c this' out Hreach IH Hc].
  - intros d. cbn. by rewrite lookup_empty.
  - destruct c as [parts|parts|parts]; cbn in Hc.
    + apply inputTransaction_cases in Hc as [[-> _]|(d & a & ty & am & _ & _ & _ & _ & Hr)];
        [done|]. by eapply ids_inv_record.
    + apply defineInterestRule_cases in Hc as (_ & Ht & Hn & _).
      intros d. specialize (IH d). by rewrite Ht, Hn.
    + apply printStatement_id in Hc as ->; [done|]. by apply ledger_inv_reachable.
Qed.

(** C3: in every reachable state and for every date, the ids of the
    transactions recorded on the date, taken in the order of recording from
    [this.transactions], whatever their accounts, are the date followed by
    the running numbers 1, 2, ... up to their count, each written with at
    least two digits; no two of them are equal. *)
Theorem transaction_ids_of_a_date this dateStr :
  reachable this ->
  let recorded := on_date dateStr (transactions this) in
  Txn.txnId <$> recorded = transactionId dateStr <$> seq 1 (length recorded) /\
  NoDup (Txn.txnId <$> recorded) /\
  transactionId dateStr 1 = dateStr +:+ "-01" /\
  transactionId dateStr 2 = dateStr +:+ "-02" /\
  transactionId dateStr 100 = dateStr +:+ "-100".
Proof.
  intros Hr recorded. pose proof (ids_inv_reachable this Hr dateStr) as Hids.
  fold recorded in Hids.
  assert (Hlen : length recorded = default O (runningNumbers this !! dateStr)).
  { apply (f_equal length) in Hids. by rewrite !length_fmap, length_seq in Hids. }
  rewrite Hlen. split; [done|]. split; [|done].
  rewrite Hids. apply NoDup_fmap_2; [|apply NoDup_seq].
  intros k1 k2. apply transactionId_inj.
Qed.

(** Scenario A with a second account: AC001 and AC002 share the numbers of
    20230505. *)
Lemma transaction_ids_of_a_date_witness :
  let this := state_after [T ["20230505"; "AC001"; "D"; "100.00"];
                           T ["20230505"; "AC002"; "D"; "10.00"];
                           T ["20230506"; "AC002"; "D"; "10.00"];
                           T ["20230505"; "AC001"; "W"; "50.00"]] in
  Txn.account <$> on_date "20230505" (transactions this) = ["AC001"; "AC002"; "AC001"] /\
  Txn.txnId <$> on_date "20230505" (transactions this)
    = ["20230505-01"; "20230505-02"; "20230505-03"].
Proof.
  cbv zeta. split; [vm_compute; reflexivity|].
  eapply eq_trans;
    [apply (transaction_ids_of_a_date _ "20230505");
     eapply state_after_reachable; vm_compute; reflexivity|].
  vm_compute. reflexivity.
Defined.

(** ** The rate schedule *)

Lemma ascending_NoDup dates : StronglySorted date_lt dates -> NoDup dates.
Proof.
  induction 1 as [|d dates _ IH Hd]; constructor; [|done].
  intros Hin. rewrite Forall_forall in Hd. specialize (Hd d Hin).
  unfold date_lt, JS.localeCompare in Hd. by rewrite string_compare_refl in Hd.
Qed.

Lemma NoDup_fmap_elem_eq {A B} (f : A -> B) (l : list A) x y :
  NoDup (f <$> l) -> x ∈ l -> y ∈ l -> f x = f y -> x = y.
Proof.
  induction l as [|a l IH]; cbn; [by intros _ ?%elem_of_nil|].
  intros [Hna Hnd]%NoDup_cons [->|Hx]%elem_of_cons [->|Hy]%elem_of_cons Heq;
    [done| | |by apply IH].
  - destruct Hna. rewrite Heq. by apply list_elem_of_fmap_2.
  - destruct Hna. rewrite <- Heq. by apply list_elem_of_fmap_2.
Qed.

Lemma ascending_le_by rules : rules_inv rules -> StronglySorted (le_by by_rule_date) rules.
Proof.
  unfold rules_inv. induction rules as [|r rules IH]; cbn; [constructor|].
  intros [Hr Hs]%StronglySorted_cons. constructor; [by apply IH|].
  rewrite Forall_fmap in Hr. eapply Forall_impl; [exact Hr|].
  cbn. unfold le_by, by_rule_date, date_lt. congruence.
Qed.

Lemma rules_inv_replace rules i r rule :
  rules !! i = Some r -> Rule.date r = Rule.date rule ->
  rules_inv rules -> rules_inv (<[i := rule]> rules).
Proof.
  intros Hi Hd. unfold rules_inv. rewrite list_fmap_insert, list_insert_id; [done|].
  by rewrite list_lookup_fmap, Hi, <- Hd.
Qed.

Lemma rules_inv_insert_last rules rule :
  Forall (fun r => Rule.date r <> Rule.date rule) rules ->
  rules_inv rules -> rules_inv (insert_last by_rule_date rule rules).
Proof.
  unfold rules_inv. induction rules as [|r rules IH]; cbn.
  - intros _ _. repeat constructor.
  - intros [Hne Hnone]%Forall_cons [Hr Hs]%StronglySorted_cons.
    unfold by_rule_date at 1. destruct (JS.localeCompare _ _) eqn:Hc; cbn.
    + apply string_compare_eq in Hc. done.
    + apply StronglySorted_cons. split; [|by apply IH].
      rewrite Forall_fmap, insert_last_perm. constructor; [done|].
      by rewrite <- Forall_fmap.
    + apply string_compare_Gt_Lt in Hc.
      constructor; [by apply StronglySorted_cons|].
      constructor; [done|]. eapply Forall_impl; [exact Hr|].
      intros d Hd. eapply string_compare_lt_trans; [exact Hc|exact Hd].
Qed.

Lemma rules_inv_upsert rule rules : rules_inv rules -> rules_inv (upsert_rule rule rules).
Proof.
  intros Hinv. unfold upsert_rule.
  destruct (list_find _ rules) as [[i r]|] eqn:Hf.
  - apply list_find_Some in Hf as (Hi & Hd & _).
    pose proof (rules_inv_replace rules i r rule Hi Hd Hinv) as Hinv'.
    by rewrite sort_sorted_id by by apply ascending_le_by.
  - apply list_find_None in Hf.
    rewrite sort_snoc, sort_sorted_id by by apply ascending_le_by.
    by apply rules_inv_insert_last.
Qed.

Lemma elem_of_upsert rule rules r : r ∈ upsert_rule rule rules -> r = rule \/ r ∈ rules.
Proof.
  unfold upsert_rule. rewrite elem_of_sort.
  destruct (list_find _ rules) as [[i r0]|] eqn:Hf.
  - intros Hin. apply list_elem_of_lookup in Hin as [j Hj].
    destruct (decide (i = j)) as [<-|Hne].
    + apply list_find_Some in Hf as (Hi & _).
      rewrite list_lookup_insert_eq in Hj by by eapply lookup_lt_Some.
      left. congruence.
    + rewrite list_lookup_insert_ne in Hj by done.
      right. by eapply list_elem_of_lookup_2.
  - intros [Hin|Hin%list_elem_of_singleton]%elem_of_app; [by right|by left].
Qed.

Lemma upsert_elem_of rule rules : rule ∈ upsert_rule rule rules.
Proof.
  unfold upsert_rule. rewrite elem_of_sort.
  destruct (list_find _ rules) as [[i r0]|] eqn:Hf.
  - apply list_find_Some in Hf as (Hi & _).
    apply list_elem_of_insert. by eapply lookup_lt_Some.
  - apply elem_of_app. right. by apply list_elem_of_singleton.
Qed.

Lemma upsert_keeps rule rules r :
  r ∈ rules -> Rule.date r <> Rule.date rule -> r ∈ upsert_rule rule rules.
Proof.
  intros Hin Hne. unfold upsert_rule. rewrite elem_of_sort.
  destruct (list_find _ rules) as [[i r0]|] eqn:Hf.
  - apply list_find_Some in Hf as (Hi & Hd & _).
    apply list_elem_of_lookup in Hin as [j Hj].
    apply list_elem_of_lookup. exists j. rewrite list_lookup_insert_ne; [done|].
    intros <-. congruence.
  - apply elem_of_app. by left.
Qed.

Lemma rules_inv_reachable this : reachable this -> rules_inv (interestRules this).
Proof.
  induction 1 as [|this c this' out Hreach IH Hc].
  - constructor.
  - destruct c as [parts|parts|parts]; cbn in Hc.
    + apply inputTransaction_cases in Hc as [[-> _]|(d & a & ty & am & _ & _ & _ & _ & Hr)];
        [done|].
      destruct (recordTransaction_spec this d a (JS.toUpperCase ty) (JS.parseFloat am))
        as (this1 & lines & Hr' & _ & Hrules & _).
      rewrite Hr' in Hr. injection Hr as <- <-. by rewrite Hrules.
    + apply defineInterestRule_cases in Hc as (_ & _ & _ & [[-> _]|Hc]); [done|].
      destruct Hc as (d & id & rt & _ & _ & -> & _). by apply rules_inv_upsert.
    + apply printStatement_id in Hc as ->; [done|]. by apply ledger_inv_reachable.
Qed.



(** ** Equality of Numbers *)

Lemma SFeqb_same x y : SFeqb x y = true <-> same_number x y.
Proof.
  unfold SFeqb, SFcompare, same_number.
  destruct x as [sx|sx| |sx mx ex], y as [sy|sy| |sy my ey];
    try destruct sx; try destruct sy; try (split; congruence); try done.
  all: destruct (Z.compare ex ey) eqn:He;
    try (split; [done|]; intros [= -> ->]; by rewrite Z.compare_refl in He).
  all: apply Z.compare_eq_iff in He as ->.
  all: fold (Pos.compare mx my); destruct (Pos.compare mx my) eqn:Hm;
    cbn; try (split; [done|]; intros [= ->]; by rewrite Pos.compare_refl in Hm).
  all: by apply Pos.compare_eq_iff in Hm as ->.
Qed.

Lemma same_number_sym x y : same_number x y -> same_number y x.
Proof. destruct x, y; cbn; congruence. Qed.

Lemma same_number_trans x y z : same_number x y -> same_number y z -> same_number x z.
Proof. destruct x, y, z; cbn; try done; congruence. Qed.

Lemma bool_eq_iff (a b : bool) : (a = true <-> b = true) -> a = b.
Proof. destruct a, b; intuition congruence. Qed.

Lemma float_eqb_sym (x y : float) : (x =? y)%float = (y =? x)%float.
Proof.
  rewrite !FloatAxioms.eqb_spec. apply bool_eq_iff. rewrite !SFeqb_same.
  split; apply same_number_sym.
Qed.

Lemma float_eqb_trans (x y r : float) :
  (x =? y)%float = true -> (r =? y)%float = (r =? x)%float.
Proof.
  rewrite !FloatAxioms.eqb_spec. intros Hxy%SFeqb_same.
  apply bool_eq_iff. rewrite !SFeqb_same. split; intros Hr.
  - eapply same_number_trans; [exact Hr|]. by apply same_number_sym.
  - eapply same_number_trans; [exact Hr|done].
Qed.

(** ** Days and their keys *)

Lemma days_S a k : days a (S k) = a :: days (a + 1) k.
Proof.
  unfold days. cbn. f_equal; [f_equal; lia|].
  rewrite <- fmap_S_seq, <- list_fmap_compose. apply list_fmap_ext.
  intros _ i _. cbn. lia.
Qed.

Lemma days_from_days a n : days_from (Some a) (Some n) = days a (Z.to_nat (n - a + 1)).
Proof. reflexivity. Qed.

Lemma substring_day monthStr t :
  String.length monthStr = 6%nat -> String.length t = 2%nat ->
  JS.substring 6 8 (monthStr +:+ t) = t.
Proof.
  destruct monthStr as [|c1 [|c2 [|c3 [|c4 [|c5 [|c6 [|c7 s]]]]]]]; try done.
  destruct t as [|d1 [|d2 [|d3 t]]]; done.
Qed.

Lemma two_digits_below_100 d : 0 <= d < 100 -> two_digits d = true.
Proof.
  intros Hd.
  assert (Hall : forallb (fun i => two_digits (Z.of_nat i)) (seq 0 100) = true)
    by (vm_compute; reflexivity).
  rewrite forallb_forall in Hall. specialize (Hall (Z.to_nat d)).
  rewrite Z2Nat.id in Hall by lia. apply Hall. apply in_seq. lia.
Qed.

Lemma day_of_dateKey monthStr d :
  String.length monthStr = 6%nat -> 0 <= d < 100 ->
  day_of (dateKey monthStr d) = Some d.
Proof.
  intros Hlen Hd. apply two_digits_below_100 in Hd.
  apply andb_true_iff in Hd as [Hl%Nat.eqb_eq Hp%bool_decide_eq_true].
  unfold day_of, dateKey. by rewrite substring_day.
Qed.

(** The month has from 28 to 31 days, when its year and month are numbers. *)
Lemma days_in_bounds y m : 28 <= JS.days_in y m <= 31.
Proof.
  unfold JS.days_in.
  repeat (match goal with |- context [if ?b then _ else _] => destruct b end); lia.
Qed.

Lemma daysInMonth_bounds monthStr n : daysInMonth monthStr = Some n -> 28 <= n <= 31.
Proof.
  unfold daysInMonth, JS.getDate, JS.Date.
  destruct (JS.parseInt (JS.substring 0 4 monthStr)) as [y|]; [|done].
  destruct (JS.parseInt (JS.substring 4 6 monthStr)) as [m|]; [|done].
  cbn. remember (if (0 <=? y) && (y <=? 99) then 1900 + y else y) as y1.
  remember (y1 + Z.succ (Z.pred m) / 12) as y2. remember (Z.succ (Z.pred m) mod 12) as m2.
  destruct (JS.prev_month y2 m2) as [y3 m3]. cbn.
  intros [= <-]. apply days_in_bounds.
Qed.

(** ** The interest of a month, run by run *)

Lemma runs_from_maximal same k : forall s last,
  s <= last -> (forall d, s <= d < last -> same d (d + 1) = true) ->
  maximal_runs same s (last + Z.of_nat k) (runs_from same s last (days (last + 1) k)).
Proof.
  induction k as [|k IH]; intros s last Hs Hsame.
  - cbn. repeat split; [done|done|lia].
  - rewrite days_S. cbn [runs_from]. destruct (same last (last + 1)) eqn:Hd.
    + replace (last + Z.of_nat (S k)) with (last + 1 + Z.of_nat k) by lia.
      apply IH; [lia|]. intros d Hd'.
      destruct (decide (d = last)) as [->|]; [done|]. apply Hsame. lia.
    + specialize (IH (last + 1) (last + 1)).
      replace (last + Z.of_nat (S k)) with (last + 1 + Z.of_nat k) by lia.
      cbn [maximal_runs]. repeat split; [done|done|].
      destruct (runs_from same (last + 1) (last + 1) (days (last + 1 + 1) k)) eqn:Hrest.
      * destruct IH; [lia|intros; lia].
      * split; [done|]. apply IH; [lia|intros; lia].
Qed.

Section PeriodFacts.
Context (this : BankAccountSystem) (monthStr : string) (db : gmap string float).

Lemma period_loop k : forall p s last,
  String.length monthStr = 6%nat ->
  0 <= s <= last -> last + Z.of_nat k < 100 ->
  currentPeriodStart p = dateKey monthStr s ->
  currentRate p = rate_on this monthStr s ->
  (forall r, (r =? rate_on this monthStr s)%float = (rate_on this monthStr last =? r)%float) ->
  let p' := fold_left (period_step this monthStr db) (days (last + 1) k) p in
  close_period db p'
    (s' ← day_of (currentPeriodStart p'); d ← Some (last + Z.of_nat k); Some (d - s' + 1))
  = fold_left (add_run this monthStr db) (runs_from (same_rate this monthStr) s last (days (last + 1) k)) (totalInterest p).
Proof.
  induction k as [|k IH]; intros p s last month_length Hs Hk Hstart Hrate Hsame.
  - cbn. rewrite Hstart, day_of_dateKey by (done || lia). cbn.
    unfold close_period. rewrite Hstart, Hrate. by rewrite Z.add_0_r.
  - rewrite days_S. cbn [fold_left runs_from]. cbv zeta.
    replace (last + Z.of_nat (S k)) with (last + 1 + Z.of_nat k) by lia.
    assert (Hstep : period_step this monthStr db p (last + 1)
              = if (rate_on this monthStr last =? rate_on this monthStr (last + 1))%float then p
                else {| totalInterest := (add_run this monthStr db) (totalInterest p) (s, last);
                        currentPeriodStart := dateKey monthStr (last + 1);
                        currentRate := rate_on this monthStr (last + 1) |}).
    { unfold period_step. fold (rate_on this monthStr (last + 1)). rewrite Hrate, Hsame.
      destruct (rate_on this monthStr last =? rate_on this monthStr (last + 1))%float; cbn [negb]; [done|].
      f_equal. unfold close_period, add_run.
      rewrite Hstart, Hrate, day_of_dateKey by (done || lia). cbn.
      by replace (last + 1 - s) with (last - s + 1) by lia. }
    rewrite Hstep. unfold same_rate at 1.
    destruct (rate_on this monthStr last =? rate_on this monthStr (last + 1))%float eqn:Hd.
    + apply IH; [done|lia|lia|done|done|].
      intros r. rewrite <- Hsame in Hd.
      rewrite (float_eqb_trans _ _ r Hd). apply float_eqb_sym.
    + cbn [fold_left]. apply IH; [done|lia|lia|done|done|].
      intros r. apply float_eqb_sym.
Qed.

(** Without rules every rate is 0. *)
Lemma rate_on_no_rules d : interestRules this = [] -> rate_on this monthStr d = 0%float.
Proof. unfold rate_on, getInterestRate. by intros ->. Qed.

Lemma runs_from_all_same k : forall s last,
  (forall d1 d2, (same_rate this monthStr) d1 d2 = true) ->
  runs_from (same_rate this monthStr) s last (days (last + 1) k) = [(s, last + Z.of_nat k)].
Proof.
  induction k as [|k IH]; intros s last Hsame.
  - cbn. by rewrite Z.add_0_r.
  - rewrite days_S. cbn [runs_from]. rewrite Hsame, IH by done. do 2 f_equal. lia.
Qed.

End PeriodFacts.

Lemma getInterestRate_rules this1 this2 date :
  interestRules this1 = interestRules this2 ->
  getInterestRate this1 date = getInterestRate this2 date.
Proof. unfold getInterestRate. by intros ->. Qed.

(** The interest returned is the rounded sum over the runs of equal rate. *)
Lemma calculateMonthlyInterest_by_runs this account a monthStr n endBalance :
  accounts this !! account = Some a ->
  String.length monthStr = 6%nat ->
  daysInMonth monthStr = Some n ->
  snd <$> calculateMonthlyInterest this account monthStr endBalance
  = Some (JS.toFixed2
            (fold_left
               (add_run this monthStr
                  (dailyBalances (sort by_date (Account.transactions a)) monthStr))
               (rate_runs this monthStr n) 0%float)).
Proof.
  intros Ha Hlen Hn. pose proof (daysInMonth_bounds _ _ Hn) as Hb.
  assert (Hk : 1 + Z.of_nat (Z.to_nat (n - 1)) = n) by lia.
  set (db := dailyBalances _ _). unfold calculateMonthlyInterest.
  destruct (interestRules this) as [|rule rules] eqn:Hrules.
  - cbn. unfold rate_runs.
    pose proof (runs_from_all_same this monthStr (Z.to_nat (n - 1)) 1 1) as Hall.
    change (1 + 1) with 2 in Hall. rewrite Hall.
    + cbn. by rewrite (rate_on_no_rules this monthStr 1 Hrules).
    + intros d1 d2. unfold same_rate. by rewrite !(rate_on_no_rules this monthStr _ Hrules).
  - unfold sort_transactions. rewrite Ha, Hn. cbn [mbind option_bind fmap option_fmap option_map snd].
    fold db. f_equal. f_equal.
    set (this' := {| accounts := _ |}).
    change (days_from (Some 2) (Some n)) with (days (1 + 1) (Z.to_nat (n - 2 + 1))).
    replace (Z.to_nat (n - 2 + 1)) with (Z.to_nat (n - 1)) by lia.
    pose proof (period_loop this' monthStr db (Z.to_nat (n - 1))
                  {| totalInterest := 0;
                     currentPeriodStart := monthStr +:+ "01";
                     currentRate := getInterestRate this' (monthStr +:+ "01") |} 1 1) as Hloop.
    cbv zeta in Hloop. rewrite Hk in Hloop.
    apply Hloop; [done|lia|lia|reflexivity|reflexivity|intros r; apply float_eqb_sym].
Qed.

(** ** The table of daily balances *)

Lemma dateKey_inj monthStr d1 d2 :
  String.length monthStr = 6%nat -> 0 <= d1 < 100 -> 0 <= d2 < 100 ->
  dateKey monthStr d1 = dateKey monthStr d2 -> d1 = d2.
Proof.
  intros Hlen H1 H2 Heq. apply (f_equal day_of) in Heq.
  rewrite !day_of_dateKey in Heq by done. congruence.
Qed.

Lemma elem_of_days d a k : d ∈ days a k <-> a <= d < a + Z.of_nat k.
Proof.
  unfold days. rewrite list_elem_of_fmap. split.
  - intros (i & -> & Hi%elem_of_seq). lia.
  - intros Hd. exists (Z.to_nat (d - a)). split; [lia|]. apply elem_of_seq. lia.
Qed.

(** What [dailyBalances[key]] is after the days from [from] are set. *)
Lemma lookup_set_from monthStr n from currentBalance db key :
  set_from monthStr n from currentBalance db !! key
  = if bool_decide (key ∈ dateKey monthStr <$> days_from from n) then Some currentBalance
    else db !! key.
Proof.
  unfold set_from. revert db. induction (days_from from n) as [|d ds IH]; intros db; cbn.
  - by rewrite bool_decide_eq_false_2 by apply not_elem_of_nil.
  - rewrite IH. destruct (decide (key ∈ dateKey monthStr <$> ds)) as [Hin|Hnin].
    + rewrite !bool_decide_eq_true_2; [done| |done]. by apply list_elem_of_further.
    + rewrite (bool_decide_eq_false_2 _ Hnin).
      destruct (decide (key = dateKey monthStr d)) as [->|Hne].
      * rewrite lookup_insert_eq, bool_decide_eq_true_2; [done|]. apply list_elem_of_here.
      * rewrite lookup_insert_ne, bool_decide_eq_false_2; [done| |done].
        intros [?|?]%elem_of_cons; done.
Qed.

Lemma lookup_set_from_day monthStr n a currentBalance db d :
  String.length monthStr = 6%nat -> 0 <= a -> 0 <= d <= n -> n < 100 ->
  set_from monthStr (Some n) (Some a) currentBalance db !! dateKey monthStr d
  = if bool_decide (a <= d) then Some currentBalance else db !! dateKey monthStr d.
Proof.
  intros Hlen Ha Hd Hn. rewrite lookup_set_from, days_from_days.
  destruct (decide (a <= d)) as [Hle|Hgt].
  - rewrite !bool_decide_eq_true_2; [done|done|].
    apply list_elem_of_fmap. exists d. split; [done|]. apply elem_of_days. lia.
  - rewrite !bool_decide_eq_false_2; [done|done|].
    intros (d' & Heq & Hd'%elem_of_days)%list_elem_of_fmap.
    apply dateKey_inj in Heq; [|done|lia|lia]. lia.
Qed.

Lemma filter_all {A} (P : A -> Prop) `{forall x, Decision (P x)} (l : list A) :
  Forall P l -> filter P l = l.
Proof.
  induction 1 as [|x l Hx _ IH]; [done|]. by rewrite filter_cons_True, IH.
Qed.

Lemma fold_balance_snoc balance txns txn :
  fold_balance balance (txns ++ [txn])
  = calculateNewBalance (fold_balance balance txns) (Txn.type txn) (Txn.amount txn).
Proof. unfold fold_balance. by rewrite fold_left_app. Qed.

(** The loop over the transactions of the month, when these come in the
    order of their days: the entry of a day is the balance before the month
    followed by the transactions up to that day. *)
Lemma month_loop monthStr n opening db0 month :
  String.length monthStr = 6%nat -> n < 100 ->
  Forall (fun txn => exists k, day_of (Txn.date txn) = Some k /\ 0 <= k) month ->
  StronglySorted (fun t1 t2 => txn_day t1 <= txn_day t2) month ->
  let st := fold_left (apply_month_txn monthStr (Some n)) month (opening, db0) in
  st.1 = fold_balance opening month /\
  forall d, 0 <= d <= n ->
    db0 !! dateKey monthStr d = Some opening ->
    st.2 !! dateKey monthStr d
    = Some (fold_balance opening (filter (fun txn => txn_day txn <= d) month)).
Proof.
  intros Hlen Hn. induction month as [|txn month IH] using rev_ind; intros Hdays Hsorted.
  - cbn. split; [done|]. intros d _ Hd. done.
  - apply Forall_app in Hdays as [Hdays Htxn].
    apply Forall_singleton in Htxn as (k & Hk & Hk0).
    apply StronglySorted_app in Hsorted as (Hlast & Hsorted & _).
    specialize (IH Hdays Hsorted). cbv zeta in IH. destruct IH as [IH1 IH2].
    cbv zeta. rewrite fold_left_app. cbn [fold_left].
    destruct (fold_left (apply_month_txn monthStr (Some n)) month (opening, db0))
      as [cur db] eqn:Hfold.
    cbn in IH1, IH2. subst cur. unfold apply_month_txn. cbn [fst snd].
    split; [by rewrite fold_balance_snoc|].
    intros d Hd Hd0. fold (day_of (Txn.date txn)). rewrite Hk.
    rewrite lookup_set_from_day by (done || lia).
    rewrite filter_app.
    assert (Hday : txn_day txn = k) by (unfold txn_day; by rewrite Hk).
    destruct (decide (k <= d)) as [Hle|Hgt].
    + rewrite bool_decide_eq_true_2 by done.
      rewrite (filter_cons_True _ txn) by (cbn; lia). rewrite filter_nil.
      rewrite fold_balance_snoc, filter_all; [done|].
      apply Forall_forall. intros t Ht. cbn.
      specialize (Hlast t txn Ht). rewrite Hday in Hlast.
      etransitivity; [apply Hlast|done]. by apply list_elem_of_singleton.
    + rewrite bool_decide_eq_false_2 by done.
      rewrite (filter_cons_False _ txn) by (cbn; lia). rewrite filter_nil, app_nil_r.
      by apply IH2.
Qed.

(** The entry of a day of the month in [dailyBalances] is the balance at the
    end of the day: the balance before the month followed by the
    transactions of the month up to the day, when these have days and come
    in the order of their days. *)
Lemma dailyBalances_closing txns monthStr n d :
  String.length monthStr = 6%nat ->
  daysInMonth monthStr = Some n ->
  1 <= d <= n ->
  Forall (fun txn => exists k, day_of (Txn.date txn) = Some k /\ 0 <= k)
    (in_month monthStr txns) ->
  StronglySorted (fun t1 t2 => txn_day t1 <= txn_day t2) (in_month monthStr txns) ->
  dailyBalances txns monthStr !! dateKey monthStr d
  = Some (fold_balance (balanceBefore txns monthStr)
            (filter (fun txn => txn_day txn <= d) (in_month monthStr txns))).
Proof.
  intros Hlen Hn Hd Hdays Hsorted. pose proof (daysInMonth_bounds _ _ Hn) as Hb.
  unfold dailyBalances. rewrite Hn.
  apply (month_loop monthStr n); [done|lia|done|done|lia|].
  rewrite lookup_set_from_day by (done || lia).
  by rewrite bool_decide_eq_true_2 by lia.
Qed.

(** A deposit before June, and a deposit and a withdrawal within it: the
    entries of the 1st, the 10th, the 20th and the 30th. *)
Example dailyBalances_of_june :
  let this := state_after [T ["20230505"; "AC001"; "D"; "100.00"];
                           T ["20230620"; "AC001"; "W"; "30.00"];
                           T ["20230610"; "AC001"; "D"; "50.00"]] in
  let db := dailyBalances (default [] (Account.transactions <$> accounts this !! "AC001"))
              "202306" in
  (fun d => db !! dateKey "202306" d) <$> [1; 10; 20; 30]
  = [Some 100%float; Some 150%float; Some 120%float; Some 120%float].
Proof. vm_compute. reflexivity. Qed.

(** ** Balances *)

(** After deposits of 0.10 and 0.20 the balance is the Number
    0.30000000000000004: it is neither the sum 3/10 of the amounts entered
    nor the sum of the two Numbers recorded for them. *)
Lemma balance_is_not_the_exact_sum :
  let this := state_after [T ["20230601"; "AC001"; "D"; "0.10"];
                           T ["20230601"; "AC001"; "D"; "0.20"]] in
  getAccountBalance this "AC001" = Some 0.30000000000000004%float /\
  Qeq_bool (decimal "0.10" + decimal "0.20") (3 # 10) = true /\
  Qeq_bool (exact 0.30000000000000004) (3 # 10) = false /\
  Qeq_bool (exact 0.30000000000000004) (exact_sum (transactions this)) = false.
Proof. vm_compute. repeat split. Qed.

(** C7, amended: the amounts are Numbers and are combined by the binary64
    [+] and [-]: in every reachable state the balance of an account whose
    dates are written in digits is the fold of these operations, from 0,
    over the transactions recorded for the account, in the order of their
    dates and, within a date, of recording; and the interest of a month is
    summed run by run in binary64 and rounded to 2 decimal places once, at
    the end. *)
Theorem balance_is_the_binary64_fold this account a :
  reachable this ->
  accounts this !! account = Some a ->
  Forall (fun txn => digit_date (Txn.date txn)) (Account.transactions a) ->
  getAccountBalance this account
  = Some (fold_left
            (fun balance txn =>
               if String.eqb (Txn.type txn) "D" then (balance + Txn.amount txn)%float
               else (balance - Txn.amount txn)%float)
            (sort by_date (of_account account (transactions this))) 0%float) /\
  forall monthStr n endBalance,
    String.length monthStr = 6%nat ->
    daysInMonth monthStr = Some n ->
    snd <$> calculateMonthlyInterest this account monthStr endBalance
    = Some (JS.toFixed2
              (fold_left
                 (add_run this monthStr
                    (dailyBalances (sort by_date (of_account account (transactions this)))
                       monthStr))
                 (rate_runs this monthStr n) 0%float)).
Proof.
  intros Hr Ha _. pose proof (ledger_inv_reachable this Hr account) as Hinv.
  rewrite Ha in Hinv. destruct Hinv as [Htxns _]. split.
  - unfold getAccountBalance. rewrite Ha, Htxns. reflexivity.
  - intros monthStr n endBalance Hlen Hn.
    rewrite (calculateMonthlyInterest_by_runs this account a monthStr n) by done.
    by rewrite Htxns, sort_by_date_idem.
Qed.

(** The deposits of 0.10 and 0.20 again. *)
Lemma balance_is_the_binary64_fold_witness :
  let this := state_after [T ["20230601"; "AC001"; "D"; "0.10"];
                           T ["20230601"; "AC001"; "D"; "0.20"]] in
  getAccountBalance this "AC001" = Some (0 + 0.1 + 0.2)%float.
Proof.
  cbv zeta.
  pose proof (state_after_reachable
                [T ["20230601"; "AC001"; "D"; "0.10"]; T ["20230601"; "AC001"; "D"; "0.20"]]
                _ _ ltac:(vm_compute; reflexivity)) as Hr.
  assert (Ha : exists a, accounts (state_after
                [T ["20230601"; "AC001"; "D"; "0.10"]; T ["20230601"; "AC001"; "D"; "0.20"]])
                !! "AC001" = Some a /\
                Forall (fun txn => digit_date (Txn.date txn)) (Account.transactions a)).
  { eexists. split; [vm_compute; reflexivity|]. vm_compute. repeat constructor. }
  destruct Ha as (a & Ha & Hdigits).
  eapply eq_trans; [exact (proj1 (balance_is_the_binary64_fold _ _ a Hr Ha Hdigits))|].
  vm_compute. reflexivity.
Defined.

(** ** The lines of a statement *)

Lemma types_reachable this :
  reachable this -> Forall (fun txn => is_D_or_W (Txn.type txn)) (transactions this).
Proof.
  induction 1 as [|this c this' out Hreach IH Hc]; [constructor|].
  destruct c as [parts|parts|parts]; cbn in Hc.
  - apply inputTransaction_cases in Hc as [[-> _]|(d & a & ty & am & _ & _ & Hty & _ & Hr)];
      [done|].
    destruct (recordTransaction_spec this d a (JS.toUpperCase ty) (JS.parseFloat am))
      as (this1 & lines & Hr' & Ht & _).
    rewrite Hr' in Hr. injection Hr as <- <-. rewrite Ht.
    apply Forall_app. split; [done|]. by constructor.
  - apply defineInterestRule_cases in Hc as (_ & -> & _). done.
  - apply printStatement_id in Hc as ->; [done|]. by apply ledger_inv_reachable.
Qed.

Lemma statement_lines_types balance txns :
  Forall (fun txn => is_D_or_W (Txn.type txn)) txns ->
  Forall (fun line => is_D_or_W (Line.type line)) (statement_lines balance txns).1.
Proof.
  intros Hall. revert balance. induction Hall as [|txn txns Ht _ IH]; intros balance; cbn.
  - constructor.
  - specialize (IH (calculateNewBalance balance (Txn.type txn) (Txn.amount txn))).
    destruct (statement_lines _ txns) as [lines final]. by constructor.
Qed.

(** In a reachable state a printed statement is the lines of the
    transactions of the month, each a deposit or a withdrawal, followed, when
    the interest of the month is greater than 0 and only then, by one line
    for it: no id, type I, the interest as amount, dated the 30th. *)
Lemma printStatement_lines this account monthStr this' account' lines :
  reachable this ->
  printStatement this [account; monthStr] = Some (this', Statement account' lines) ->
  exists txnLines balance interest,
    snd <$> calculateMonthlyInterest this account monthStr balance = Some interest /\
    Forall (fun line => is_D_or_W (Line.type line)) txnLines /\
    lines = txnLines ++
            if (0 <? interest)%float then
              [{| Line.date := monthStr +:+ "30"; Line.txnId := ""; Line.type := "I";
                  Line.amount := interest; Line.balance := (balance + interest)%float |}]
            else [].
Proof.
  intros Hr. unfold printStatement.
  pose proof (ledger_inv_reachable this Hr account) as Hinv.
  destruct (accounts this !! account) as [a|]; [|done].
  destruct (String.length monthStr =? 6)%nat eqn:Hlen; [|done].
  apply Nat.eqb_eq in Hlen. rewrite year_month_parts by done. cbn [negb orb].
  destruct (JS.isNaN_string monthStr); [done|].
  set (inMonth := sort by_date _). set (opening := fold_balance _ _).
  assert (Htypes : Forall (fun txn => is_D_or_W (Txn.type txn)) inMonth).
  { apply Forall_forall. intros txn Hin%elem_of_sort%list_elem_of_filter.
    destruct Hin as [_ Hin]. destruct Hinv as [Htxns _].
    rewrite Htxns in Hin. apply elem_of_sort, list_elem_of_filter in Hin as [_ Hin].
    pose proof (types_reachable this Hr) as Hall. rewrite Forall_forall in Hall. auto. }
  apply (statement_lines_types opening) in Htypes.
  destruct inMonth as [|txn inMonth]; [done|].
  destruct (statement_lines opening (txn :: inMonth)) as [txnLines balance].
  destruct (calculateMonthlyInterest this account monthStr balance)
    as [[this1 interest]|] eqn:Hc; [|done].
  cbn. intros [= <- <- <-]. exists txnLines, balance, interest.
  split; [by rewrite Hc|]. split; [done|].
  unfold interestLine. rewrite year_month_parts by done.
  destruct (0 <? interest)%float; [done|]. by rewrite app_nil_r.
Qed.

(** ** Valid dates *)

(** A day of the month is kept by [Date]; a day before the month comes back
    greater, and a day after it smaller. *)
Lemma carry_days_in_range fuel y m d :
  1 <= d <= JS.days_in y m -> JS.carry_days fuel y m d = (y, m, d).
Proof.
  intros Hd. destruct fuel as [|fuel]; [done|]. cbn.
  destruct (Z.ltb_spec d 1); [lia|]. destruct (Z.ltb_spec (JS.days_in y m) d); [lia|done].
Qed.

Lemma carry_days_S fuel y m d :
  JS.carry_days (S fuel) y m d
  = if d <? 1 then
      let '(y', m') := JS.prev_month y m in JS.carry_days fuel y' m' (d + JS.days_in y' m')
    else if JS.days_in y m <? d then
      let '(y', m') := JS.next_month y m in JS.carry_days fuel y' m' (d - JS.days_in y m)
    else (y, m, d).
Proof. reflexivity. Qed.

Lemma carry_days_back fuel : forall y m d, d < 1 -> d < (JS.carry_days (S fuel) y m d).2.
Proof.
  induction fuel as [|fuel IH]; intros y m d Hd.
  - cbn. destruct (Z.ltb_spec d 1); [|lia].
    destruct (JS.prev_month y m) as [y' m']. cbn.
    pose proof (days_in_bounds y' m'). lia.
  - rewrite carry_days_S. destruct (Z.ltb_spec d 1); [|lia].
    destruct (JS.prev_month y m) as [y' m'].
    pose proof (days_in_bounds y' m') as Hb.
    destruct (Z.lt_ge_cases (d + JS.days_in y' m') 1) as [Hlt|Hge].
    + specialize (IH y' m' _ Hlt). lia.
    + rewrite carry_days_in_range by lia. cbn. lia.
Qed.

Lemma carry_days_forth fuel : forall y m d,
  JS.days_in y m < d -> (JS.carry_days (S fuel) y m d).2 < d.
Proof.
  induction fuel as [|fuel IH]; intros y m d Hd; pose proof (days_in_bounds y m) as Hb.
  - cbn. destruct (Z.ltb_spec d 1); [lia|]. destruct (Z.ltb_spec (JS.days_in y m) d); [|lia].
    destruct (JS.next_month y m) as [y' m']. cbn. lia.
  - rewrite carry_days_S. destruct (Z.ltb_spec d 1); [lia|].
    destruct (Z.ltb_spec (JS.days_in y m) d); [|lia].
    destruct (JS.next_month y m) as [y' m'].
    destruct (Z.lt_ge_cases (JS.days_in y' m') (d - JS.days_in y m)) as [Hlt|Hge].
    + specialize (IH y' m' _ Hlt). lia.
    + rewrite carry_days_in_range by lia. cbn. lia.
Qed.

(** A date whose day comes back from [Date] is the date given. *)
Lemma carry_days_same fuel y m d y' m' :
  JS.carry_days (S fuel) y m d = (y', m', d) ->
  y' = y /\ m' = m /\ 1 <= d <= JS.days_in y m.
Proof.
  intros H.
  destruct (Z.lt_ge_cases d 1) as [Hlt|Hge].
  { pose proof (carry_days_back fuel y m d Hlt) as Hb. rewrite H in Hb. cbn in Hb. lia. }
  destruct (Z.lt_ge_cases (JS.days_in y m) d) as [Hlt|Hle].
  { pose proof (carry_days_forth fuel y m d Hlt) as Hb. rewrite H in Hb. cbn in Hb. lia. }
  rewrite carry_days_in_range in H by lia. by injection H as <- <-.
Qed.

Lemma isValidDate_length dateStr : isValidDate dateStr = true -> String.length dateStr = 8%nat.
Proof.
  unfold isValidDate. destruct (String.length dateStr =? 8)%nat eqn:Hlen; [|done].
  intros _. by apply Nat.eqb_eq.
Qed.

(** The year, month and day that a valid date is read as. *)
Lemma isValidDate_parts dateStr :
  isValidDate dateStr = true ->
  exists y m d,
    JS.parseInt (JS.substring 0 4 dateStr) = Some y /\
    JS.parseInt (JS.substring 4 6 dateStr) = Some m /\
    JS.parseInt (JS.substring 6 8 dateStr) = Some d /\
    ~ (0 <= y <= 99) /\ calendar_date y m d.
Proof.
  unfold isValidDate.
  destruct (negb _ || _); [done|].
  destruct (JS.parseInt (JS.substring 0 4 dateStr)) as [y|]; [|done].
  destruct (JS.parseInt (JS.substring 4 6 dateStr)) as [m|]; [|by rewrite andb_false_r].
  destruct (JS.parseInt (JS.substring 6 8 dateStr)) as [d|]; [|by rewrite andb_false_r].
  cbn [fmap option_fmap option_map JS.Date JS.getFullYear JS.getMonth JS.getDate JS.int_eq].
  set (y1 := if (0 <=? y) && (y <=? 99) then 1900 + y else y).
  destruct (JS.carry_days _ _ _ d) as [[y' m'] d'] eqn:Hc. cbn.
  intros [[->%Z.eqb_eq ->%Z.eqb_eq]%andb_true_iff ->%Z.eqb_eq]%andb_true_iff.
  apply carry_days_same in Hc as (Hy & Hm & Hd).
  exists y, m, d. repeat split; try done.
  - intros Hy'. assert (Z.pred m / 12 = 0).
    { apply Z.div_small. rewrite Hm. apply Z.mod_pos_bound. lia. }
    unfold y1 in Hy. destruct (Z.leb_spec 0 y), (Z.leb_spec y 99); cbn in Hy; lia.
  - pose proof (Z.mod_pos_bound (Z.pred m) 12). lia.
  - pose proof (Z.mod_pos_bound (Z.pred m) 12). lia.
  - lia.
  - assert (Z.pred m / 12 = 0).
    { apply Z.div_small. rewrite Hm. apply Z.mod_pos_bound. lia. }
    replace (m - 1) with (Z.pred m) by lia. rewrite Hm at 1.
    replace y with (y1 + Z.pred m / 12) at 1 by lia. lia.
Qed.

(** X1: a string that [isValidDate] accepts has eight characters, and its
    characters 1-4, 5-6 and 7-8 are read by [parseInt] as a year, a month
    and a day that make a day of the calendar: the month is from 1 to 12 and
    the day from 1 to the number of days of that month in that year.  The
    year is not from 0 to 99, which [Date] takes for 1900 to 1999. *)
Theorem isValidDate_calendar dateStr :
  isValidDate dateStr = true ->
  String.length dateStr = 8%nat /\
  exists y m d,
    JS.parseInt (JS.substring 0 4 dateStr) = Some y /\
    JS.parseInt (JS.substring 4 6 dateStr) = Some m /\
    JS.parseInt (JS.substring 6 8 dateStr) = Some d /\
    ~ (0 <= y <= 99) /\ calendar_date y m d.
Proof.
  intros Hv. split.
  - by apply isValidDate_length.
  - by apply isValidDate_parts.
Qed.

(** The 29th of February of a leap year. *)
Lemma isValidDate_calendar_witness :
  String.length "20240229" = 8%nat /\
  exists y m d,
    JS.parseInt (JS.substring 0 4 "20240229") = Some y /\
    JS.parseInt (JS.substring 4 6 "20240229") = Some m /\
    JS.parseInt (JS.substring 6 8 "20240229") = Some d /\
    ~ (0 <= y <= 99) /\ calendar_date y m d.
Proof. apply isValidDate_calendar. vm_compute. reflexivity. Defined.

(** Strings of digits are read as the numbers they write. *)
Lemma span_digits s :
  JS.all_chars JS.is_digit s = true -> JS.span JS.is_digit s = (s, "").
Proof.
  induction s as [|c s IH]; [done|]. cbn. intros [-> Hs]%andb_true_iff.
  by rewrite IH.
Qed.

Lemma digit_is_no_letter c :
  JS.is_digit c = true ->
  Ascii.eqb c "x" = false /\ Ascii.eqb c "X" = false /\ Ascii.eqb c "o" = false /\
  Ascii.eqb c "O" = false /\ Ascii.eqb c "b" = false /\ Ascii.eqb c "B" = false.
Proof. destruct c as [[] [] [] [] [] [] [] []]; cbn; done. Qed.

Lemma parseInt_digits s :
  JS.all_chars JS.is_digit s = true -> s <> "" ->
  JS.parseInt s = Some (number_of s).
Proof.
  destruct s as [|c r]; [done|]. intros Hs _.
  pose proof (span_digits _ Hs) as Hspan.
  cbn in Hs. apply andb_true_iff in Hs as [Hc Hr].
  assert (Hx : forall x s', r = String x s' ->
            Ascii.eqb x "x" || Ascii.eqb x "X" = false).
  { intros x s' ->. cbn in Hr. apply andb_true_iff in Hr as [Hx _].
    destruct (digit_is_no_letter x Hx) as (-> & -> & _). done. }
  destruct c as [[] [] [] [] [] [] [] []]; try discriminate Hc; clear Hc.
  all: unfold JS.parseInt, JS.parseInt_unsigned.
  all: try (rewrite Hspan; reflexivity).
  destruct r as [|x s']; [by rewrite Hspan|].
  rewrite (Hx x s' eq_refl), Hspan. reflexivity.
Qed.

Lemma hex_value_nonneg c : 0 <= default 0 (JS.hex_value c).
Proof.
  unfold JS.hex_value.
  repeat (match goal with |- context [if ?b then _ else _] => destruct b eqn:? end);
    cbn; lia.
Qed.

Lemma digits_value_nonneg s : forall acc, 0 <= acc -> 0 <= JS.digits_value 10 acc s.
Proof.
  induction s as [|c s IH]; intros acc Hacc; cbn; [done|].
  apply IH. pose proof (hex_value_nonneg c). lia.
Qed.

(** ** Amounts *)

Lemma split_dot_aux_length s : forall cur,
  length (JS.split_dot_aux cur s) = S (count_dots s).
Proof.
  induction s as [|c s IH]; intros cur; cbn; [done|].
  destruct (Ascii.eqb c "."); cbn; by rewrite IH.
Qed.

Lemma string_app_assoc (s1 s2 s3 : string) : (s1 +:+ s2) +:+ s3 = s1 +:+ (s2 +:+ s3).
Proof.
  induction s1 as [|c s1 IH]; [done|].
  change (String c s1 +:+ s2) with (String c (s1 +:+ s2)).
  change (String c (s1 +:+ s2) +:+ s3) with (String c ((s1 +:+ s2) +:+ s3)).
  change (String c s1 +:+ (s2 +:+ s3)) with (String c (s1 +:+ (s2 +:+ s3))).
  by rewrite IH.
Qed.

Lemma string_app_nil_r (s : string) : s +:+ "" = s.
Proof.
  induction s as [|c s IH]; [done|].
  change (String c s +:+ "") with (String c (s +:+ "")). by rewrite IH.
Qed.

(** A piece without dots is read into the piece under way. *)
Lemma split_dot_aux_piece a : forall cur rest,
  count_dots a = O ->
  JS.split_dot_aux cur (a +:+ rest) = JS.split_dot_aux (cur +:+ a) rest.
Proof.
  induction a as [|c a IH]; intros cur rest Ha.
  - by rewrite string_app_nil_r.
  - change (String c a +:+ rest) with (String c (a +:+ rest)).
    cbn in Ha |- *. destruct (Ascii.eqb c "."); [done|].
    rewrite IH by done. f_equal.
    rewrite string_app_assoc. reflexivity.
Qed.

(** X3: [isValidAmount] accepts a string without a dot; of a string with
    one dot it accepts those with at most two characters after the dot; and
    it rejects a string with two dots or more. *)
Theorem isValidAmount_dots amountStr :
  (count_dots amountStr = 0%nat -> isValidAmount amountStr = true) /\
  (forall whole frac,
     amountStr = whole +:+ "." +:+ frac ->
     count_dots whole = 0%nat -> count_dots frac = 0%nat ->
     isValidAmount amountStr = (String.length frac <=? 2)%nat) /\
  ((2 <= count_dots amountStr)%nat -> isValidAmount amountStr = false).
Proof.
  unfold isValidAmount, JS.split_dot. split; [|split].
  - intros H0. pose proof (split_dot_aux_length amountStr "") as Hlen. rewrite H0 in Hlen.
    by destruct (JS.split_dot_aux "" amountStr) as [|p [|q l]].
  - intros whole frac -> Hw Hf.
    rewrite split_dot_aux_piece by done.
    change ("." +:+ frac) with (String "." frac). cbn.
    rewrite <- (string_app_nil_r frac) at 1.
    rewrite split_dot_aux_piece by done. reflexivity.
  - intros H2. pose proof (split_dot_aux_length amountStr "") as Hlen.
    destruct (JS.split_dot_aux "" amountStr) as [|p [|q [|r l]]]; cbn in Hlen; try done; lia.
Qed.

(** Three decimals, two decimals, none, and two dots. *)
Lemma isValidAmount_dots_witness :
  isValidAmount "100.255" = false /\ isValidAmount "100.25" = true /\
  isValidAmount "100" = true /\ isValidAmount "1.2.3" = false.
Proof.
  split; [|split; [|split]].
  - by rewrite (proj1 (proj2 (isValidAmount_dots "100.255")) "100" "255").
  - by rewrite (proj1 (proj2 (isValidAmount_dots "100.25")) "100" "25").
  - by apply (proj1 (isValidAmount_dots "100")).
  - apply (proj2 (proj2 (isValidAmount_dots "1.2.3"))). cbn. lia.
Defined.

(** ** Lines and their tokens *)

Lemma trimEnd_cons c s :
  JS.trimEnd (String c s)
  = match JS.trimEnd s with
    | EmptyString => if JS.is_space c then EmptyString else String c EmptyString
    | t => String c t
    end.
Proof. reflexivity. Qed.

Lemma trimEnd_idem s : JS.trimEnd (JS.trimEnd s) = JS.trimEnd s.
Proof.
  induction s as [|c s IH]; [done|]. rewrite trimEnd_cons.
  destruct (JS.trimEnd s) as [|d t] eqn:Ht.
  - destruct (JS.is_space c) eqn:Hc; [done|]. by rewrite trimEnd_cons, Hc.
  - by rewrite trimEnd_cons, IH.
Qed.

(** A string that [trimEnd] keeps does not end with white space. *)
Lemma trimEnd_fixed c s :
  JS.trimEnd (String c s) = String c s ->
  JS.trimEnd s = s /\ (s = "" -> JS.is_space c = false).
Proof.
  rewrite trimEnd_cons. destruct (JS.trimEnd s) as [|d t] eqn:Ht.
  - destruct (JS.is_space c); [done|]. by intros [= <-].
  - by intros [= <-].
Qed.

Lemma trimEnd_head c s :
  JS.trimEnd (String c s) = "" \/ exists t, JS.trimEnd (String c s) = String c t.
Proof.
  rewrite trimEnd_cons. destruct (JS.trimEnd s); [|by eauto].
  destruct (JS.is_space c); eauto.
Qed.

Lemma trimStart_head s :
  JS.trimStart s = "" \/ exists c t, JS.trimStart s = String c t /\ JS.is_space c = false.
Proof.
  induction s as [|c s IH]; [by left|]. cbn.
  destruct (JS.is_space c) eqn:Hc; [done|]. right. eauto.
Qed.

(** What [trim] leaves is empty, or starts and ends with a character that
    is no white space. *)
Lemma trim_spec s :
  JS.trim s = "" \/
  JS.trimEnd (JS.trim s) = JS.trim s /\
  exists c t, JS.trim s = String c t /\ JS.is_space c = false.
Proof.
  unfold JS.trim. destruct (trimStart_head s) as [->|(c & t & -> & Hc)]; [by left|].
  destruct (trimEnd_head c t) as [->|[t' Ht]]; [by left|].
  right. split; [apply trimEnd_idem|]. rewrite Ht. eauto.
Qed.

Lemma no_space_snoc cur c :
  no_space (cur +:+ String c "") = no_space cur && negb (JS.is_space c).
Proof. unfold no_space. rewrite all_chars_app. cbn. by rewrite andb_true_r. Qed.

Lemma snoc_not_empty (cur : string) c : cur +:+ String c "" <> "".
Proof. by destruct cur. Qed.

Lemma split_space_aux_no_space s : forall in_space cur,
  no_space cur = true ->
  Forall (fun t => no_space t = true) (JS.split_space_aux in_space cur s).
Proof.
  induction s as [|c s IH]; intros in_space cur Hcur; cbn; [by constructor|].
  destruct (JS.is_space c) eqn:Hc.
  - destruct in_space; [by apply IH|]. constructor; [done|]. by apply IH.
  - apply IH. by rewrite no_space_snoc, Hcur, Hc.
Qed.

Lemma split_space_aux_not_empty s : forall (in_space : bool) (cur : string),
  JS.trimEnd s = s ->
  (if in_space then cur = "" /\ s <> ""
   else cur <> "" \/ exists c s', s = String c s' /\ JS.is_space c = false) ->
  Forall (fun t => t <> "") (JS.split_space_aux in_space cur s).
Proof.
  induction s as [|c s IH]; intros in_space cur Hend Hstart.
  - cbn. constructor; [|constructor].
    destruct in_space; [by destruct Hstart|].
    destruct Hstart as [?|(? & ? & ? & _)]; done.
  - apply trimEnd_fixed in Hend as [Hend Hlast]. cbn.
    destruct (JS.is_space c) eqn:Hc.
    + assert (Hs : s <> "") by (intros ->; by specialize (Hlast eq_refl)).
      destruct in_space.
      * destruct Hstart as [-> _]. by apply IH.
      * constructor; [|by apply IH].
        destruct Hstart as [?|(c' & s' & [= <- <-] & Hc')]; [done|congruence].
    + apply IH; [done|]. left. apply snoc_not_empty.
Qed.

(** X4: whatever the line entered, the parts that a handler takes from it
    are tokens: none of them is empty and none holds white space. *)
Theorem parts_of_tokens input : Forall token (parts_of input).
Proof.
  unfold parts_of. destruct (String.eqb_spec (JS.trim input) ""); [constructor|].
  destruct (trim_spec input) as [?|(Hend & c & t & Ht & Hc)]; [done|].
  apply Forall_and. split.
  - apply split_space_aux_not_empty; [done|]. right. eauto.
  - by apply split_space_aux_no_space.
Qed.

Lemma no_space_trimEnd t : no_space t = true -> JS.trimEnd t = t.
Proof.
  induction t as [|c t IH]; [done|]. unfold no_space. cbn.
  intros [Hc Ht]%andb_true_iff. rewrite IH by done.
  apply negb_true_iff in Hc. rewrite Hc. by destruct t.
Qed.

Lemma trimEnd_app a b : JS.trimEnd b = b -> b <> "" -> JS.trimEnd (a +:+ b) = a +:+ b.
Proof.
  intros Hb Hne. induction a as [|c a IH]; [done|].
  change (String c a +:+ b) with (String c (a +:+ b)).
  rewrite trimEnd_cons, IH. destruct (a +:+ b) eqn:Hab; [|done].
  by destruct a, b.
Qed.

Lemma split_space_aux_piece t : forall cur rest,
  no_space t = true ->
  JS.split_space_aux false cur (t +:+ rest) = JS.split_space_aux false (cur +:+ t) rest.
Proof.
  induction t as [|c t IH]; intros cur rest Ht.
  - by rewrite string_app_nil_r.
  - change (String c t +:+ rest) with (String c (t +:+ rest)).
    unfold no_space in Ht. cbn in Ht. apply andb_true_iff in Ht as [Hc Ht].
    apply negb_true_iff in Hc. cbn. rewrite Hc, IH by done.
    by rewrite string_app_assoc.
Qed.

Lemma split_space_aux_start in_space t rest :
  token t ->
  JS.split_space_aux in_space "" (t +:+ rest) = JS.split_space_aux false t rest.
Proof.
  intros [Hne Ht].
  transitivity (JS.split_space_aux false "" (t +:+ rest));
    [|by rewrite split_space_aux_piece].
  destruct t as [|c t]; [done|].
  change (String c t +:+ rest) with (String c (t +:+ rest)).
  unfold no_space in Ht. cbn in Ht. apply andb_true_iff in Ht as [Hc _].
  apply negb_true_iff in Hc. cbn. by rewrite Hc.
Qed.

Lemma concat_cons sep t t' ts :
  String.concat sep (t :: t' :: ts) = t +:+ sep +:+ String.concat sep (t' :: ts).
Proof. reflexivity. Qed.

Lemma split_space_aux_concat ts : forall in_space,
  Forall token ts -> ts <> [] ->
  JS.split_space_aux in_space "" (String.concat " " ts) = ts.
Proof.
  induction ts as [|t ts IH]; intros in_space Hts Hne; [done|].
  apply Forall_cons in Hts as [Ht Hts]. destruct ts as [|t' ts].
  - cbn [String.concat]. rewrite <- (string_app_nil_r t) at 1.
    by rewrite split_space_aux_start.
  - rewrite concat_cons, split_space_aux_start by done.
    change (" " +:+ String.concat " " (t' :: ts))
      with (String " " (String.concat " " (t' :: ts))).
    cbn [JS.split_space_aux]. change (JS.is_space " ") with true. cbn iota.
    by rewrite IH.
Qed.

Lemma concat_tokens ts :
  Forall token ts -> ts <> [] ->
  JS.trimEnd (String.concat " " ts) = String.concat " " ts /\
  exists c s, String.concat " " ts = String c s /\ JS.is_space c = false.
Proof.
  induction ts as [|t ts IH]; intros Hts Hne; [done|].
  apply Forall_cons in Hts as [[Ht Hsp] Hts]. destruct ts as [|t' ts].
  - cbn [String.concat]. split; [by apply no_space_trimEnd|].
    destruct t as [|c t]; [done|]. unfold no_space in Hsp. cbn in Hsp.
    apply andb_true_iff in Hsp as [Hc%negb_true_iff _]. eauto.
  - rewrite concat_cons. destruct IH as [Hend (c & s & Hs & Hc)]; [done..|]. split.
    + rewrite <- string_app_assoc. apply trimEnd_app; [done|]. by rewrite Hs.
    + destruct t as [|d t]; [done|]. unfold no_space in Hsp. cbn in Hsp.
      apply andb_true_iff in Hsp as [Hd%negb_true_iff _].
      change (String d t +:+ " " +:+ String.concat " " (t' :: ts))
        with (String d (t +:+ " " +:+ String.concat " " (t' :: ts))). eauto.
Qed.

(** X5: tokens written on a line with one space between them are read back
    as they were, in their order; the empty line is read as no part. *)
Theorem parts_of_concat ts :
  Forall token ts -> parts_of (String.concat " " ts) = ts.
Proof.
  intros Hts. destruct (decide (ts = [])) as [->|Hne]; [done|].
  destruct (concat_tokens ts Hts Hne) as (Hend & c & s & Hs & Hc).
  assert (Htrim : JS.trim (String.concat " " ts) = String.concat " " ts).
  { unfold JS.trim. rewrite Hs. cbn [JS.trimStart]. rewrite Hc. by rewrite <- Hs. }
  unfold parts_of. rewrite Htrim. rewrite Hs at 1. cbn [String.eqb].
  by apply split_space_aux_concat.
Qed.

(** The line of the transaction of the source's example. *)
Lemma parts_of_concat_witness :
  parts_of "20230626 AC001 W 100.00" = ["20230626"; "AC001"; "W"; "100.00"].
Proof.
  apply (parts_of_concat ["20230626"; "AC001"; "W"; "100.00"]).
  repeat constructor; done.
Defined.

(** ** The handlers return *)

Lemma defineInterestRule_total this parts : is_Some (defineInterestRule this parts).
Proof.
  unfold defineInterestRule.
  repeat (match goal with
          | |- is_Some (Some _) => eexists; reflexivity
          | |- context [match ?x with _ => _ end] => destruct x
          end; try done).
Qed.

Lemma calculateMonthlyInterest_total this account a monthStr endBalance :
  accounts this !! account = Some a ->
  is_Some (calculateMonthlyInterest this account monthStr endBalance).
Proof.
  intros Ha. unfold calculateMonthlyInterest, sort_transactions. rewrite Ha.
  destruct (interestRules this); by eexists.
Qed.

Lemma printStatement_total this parts : is_Some (printStatement this parts).
Proof.
  unfold printStatement.
  destruct parts as [|account [|monthStr [|]]]; try by eexists.
  destruct (accounts this !! account) as [a|] eqn:Ha; [|by eexists].
  destruct (negb _ || _); [by eexists|].
  destruct (sort by_date _); [by eexists|].
  destruct (statement_lines _ _) as [statementLines balance].
  destruct (calculateMonthlyInterest_total this account a
              (JS.substring 0 4 monthStr +:+ JS.substring 4 6 monthStr) balance Ha)
    as [[this' interest] ->].
  by eexists.
Qed.

Lemma handle_total this c : is_Some (handle this c).
Proof.
  destruct c; [apply inputTransaction_total|apply defineInterestRule_total
              |apply printStatement_total].
Qed.

(** ** The menu loop *)

(** The strings that [toUpperCase] turns into a capital letter. *)
Lemma toUpperCase_letter s (upper lower : ascii) :
  JS.upper_char lower = upper -> JS.upper_char upper = upper ->
  (forall c, JS.upper_char c = upper -> c = upper \/ c = lower) ->
  (JS.toUpperCase s =? String upper "")%string = true
  <-> s = String upper "" \/ s = String lower "".
Proof.
  intros Hl Hu Honly. rewrite String.eqb_eq. split.
  - destruct s as [|c [|d r]]; [done| |done]. cbn. intros [= Hc].
    destruct (Honly c Hc) as [->| ->]; auto.
  - intros [->| ->]; cbn; congruence.
Qed.

Lemma upper_char_only (upper lower : ascii) c :
  (65 <=? JS.code upper) && (JS.code upper <=? 90) = true ->
  JS.code lower = JS.code upper + 32 ->
  JS.upper_char c = upper -> c = upper \/ c = lower.
Proof.
  intros Hu Hl. unfold JS.upper_char.
  destruct ((97 <=? JS.code c) && (JS.code c <=? 122)) eqn:Hc; [|by left].
  intros <-. right.
  apply andb_true_iff in Hc as [H1%Z.leb_le H2%Z.leb_le].
  rewrite <- (ascii_nat_embedding c), <- (ascii_nat_embedding lower). f_equal.
  unfold JS.code in *. rewrite nat_ascii_embedding in Hl by lia. lia.
Qed.

(** X6: at the main menu a line of ASCII characters opens the prompt of
    the transactions exactly when it is [T] or [t] with white space around
    it or none, and likewise [I] or [i] for the rules, [P] or [p] for the
    statement and [Q] or [q] to quit; every other such line is answered by
    the message of the invalid option, at the menu. *)
Theorem promptUser_choices input :
  ascii_line input ->
  (promptUser input = (AtTransaction, []) <-> JS.trim input = "T" \/ JS.trim input = "t") /\
  (promptUser input = (AtRule, []) <-> JS.trim input = "I" \/ JS.trim input = "i") /\
  (promptUser input = (AtStatement, []) <-> JS.trim input = "P" \/ JS.trim input = "p") /\
  (promptUser input = (Closed, Farewell) <-> JS.trim input = "Q" \/ JS.trim input = "q") /\
  (promptUser input = (AtMenu, [InvalidOption]) <->
   JS.trim input <> "T" /\ JS.trim input <> "t" /\ JS.trim input <> "I" /\
   JS.trim input <> "i" /\ JS.trim input <> "P" /\ JS.trim input <> "p" /\
   JS.trim input <> "Q" /\ JS.trim input <> "q").
Proof.
  intros _. unfold promptUser.
  pose proof (toUpperCase_letter (JS.trim input) "T" "t" eq_refl eq_refl
                (fun c => upper_char_only "T" "t" c eq_refl eq_refl)) as HT.
  pose proof (toUpperCase_letter (JS.trim input) "I" "i" eq_refl eq_refl
                (fun c => upper_char_only "I" "i" c eq_refl eq_refl)) as HI.
  pose proof (toUpperCase_letter (JS.trim input) "P" "p" eq_refl eq_refl
                (fun c => upper_char_only "P" "p" c eq_refl eq_refl)) as HP.
  pose proof (toUpperCase_letter (JS.trim input) "Q" "q" eq_refl eq_refl
                (fun c => upper_char_only "Q" "q" c eq_refl eq_refl)) as HQ.
  destruct (JS.toUpperCase (JS.trim input) =? "T")%string eqn:ET.
  { apply String.eqb_eq in ET. rewrite ET in *. cbn in *. intuition congruence. }
  destruct (JS.toUpperCase (JS.trim input) =? "I")%string eqn:EI.
  { apply String.eqb_eq in EI. rewrite EI in *. cbn in *. intuition congruence. }
  destruct (JS.toUpperCase (JS.trim input) =? "P")%string eqn:EP.
  { apply String.eqb_eq in EP. rewrite EP in *. cbn in *. intuition congruence. }
  destruct (JS.toUpperCase (JS.trim input) =? "Q")%string eqn:EQ.
  { apply String.eqb_eq in EQ. rewrite EQ in *. cbn in *. intuition congruence. }
  intuition congruence.
Qed.

(** The line of an [i] between spaces, and the line [ii]. *)
Lemma promptUser_choices_witness :
  promptUser "  i " = (AtRule, []) /\ promptUser "ii" = (AtMenu, [InvalidOption]).
Proof.
  split.
  - apply (promptUser_choices "  i "); [reflexivity|]. by right.
  - apply (promptUser_choices "ii"); [reflexivity|]. repeat split; discriminate.
Defined.

Lemma question_reachable prompt this input :
  reachable this ->
  exists prompt' this' out,
    question prompt this input = Some (prompt', this', out) /\ reachable this'.
Proof.
  intros Hr. destruct prompt; cbn.
  - destruct (promptUser input) as [next out]. by eexists _, _, _.
  - destruct (handle_total this (T (parts_of input))) as [[this' out] H].
    cbn in H. rewrite H. eexists _, _, _. split; [done|].
    by apply (reachable_handle this (T (parts_of input)) this' out).
  - destruct (handle_total this (I (parts_of input))) as [[this' out] H].
    cbn in H. rewrite H. eexists _, _, _. split; [done|].
    by apply (reachable_handle this (I (parts_of input)) this' out).
  - destruct (handle_total this (P (parts_of input))) as [[this' out] H].
    cbn in H. rewrite H. eexists _, _, _. split; [done|].
    by apply (reachable_handle this (P (parts_of input)) this' out).
  - by eexists _, _, _.
Qed.

Lemma run_reachable lines : forall prompt this,
  reachable this ->
  exists prompt' this' outs,
    run prompt this lines = Some (prompt', this', outs) /\ reachable this'.
Proof.
  induction lines as [|input lines IH]; intros prompt this Hr; cbn.
  - by eexists _, _, _.
  - destruct (question_reachable prompt this input Hr) as (p1 & this1 & out & -> & Hr1).
    cbn. destruct (IH p1 this1 Hr1) as (p2 & this2 & outs & -> & Hr2). cbn.
    by eexists _, _, _.
Qed.

(** X7: whatever lines are entered, none of whose tokens is a name that a
    dictionary inherits, the program takes them all without an uncaught
    error, and the state that it is left in is one that the handlers reach
    from the constructor's state: what holds of the reachable states holds
    while the program runs. *)
Theorem start_never_throws lines :
  Forall (fun input => forallb own_key (parts_of input) = true) lines ->
  exists prompt this outs, start lines = Some (prompt, this, outs) /\ reachable this.
Proof.
  intros _. unfold start.
  destruct (run_reachable lines AtMenu constructor reachable_constructor)
    as (prompt & this & outs & Hrun & Hr).
  exists prompt, this, outs. by split.
Qed.

(** A deposit, a backdated withdrawal that is accepted, a rule, a statement
    and the end. *)
Lemma start_never_throws_witness :
  exists prompt this outs,
    start ["t"; "20230610 AC001 D 100.00"; "T"; "20230601 AC001 w 50.00"; "";
           "i"; "20230101 RULE01 2.00"; "p"; "AC001 202306"; "q"]
    = Some (prompt, this, outs) /\ reachable this.
Proof.
  apply start_never_throws. vm_compute. repeat constructor.
Defined.

(** ** The order of Numbers *)

Lemma SFcompare_antisym x y : SFcompare y x = CompOpp <$> SFcompare x y.
Proof.
  destruct x as [sx|sx| |sx mx ex], y as [sy|sy| |sy my ey]; cbn;
    try destruct sx; try destruct sy; try reflexivity.
  all: rewrite (Z.compare_antisym ex ey); destruct (Z.compare ex ey); cbn; try reflexivity.
  all: fold (Pos.compare mx my); fold (Pos.compare my mx).
  all: rewrite (Pos.compare_antisym mx my); by destruct (Pos.compare mx my).
Qed.

Lemma SFcompare_None x y :
  SFcompare x y = None -> x = S754_nan \/ y = S754_nan.
Proof.
  destruct x as [sx|sx| |sx mx ex], y as [sy|sy| |sy my ey]; cbn; try done; auto.
  all: try destruct sx; try destruct sy; done.
Qed.

(** A Number that is not NaN and not [<=] another that is no NaN is
    greater than it. *)
Lemma float_not_le_lt (x y : float) :
  JS.isNaN x = false -> JS.isNaN y = false -> (x <=? y)%float = false ->
  (y <? x)%float = true.
Proof.
  unfold JS.isNaN, is_nan. rewrite !negb_false_iff, !FloatAxioms.eqb_spec,
    FloatAxioms.leb_spec, FloatAxioms.ltb_spec.
  unfold SFeqb, SFleb, SFltb. rewrite (SFcompare_antisym (Prim2SF x) (Prim2SF y)).
  destruct (SFcompare (Prim2SF x) (Prim2SF y)) as [[]|] eqn:Hc; try done.
  apply SFcompare_None in Hc as [->| ->]; done.
Qed.

Lemma checked_amount (amount : float) :
  JS.isNaN amount || (amount <=? 0)%float = false -> above_0 amount.
Proof.
  intros [Hn Hle]%orb_false_iff. by apply float_not_le_lt.
Qed.

Lemma checked_rate (rate : float) :
  JS.isNaN rate || (rate <=? 0)%float || (100 <=? rate)%float = false ->
  above_0 rate /\ below_100 rate.
Proof.
  intros [[Hn Hle]%orb_false_iff Hge]%orb_false_iff. split; [by apply float_not_le_lt|].
  unfold below_100. revert Hn Hge. unfold JS.isNaN, is_nan.
  rewrite !negb_false_iff, !FloatAxioms.eqb_spec, FloatAxioms.leb_spec, FloatAxioms.ltb_spec.
  unfold SFeqb, SFleb, SFltb. rewrite (SFcompare_antisym (Prim2SF rate) (Prim2SF 100)).
  destruct (SFcompare (Prim2SF rate) (Prim2SF 100)) as [[]|] eqn:Hc; try done.
  apply SFcompare_None in Hc as [->|Hc]; [done|]. by vm_compute in Hc.
Qed.

(** ** What the handlers accept *)

Lemma inputTransaction_accepted this parts this' out :
  inputTransaction this parts = Some (this', out) -> accepted out = true ->
  exists dateStr account typeStr amountStr,
    parts = [dateStr; account; typeStr; amountStr] /\
    isValidDate dateStr = true /\
    is_D_or_W (JS.toUpperCase typeStr) /\
    above_0 (JS.parseFloat amountStr) /\
    isValidAmount amountStr = true /\
    (JS.toUpperCase typeStr = "W" ->
     exists currentBalance,
       getAccountBalance this account = Some currentBalance /\
       (currentBalance <? JS.parseFloat amountStr)%float = false) /\
    recordTransaction this dateStr account (JS.toUpperCase typeStr)
      (JS.parseFloat amountStr) = Some (this', out).
Proof.
  unfold inputTransaction. intros H Hacc.
  destruct parts as [|dateStr [|account [|typeStr [|amountStr [|]]]]];
    try (injection H as <- <-; done).
  destruct (isValidDate dateStr) eqn:Hd; cbn [negb] in H; [|injection H as <- <-; done].
  destruct (negb (JS.toUpperCase typeStr =? "D")%string
            && negb (JS.toUpperCase typeStr =? "W")%string) eqn:Hty;
    [injection H as <- <-; done|].
  assert (Hty' : is_D_or_W (JS.toUpperCase typeStr)).
  { destruct (String.eqb_spec (JS.toUpperCase typeStr) "D"); [by left|].
    destruct (String.eqb_spec (JS.toUpperCase typeStr) "W"); [by right|done]. }
  clear Hty.
  destruct (JS.isNaN (JS.parseFloat amountStr) || (JS.parseFloat amountStr <=? 0)%float)
    eqn:Ham; [injection H as <- <-; done|].
  apply checked_amount in Ham.
  destruct (isValidAmount amountStr) eqn:Hv; cbn [negb] in H; [|injection H as <- <-; done].
  exists dateStr, account, typeStr, amountStr.
  destruct (String.eqb_spec (JS.toUpperCase typeStr) "W") as [Hw|Hw].
  - destruct (getAccountBalance this account) as [currentBalance|];
      [|injection H as <- <-; done].
    destruct (currentBalance <? JS.parseFloat amountStr)%float eqn:Hlt;
      [injection H as <- <-; done|].
    repeat split; try done. intros _. eauto.
  - repeat split; done.
Qed.

Lemma defineInterestRule_defined this parts this' out :
  defineInterestRule this parts = Some (this', out) -> defined out = true ->
  exists dateStr ruleId rateStr,
    parts = [dateStr; ruleId; rateStr] /\
    isValidDate dateStr = true /\
    above_0 (JS.parseFloat rateStr) /\ below_100 (JS.parseFloat rateStr) /\
    this' = {| accounts := accounts this;
               transactions := transactions this;
               interestRules :=
                 upsert_rule {| Rule.date := dateStr; Rule.ruleId := ruleId;
                                Rule.rate := JS.parseFloat rateStr |} (interestRules this);
               runningNumbers := runningNumbers this |}.
Proof.
  unfold defineInterestRule. intros H Hdef.
  destruct parts as [|dateStr [|ruleId [|rateStr [|]]]]; try (injection H as <- <-; done).
  destruct (isValidDate dateStr) eqn:Hd; cbn [negb] in H; [|injection H as <- <-; done].
  destruct (JS.isNaN (JS.parseFloat rateStr) || (JS.parseFloat rateStr <=? 0)%float
            || (100 <=? JS.parseFloat rateStr)%float) eqn:Hrate;
    [injection H as <- <-; done|].
  apply checked_rate in Hrate as [H0 H100].
  injection H as <- <-. by eexists _, _, _.
Qed.

(** A command that is rejected, a blank line and a statement leave a
    reachable state as it is. *)
Lemma handle_cases this c this' out :
  reachable this -> handle this c = Some (this', out) ->
  this' = this \/
  (exists parts, c = T parts /\ accepted out = true) \/
  (exists parts, c = I parts /\ defined out = true).
Proof.
  intros Hr Hc. destruct c as [parts|parts|parts]; cbn in Hc.
  - pose proof Hc as Hc'.
    apply inputTransaction_cases in Hc' as [[-> _]|(? & ? & ? & ? & _ & _ & _ & Hacc & _)];
      [by left|]. right. left. eauto.
  - destruct (defined out) eqn:Hdef; [right; right; eauto|]. left.
    pose proof Hc as Hc'.
    apply defineInterestRule_cases in Hc' as (Ha & Ht & Hn & [[Hi _]|Hc']).
    + destruct this, this'; cbn in *. congruence.
    + destruct Hc' as (? & ? & ? & _ & _ & _ & ->). done.
  - left. apply printStatement_id in Hc; [done|]. by apply ledger_inv_reachable.
Qed.

(** Induction on the reachable states, by what changes them. *)
Lemma reachable_changes (P : BankAccountSystem -> Prop) :
  P constructor ->
  (forall this dateStr account typeStr amountStr this' out,
     reachable this -> P this ->
     inputTransaction this [dateStr; account; typeStr; amountStr] = Some (this', out) ->
     accepted out = true -> P this') ->
  (forall this dateStr ruleId rateStr this' out,
     reachable this -> P this ->
     defineInterestRule this [dateStr; ruleId; rateStr] = Some (this', out) ->
     defined out = true -> P this') ->
  forall this, reachable this -> P this.
Proof.
  intros H0 HT HI this Hr. induction Hr as [|this c this' out Hr IH Hc]; [done|].
  destruct (handle_cases this c this' out Hr Hc) as [->|[(parts & -> & Hacc)|(parts & -> & Hdef)]];
    [done| |]; cbn in Hc.
  - destruct (inputTransaction_accepted _ _ _ _ Hc Hacc) as (d & a & ty & am & -> & _).
    by eapply HT.
  - destruct (defineInterestRule_defined _ _ _ _ Hc Hdef) as (d & id & rt & -> & _).
    by eapply HI.
Qed.

(** ** What the state holds *)

Lemma accepted_transaction this dateStr account typeStr amountStr this' out :
  inputTransaction this [dateStr; account; typeStr; amountStr] = Some (this', out) ->
  accepted out = true ->
  let txn := next_transaction this dateStr account (JS.toUpperCase typeStr)
               (JS.parseFloat amountStr) in
  checked_transaction txn /\
  (JS.toUpperCase typeStr = "W" -> is_Some (accounts this !! account)) /\
  transactions this' = transactions this ++ [txn] /\
  interestRules this' = interestRules this /\
  runningNumbers this'
    = <[dateStr := S (default O (runningNumbers this !! dateStr))]> (runningNumbers this) /\
  accounts this'
    = <[account :=
          {| Account.createdDate :=
               default dateStr (Account.createdDate <$> accounts this !! account);
             Account.transactions :=
               sort by_date
                 (default [] (Account.transactions <$> accounts this !! account) ++ [txn]) |}]>
        (accounts this) /\
  exists lines, out = AccountStatement account lines.
Proof.
  intros H Hacc txn.
  destruct (inputTransaction_accepted _ _ _ _ H Hacc)
    as (d & a & ty & am & [= <- <- <- <-] & Hd & Hty & Ham & _ & Hw & Hrec).
  destruct (recordTransaction_spec this dateStr account (JS.toUpperCase typeStr)
              (JS.parseFloat amountStr)) as (this1 & lines & Hrec' & Ht & Hi & Hn & Ha).
  rewrite Hrec' in Hrec. injection Hrec as <- <-.
  repeat split; try done.
  - intros Hw'. destruct (Hw Hw') as (b & Hb & _). unfold getAccountBalance in Hb.
    by destruct (accounts this !! account).
  - rewrite Ha. by destruct (accounts this !! account).
  - by exists lines.
Qed.

Lemma transactions_checked this :
  reachable this -> Forall checked_transaction (transactions this).
Proof.
  revert this. apply reachable_changes.
  - constructor.
  - intros this d a ty am this' out _ IH H Hacc.
    destruct (accepted_transaction _ _ _ _ _ _ _ H Hacc) as (Htxn & _ & -> & _).
    apply Forall_app. split; [done|]. by constructor.
  - intros this d id rt this' out _ IH H Hdef.
    by apply defineInterestRule_cases in H as (_ & -> & _).
Qed.

(** X8: in every reachable state each transaction recorded, in the ledger
    and in the array of its account, has passed the checks: its date is
    valid, its type is D or W, its amount is greater than 0 and its balance
    field is the 0 that it was created with. *)
Theorem recorded_transactions_checked this :
  reachable this ->
  Forall checked_transaction (transactions this) /\
  forall account a, accounts this !! account = Some a ->
    Forall checked_transaction (Account.transactions a).
Proof.
  intros Hr. pose proof (transactions_checked this Hr) as Hall. split; [done|].
  intros account a Ha. pose proof (ledger_inv_reachable this Hr account) as Hinv.
  rewrite Ha in Hinv. destruct Hinv as [-> _].
  apply Forall_forall. intros txn [_ Hin]%elem_of_sort%list_elem_of_filter.
  rewrite Forall_forall in Hall. by apply Hall.
Qed.

(** X9: in every reachable state each rule has passed the checks: its date
    is valid and its rate is greater than 0 and less than 100. *)
Theorem defined_rules_checked this :
  reachable this -> Forall checked_rule (interestRules this).
Proof.
  revert this. apply reachable_changes.
  - constructor.
  - intros this d a ty am this' out _ IH H Hacc.
    by destruct (accepted_transaction _ _ _ _ _ _ _ H Hacc) as (_ & _ & _ & -> & _).
  - intros this d id rt this' out _ IH H Hdef.
    destruct (defineInterestRule_defined _ _ _ _ H Hdef)
      as (d' & id' & rt' & [= <- <- <-] & Hd & H0 & H100 & ->). cbn.
    apply Forall_forall. intros r [->|Hin]%elem_of_upsert; [done|].
    rewrite Forall_forall in IH. by apply IH.
Qed.

(** A deposit and a withdrawal entered in small letters. *)
Lemma recorded_transactions_checked_witness :
  Forall checked_transaction
    (transactions (state_after [T ["20230505"; "AC001"; "d"; "100.00"];
                                T ["20230506"; "AC001"; "w"; "0.5"]])).
Proof.
  apply recorded_transactions_checked.
  eapply state_after_reachable. vm_compute. reflexivity.
Defined.

(** Two rules, one with a rate just below 100. *)
Lemma defined_rules_checked_witness :
  Forall checked_rule
    (interestRules (state_after [I ["20230520"; "RULE02"; "1.90"];
                                 I ["20230101"; "RULE01"; "99.99"]])).
Proof.
  apply defined_rules_checked.
  eapply state_after_reachable. vm_compute. reflexivity.
Defined.

(** ** Ids across the dates *)

Lemma string_app_length (s t : string) :
  String.length (s +:+ t) = (String.length s + String.length t)%nat.
Proof.
  induction s as [|c s IH]; [done|].
  change (String c s +:+ t) with (String c (s +:+ t)). cbn. by rewrite IH.
Qed.

Lemma string_app_inj_length (s1 s2 t1 t2 : string) :
  String.length s1 = String.length s2 -> s1 +:+ t1 = s2 +:+ t2 -> s1 = s2.
Proof.
  revert s2. induction s1 as [|c s1 IH]; intros [|d s2]; try done.
  change (String c s1 +:+ t1) with (String c (s1 +:+ t1)).
  change (String d s2 +:+ t2) with (String d (s2 +:+ t2)).
  intros [= Hlen] [= -> Happ]. f_equal. by apply IH.
Qed.

(** An id tells its date and its running number. *)
Lemma transactionId_inj_date d1 d2 k1 k2 :
  String.length d1 = String.length d2 ->
  transactionId d1 k1 = transactionId d2 k2 -> d1 = d2 /\ k1 = k2.
Proof.
  intros Hlen Heq. assert (d1 = d2) as -> by by eapply string_app_inj_length.
  split; [done|]. by eapply transactionId_inj.
Qed.

(** The id of a recorded transaction is made of its date and of a running
    number that the date has reached. *)
Lemma recorded_id this txn :
  reachable this -> txn ∈ transactions this ->
  exists k, Txn.txnId txn = transactionId (Txn.date txn) k /\
    (1 <= k <= default O (runningNumbers this !! Txn.date txn))%nat.
Proof.
  intros Hr Hin. pose proof (ids_inv_reachable this Hr (Txn.date txn)) as Hids.
  assert (Hon : Txn.txnId txn ∈ Txn.txnId <$> on_date (Txn.date txn) (transactions this)).
  { apply list_elem_of_fmap_2. by apply list_elem_of_filter. }
  rewrite Hids in Hon. apply list_elem_of_fmap in Hon as (k & Hk & Hseq%elem_of_seq).
  exists k. split; [done|lia].
Qed.

(** X10: in every reachable state no two transactions have the same id,
    whatever their dates and accounts. *)
Theorem transaction_ids_unique this :
  reachable this -> NoDup (Txn.txnId <$> transactions this).
Proof.
  revert this. apply reachable_changes.
  - constructor.
  - intros this d a ty am this' out Hr IH H Hacc.
    destruct (accepted_transaction _ _ _ _ _ _ _ H Hacc) as ((Hd & _) & _ & -> & _).
    rewrite fmap_app. apply NoDup_app. split; [done|]. split; [|apply NoDup_singleton].
    intros id (txn & -> & Hin)%list_elem_of_fmap Hnew%list_elem_of_singleton.
    destruct (recorded_id this txn Hr Hin) as (k & Hk & Hrange).
    pose proof (transactions_checked this Hr) as Hall.
    rewrite Forall_forall in Hall. destruct (Hall txn Hin) as (Hd' & _).
    cbn in Hd, Hnew. rewrite Hk in Hnew. fold (transactionId d
      (S (default O (runningNumbers this !! d)))) in Hnew.
    apply transactionId_inj_date in Hnew as [Heq Hk'].
    + rewrite Heq in Hrange. lia.
    + apply isValidDate_length in Hd, Hd'. congruence.
  - intros this d id rt this' out _ IH H Hdef.
    by apply defineInterestRule_cases in H as (_ & -> & _).
Qed.

(** Two accounts and two dates. *)
Lemma transaction_ids_unique_witness :
  NoDup (Txn.txnId <$> transactions
           (state_after [T ["20230505"; "AC001"; "D"; "100.00"];
                         T ["20230506"; "AC002"; "D"; "10.00"];
                         T ["20230505"; "AC002"; "D"; "10.00"]])).
Proof.
  apply transaction_ids_unique.
  eapply state_after_reachable. vm_compute. reflexivity.
Defined.

(** ** Accounts *)

Lemma of_account_snoc account txns txn :
  of_account account (txns ++ [txn])
  = of_account account txns ++ (if decide (Txn.account txn = account) then [txn] else []).
Proof.
  unfold of_account. rewrite filter_app. reflexivity.
Qed.

(** X11: in every reachable state an account exists exactly when a
    transaction has been recorded for it; the first transaction recorded for
    it is a deposit, and the date of creation of the account is the date of
    that deposit. *)
Theorem accounts_opened_by_deposit this account :
  reachable this ->
  match accounts this !! account with
  | Some a =>
      exists txn rest,
        of_account account (transactions this) = txn :: rest /\
        Txn.type txn = "D" /\ Account.createdDate a = Txn.date txn
  | None => of_account account (transactions this) = []
  end.
Proof.
  intros Hr. revert account. revert this Hr. apply (reachable_changes
    (fun this => forall account,
       match accounts this !! account with
       | Some a =>
           exists txn rest,
             of_account account (transactions this) = txn :: rest /\
             Txn.type txn = "D" /\ Account.createdDate a = Txn.date txn
       | None => of_account account (transactions this) = []
       end)).
  - intros account. cbn. by rewrite lookup_empty.
  - intros this d a ty am this' out Hr IH H Hacc account.
    destruct (accepted_transaction _ _ _ _ _ _ _ H Hacc)
      as ((_ & Hty & _) & Hw & -> & _ & _ & -> & _).
    rewrite of_account_snoc. cbn [next_transaction Txn.account].
    specialize (IH account). destruct (decide (a = account)) as [->|Hne].
    + rewrite lookup_insert_eq. destruct (accounts this !! account) as [acc|] eqn:Ha.
      * destruct IH as (txn & rest & -> & Htxn & Hdate). cbn. eauto.
      * rewrite IH. cbn. eexists _, []. split; [done|]. split; [|done].
        destruct Hty as [?|Hty]; [done|]. by destruct (Hw Hty).
    + rewrite lookup_insert_ne, app_nil_r by done. exact IH.
  - intros this d id rt this' out _ IH H Hdef account.
    apply defineInterestRule_cases in H as (-> & -> & _). apply IH.
Qed.

(** An account opened on the 10th, with a withdrawal dated the 1st after it. *)
Lemma accounts_opened_by_deposit_witness :
  let this := state_after [T ["20230610"; "AC001"; "D"; "100.00"];
                           T ["20230601"; "AC001"; "W"; "50.00"]] in
  match accounts this !! "AC001" with
  | Some a =>
      exists txn rest,
        of_account "AC001" (transactions this) = txn :: rest /\
        Txn.type txn = "D" /\ Account.createdDate a = Txn.date txn
  | None => of_account "AC001" (transactions this) = []
  end.
Proof.
  apply accounts_opened_by_deposit.
  eapply state_after_reachable. vm_compute. reflexivity.
Defined.

(** ** The rule in force *)

Lemma leb_le_by a b : String.leb a b = true <-> String.compare a b <> Gt.
Proof. unfold String.leb. destruct (String.compare a b); split; done. Qed.

Lemma by_date_desc_trans a b c :
  le_by by_date_desc a b -> le_by by_date_desc b c -> le_by by_date_desc a c.
Proof. unfold le_by, by_date_desc, JS.localeCompare. intros. by eapply string_compare_le_trans. Qed.

Lemma by_date_desc_total a b : by_date_desc a b = Gt -> le_by by_date_desc b a.
Proof.
  unfold le_by, by_date_desc, JS.localeCompare. intros H%string_compare_Gt_Lt. congruence.
Qed.

(** The rule whose rate [getInterestRate] returns, when there is one. *)
Lemma getInterestRate_cases this date :
  (getInterestRate this date = 0%float /\
   forall r, r ∈ interestRules this -> ~ date_le (Rule.date r) date) \/
  exists rule, in_force this rule date /\ getInterestRate this date = Rule.rate rule.
Proof.
  unfold getInterestRate.
  set (applicable := filter _ _).
  pose proof (sort_sorted by_date_desc by_date_desc_trans by_date_desc_total applicable) as Hs.
  pose proof (fun r => elem_of_sort by_date_desc r applicable) as Hin.
  destruct (sort by_date_desc applicable) as [|rule rest].
  - left. split; [done|]. intros r Hr Hle.
    assert (r ∈ applicable) as Ha by by apply list_elem_of_filter.
    apply Hin in Ha. by apply elem_of_nil in Ha.
  - right. exists rule. split; [|done].
    assert (rule ∈ applicable) as [Hle Hr]%list_elem_of_filter
      by (apply Hin; apply list_elem_of_here).
    split; [done|]. split; [done|]. intros r Hr' Hle'.
    assert (r ∈ applicable) as Ha by by apply list_elem_of_filter.
    apply Hin in Ha. apply StronglySorted_cons in Hs as [Hall _].
    apply leb_le_by. apply elem_of_cons in Ha as [->|Ha].
    + unfold JS.localeCompare. by rewrite string_compare_refl.
    + rewrite Forall_forall in Hall. apply (Hall r Ha).
Qed.

(** X12: in every reachable state whose rules have dates written in
    digits, [getInterestRate] returns the rate of the rule in force on the
    date, the rule with the latest date among those dated on or before it;
    there is such a rule as soon as a rule is dated on or before the date,
    and the rate is 0 when none is. *)
Theorem rate_of_the_rule_in_force this date :
  reachable this ->
  Forall (fun rule => digit_date (Rule.date rule)) (interestRules this) ->
  (forall rule, in_force this rule date -> getInterestRate this date = Rule.rate rule) /\
  ((forall r, r ∈ interestRules this -> ~ date_le (Rule.date r) date) ->
   getInterestRate this date = 0%float) /\
  ((exists r, r ∈ interestRules this /\ date_le (Rule.date r) date) ->
   exists rule, in_force this rule date).
Proof.
  intros Hr _. pose proof (rules_inv_reachable this Hr) as Hinv.
  apply ascending_NoDup in Hinv.
  destruct (getInterestRate_cases this date) as [[H0 Hnone]|(rule & Hrule & Hrate)].
  - split; [|split; [done|]].
    + intros rule (Hin & Hle & _). by destruct (Hnone rule Hin).
    + intros (r & Hin & Hle). by destruct (Hnone r Hin).
  - split; [|split; [|by eauto]].
    + intros rule' (Hin' & Hle' & Hmax'). destruct Hrule as (Hin & Hle & Hmax).
      rewrite Hrate. f_equal.
      eapply (NoDup_fmap_elem_eq Rule.date); [exact Hinv|done|done|].
      apply String.leb_antisym; [by apply Hmax'|by apply Hmax].
    + intros Hnone. destruct Hrule as (Hin & Hle & _). by destruct (Hnone rule Hin).
Qed.

(** The rules of the source's example: RULE02 is in force on the 14th of
    June, and no rule before 2023. *)
Lemma rate_of_the_rule_in_force_witness :
  let this := state_after [I ["20230101"; "RULE01"; "1.95"];
                           I ["20230520"; "RULE02"; "1.90"];
                           I ["20230615"; "RULE03"; "2.20"]] in
  getInterestRate this "20230614" = 1.9%float /\
  getInterestRate this "20221231" = 0%float.
Proof.
  cbv zeta.
  destruct (rate_of_the_rule_in_force
              (state_after [I ["20230101"; "RULE01"; "1.95"];
                            I ["20230520"; "RULE02"; "1.90"];
                            I ["20230615"; "RULE03"; "2.20"]]) "20230614")
    as (Hforce & _);
    [eapply state_after_reachable; vm_compute; reflexivity|vm_compute; repeat constructor|].
  destruct (rate_of_the_rule_in_force
              (state_after [I ["20230101"; "RULE01"; "1.95"];
                            I ["20230520"; "RULE02"; "1.90"];
                            I ["20230615"; "RULE03"; "2.20"]]) "20221231")
    as (_ & Hnone & _);
    [eapply state_after_reachable; vm_compute; reflexivity|vm_compute; repeat constructor|].
  split.
  - apply (Hforce {| Rule.date := "20230520"; Rule.ruleId := "RULE02"; Rule.rate := 1.9 |}).
    split; [|split; [reflexivity|]].
    + vm_compute. apply list_elem_of_further, list_elem_of_here.
    + intros r Hin Hle. vm_compute in Hin.
      repeat (apply elem_of_cons in Hin as [->|Hin]; [try reflexivity; try discriminate Hle|]).
      by apply elem_of_nil in Hin.
  - apply Hnone. intros r Hin Hle. vm_compute in Hin.
    repeat (apply elem_of_cons in Hin as [->|Hin]; [discriminate Hle|]).
    by apply elem_of_nil in Hin.
Defined.

(** ** Statements do not write *)

(** X13: in every reachable state [printStatement] returns, whatever parts
    it is given that are no names that a dictionary inherits, and leaves the
    state as it was: the sort in place of the account's array changes
    nothing, and the interest that a statement shows is not recorded. *)
Theorem printStatement_reads_only this parts :
  reachable this -> forallb own_key parts = true ->
  exists out, printStatement this parts = Some (this, out).
Proof.
  intros Hr _. destruct (printStatement_total this parts) as [[this' out] H].
  exists out. rewrite H. f_equal. f_equal.
  eapply printStatement_id; [|exact H]. by apply ledger_inv_reachable.
Qed.

(** A statement with an interest line, of an account whose transactions
    were not entered in the order of their dates. *)
Lemma printStatement_reads_only_witness :
  let this := state_after [I ["20230101"; "RULE01"; "2.00"];
                           T ["20230610"; "AC001"; "D"; "100.00"];
                           T ["20230601"; "AC001"; "D"; "50.00"]] in
  exists out, printStatement this ["AC001"; "202306"] = Some (this, out).
Proof.
  apply printStatement_reads_only; [|reflexivity].
  eapply state_after_reachable. vm_compute. reflexivity.
Defined.

(** ** What a transaction leaves alone *)

(** X14: a transaction entered for an account, recorded or not, leaves the
    rules, the entries and balances of the other accounts and the running
    numbers of the other dates as they were. *)
Theorem transaction_leaves_the_rest this dateStr account typeStr amountStr this' out :
  inputTransaction this [dateStr; account; typeStr; amountStr] = Some (this', out) ->
  interestRules this' = interestRules this /\
  (forall other, other <> account ->
     accounts this' !! other = accounts this !! other /\
     getAccountBalance this' other = getAccountBalance this other) /\
  (forall date, date <> dateStr ->
     runningNumbers this' !! date = runningNumbers this !! date).
Proof.
  intros H. destruct (accepted out) eqn:Hacc.
  - destruct (accepted_transaction _ _ _ _ _ _ _ H Hacc) as (_ & _ & _ & Hi & Hn & Ha & _).
    split; [done|]. split.
    + intros other Hne. assert (accounts this' !! other = accounts this !! other) as Heq
        by (rewrite Ha; by apply lookup_insert_ne).
      split; [done|]. unfold getAccountBalance. by rewrite Heq.
    + intros date Hne. rewrite Hn. by apply lookup_insert_ne.
  - apply inputTransaction_cases in H as [[-> _]|(? & ? & ? & ? & _ & _ & _ & Hacc' & _)];
      [done|congruence].
Qed.

(** A deposit to AC001 beside an account AC002. *)
Lemma transaction_leaves_the_rest_witness :
  let this := state_after [T ["20230505"; "AC002"; "D"; "70.00"]] in
  exists this' out,
    inputTransaction this ["20230506"; "AC001"; "D"; "100.00"] = Some (this', out) /\
    getAccountBalance this' "AC002" = Some 70%float.
Proof.
  intros this. eexists _, _. split; [vm_compute; reflexivity|].
  match goal with
  | |- getAccountBalance ?this' _ = _ =>
      destruct (transaction_leaves_the_rest this "20230506" "AC001" "D" "100.00" this'
                  (AccountStatement "AC001" (statement_lines 0 (held this' "AC001")).1))
        as (_ & Hother & _); [vm_compute; reflexivity|]
  end.
  eapply eq_trans; [apply (Hother "AC002"); discriminate|]. vm_compute. reflexivity.
Defined.

(** ** The balance after a transaction *)

Lemma date_le_le_by (txn1 txn2 : Txn.t) :
  date_le (Txn.date txn1) (Txn.date txn2) <-> le_by by_date txn1 txn2.
Proof. apply leb_le_by. Qed.

Lemma fold_balance_nil balance : fold_balance balance [] = balance.
Proof. reflexivity. Qed.

(** X15: in a reachable state, with dates written in digits, when a
    transaction is recorded that is dated on or after every transaction of
    its account, the balance of the account becomes the balance before, 0
    for a new account, plus the amount of a deposit or minus the amount of a
    withdrawal. *)
Theorem balance_after_transaction this dateStr account typeStr amountStr this' out :
  reachable this ->
  inputTransaction this [dateStr; account; typeStr; amountStr] = Some (this', out) ->
  accepted out = true ->
  digit_date dateStr ->
  Forall (fun txn => Txn.account txn = account ->
                     digit_date (Txn.date txn) /\ date_le (Txn.date txn) dateStr)
    (transactions this) ->
  getAccountBalance this' account
  = Some (calculateNewBalance (default 0%float (getAccountBalance this account))
            (JS.toUpperCase typeStr) (JS.parseFloat amountStr)).
Proof.
  intros Hr H Hacc _ Hlast.
  destruct (accepted_transaction _ _ _ _ _ _ _ H Hacc) as (_ & _ & _ & _ & _ & Ha & _).
  pose proof (ledger_inv_reachable this Hr account) as Hinv.
  unfold getAccountBalance. rewrite Ha, lookup_insert_eq. cbn [Account.transactions].
  set (txn := next_transaction _ _ _ _ _).
  assert (Hsorted : sort by_date
            (default [] (Account.transactions <$> accounts this !! account) ++ [txn])
          = default [] (Account.transactions <$> accounts this !! account) ++ [txn]).
  { rewrite sort_snoc. destruct (accounts this !! account) as [a|]; [|done].
    change (default [] (Account.transactions <$> Some a)) with (Account.transactions a).
    destruct Hinv as [Htxns _]. rewrite Htxns, sort_by_date_idem.
    apply insert_last_behind. apply Forall_forall.
    intros t [Ht Hin]%elem_of_sort%list_elem_of_filter.
    apply date_le_le_by. rewrite Forall_forall in Hlast. by apply Hlast. }
  rewrite Hsorted, fold_balance_snoc. by destruct (accounts this !! account).
Qed.

(** A withdrawal of 20.00 from a balance of 100.00. *)
Lemma balance_after_transaction_witness :
  let this := state_after [T ["20230601"; "AC001"; "D"; "100.00"]] in
  exists this' out,
    inputTransaction this ["20230626"; "AC001"; "W"; "20.00"] = Some (this', out) /\
    getAccountBalance this' "AC001" = Some (100 - 20)%float.
Proof.
  intros this. eexists _, _. split; [vm_compute; reflexivity|].
  match goal with
  | |- getAccountBalance ?this' _ = _ =>
      eapply eq_trans;
        [apply (balance_after_transaction this "20230626" "AC001" "W" "20.00" this'
                  (AccountStatement "AC001" (statement_lines 0 (held this' "AC001")).1))|]
  end.
  - eapply state_after_reachable. vm_compute. reflexivity.
  - vm_compute. reflexivity.
  - reflexivity.
  - reflexivity.
  - vm_compute. repeat constructor.
  - vm_compute. reflexivity.
Defined.

(** ** The lines of the statements *)

Lemma balances_from_cons balance txn txns :
  balances_from balance (txn :: txns)
  = calculateNewBalance balance (Txn.type txn) (Txn.amount txn)
    :: balances_from (calculateNewBalance balance (Txn.type txn) (Txn.amount txn)) txns.
Proof.
  unfold balances_from. cbn [length]. rewrite <- cons_seq. cbn [fmap list_fmap].
  f_equal. rewrite <- fmap_S_seq, <- list_fmap_compose. reflexivity.
Qed.

(** The lines show the transactions in their order, each with the balance
    that it leaves. *)
Lemma statement_lines_spec txns : forall balance,
  statement_lines balance txns
  = (zip_with line_of txns (balances_from balance txns), fold_balance balance txns).
Proof.
  induction txns as [|txn txns IH]; intros balance; [done|].
  cbn [statement_lines]. rewrite IH, balances_from_cons. reflexivity.
Qed.

Lemma balances_from_length balance txns :
  length (balances_from balance txns) = length txns.
Proof. unfold balances_from. by rewrite length_fmap, length_seq. Qed.


Lemma zip_with_line_of_balance txns balances :
  length balances = length txns ->
  Line.balance <$> zip_with line_of txns balances = balances.
Proof.
  revert balances. induction txns as [|txn txns IH]; intros [|b balances]; try done.
  cbn. intros [= Hlen]. by rewrite IH.
Qed.



Lemma StronglySorted_filter {A} (R : A -> A -> Prop) (P : A -> Prop)
    `{forall x, Decision (P x)} (l : list A) :
  StronglySorted R l -> StronglySorted R (filter P l).
Proof.
  induction 1 as [|x l Hl IH Hx]; [constructor|].
  destruct (decide (P x)).
  - rewrite filter_cons_True by done. constructor; [done|].
    apply Forall_forall. intros y [_ Hy]%list_elem_of_filter.
    rewrite Forall_forall in Hx. by apply Hx.
  - by rewrite filter_cons_False.
Qed.



(** ** The sign of sums and differences of Numbers *)

Lemma leb_0_not_negative (x : float) : (0 <=? x)%float = true <-> not_negative (Prim2SF x).
Proof.
  rewrite FloatAxioms.leb_spec. change (Prim2SF 0) with (S754_zero false).
  destruct (Prim2SF x) as [s|[]| |[] m e]; cbn; split; done.
Qed.

Lemma iter_pos_kept {A} (f : A -> A) (P : A -> Prop) :
  (forall x, P x -> P (f x)) -> forall n x, P x -> P (SpecFloat.iter_pos f n x).
Proof.
  intros Hf. induction n as [n IH|n IH|]; intros x Hx; cbn; auto.
Qed.

Lemma shr_1_not_negative mrs : 0 <= shr_m mrs -> 0 <= shr_m (shr_1 mrs).
Proof. destruct mrs as [[|[p|p|]|p] r s]; cbn; lia. Qed.

Lemma shr_not_negative mrs e n : 0 <= shr_m mrs -> 0 <= shr_m (shr mrs e n).1.
Proof.
  intros Hm. destruct n as [|p|p]; cbn; [done| |done].
  apply (iter_pos_kept shr_1 (fun mrs => 0 <= shr_m mrs)); [apply shr_1_not_negative|done].
Qed.

Lemma shr_fexp_not_negative m e l : 0 <= m -> 0 <= shr_m (shr_fexp prec emax m e l).1.
Proof.
  intros Hm. unfold shr_fexp. apply shr_not_negative. by destruct l as [|[]].
Qed.

Lemma round_nearest_even_not_negative m l : 0 <= m -> 0 <= round_nearest_even m l.
Proof.
  intros Hm. unfold round_nearest_even. destruct l as [|[]]; try done; [|lia].
  destruct (Z.even m); lia.
Qed.

(** Rounding keeps the sign. *)
Lemma binary_round_aux_sign s m e l :
  0 <= m ->
  match binary_round_aux prec emax s m e l with
  | S754_zero s' | S754_infinity s' | S754_finite s' _ _ => s' = s
  | S754_nan => False
  end.
Proof.
  intros Hm. unfold binary_round_aux.
  pose proof (shr_fexp_not_negative m e l Hm) as H1.
  destruct (shr_fexp prec emax m e l) as [mrs' e']. cbn [fst] in H1.
  pose proof (shr_fexp_not_negative _ e' loc_Exact
                (round_nearest_even_not_negative _ (loc_of_shr_record mrs') H1)) as H2.
  destruct (shr_fexp prec emax _ e' loc_Exact) as [mrs'' e'']. cbn [fst] in H2.
  destruct (shr_m mrs'') as [|p|p]; [done| |lia].
  by destruct (e'' <=? emax - prec).
Qed.

Lemma binary_normalize_not_negative m e :
  0 <= m -> not_negative (binary_normalize prec emax m e false).
Proof.
  intros Hm. destruct m as [|p|p]; [done| |lia]. cbn. unfold binary_round.
  destruct (shl_align p e _) as [mz ez].
  pose proof (binary_round_aux_sign false (Z.pos mz) ez loc_Exact ltac:(lia)) as Hs.
  destruct (binary_round_aux prec emax false (Z.pos mz) ez loc_Exact); by subst.
Qed.

Lemma SFadd_not_negative x y :
  not_negative x -> not_negative y -> not_negative (SFadd prec emax x y).
Proof.
  destruct x as [sx|[]| |[] mx ex], y as [sy|[]| |[] my ey]; try done.
  - intros _ _. by destruct sx, sy.
  - intros _ _. unfold SFadd. apply binary_normalize_not_negative. cbn. lia.
Qed.

Lemma digits2_pos_bounds p :
  2 ^ (Z.pos (digits2_pos p) - 1) <= Z.pos p < 2 ^ Z.pos (digits2_pos p).
Proof.
  induction p as [p IH|p IH|]; cbn [digits2_pos]; [| |done].
  all: rewrite Pos2Z.inj_succ.
  all: replace (Z.succ (Z.pos (digits2_pos p)) - 1)
         with (Z.succ (Z.pos (digits2_pos p) - 1)) by lia.
  all: rewrite !Z.pow_succ_r by lia; lia.
Qed.

Lemma iter_xO m d : Z.pos (Pos.iter xO m d) = Z.pos m * 2 ^ Z.pos d.
Proof.
  induction d as [|d IH] using Pos.peano_ind.
  - cbn. lia.
  - rewrite Pos.iter_succ, Pos2Z.inj_xO, IH, Pos2Z.inj_succ, Z.pow_succ_r by lia. lia.
Qed.

(** The mantissa aligned to an exponent that is not greater. *)
Lemma shl_align_value m e e' :
  e' <= e -> Z.pos (shl_align m e e').1 = Z.pos m * 2 ^ (e - e').
Proof.
  intros He. unfold shl_align. destruct (e' - e) as [|d|d] eqn:Hd; cbn [fst].
  - replace (e - e') with 0 by lia. lia.
  - lia.
  - rewrite iter_xO. f_equal. f_equal. lia.
Qed.

(** Of two valid positive Numbers the one that is not less has the mantissa
    that is not less, once both are aligned to the lower exponent. *)
Lemma aligned_order mx ex my ey :
  bounded prec emax mx ex = true -> bounded prec emax my ey = true ->
  SFltb (S754_finite false mx ex) (S754_finite false my ey) = false ->
  Z.pos (shl_align my ey (Z.min ex ey)).1 <= Z.pos (shl_align mx ex (Z.min ex ey)).1.
Proof.
  unfold bounded, canonical_mantissa, fexp, SFltb, SFcompare.
  intros [Hx%Z.eqb_eq _]%andb_true_iff [Hy%Z.eqb_eq _]%andb_true_iff.
  pose proof (digits2_pos_bounds mx) as Hdx. pose proof (digits2_pos_bounds my) as Hdy.
  rewrite !shl_align_value by lia.
  destruct (Z.compare_spec ex ey) as [->|Hlt|Hgt]; [|done|].
  - intros Hc. rewrite Z.min_id, Z.sub_diag. fold (Pos.compare mx my) in Hc.
    destruct (Pos.compare_spec mx my); try done; lia.
  - intros _. rewrite Z.min_r, Z.sub_diag by lia.
    assert (Hpx : Z.pos (digits2_pos mx) = prec) by (unfold emin in *; lia).
    assert (Hpy : Z.pos (digits2_pos my) <= prec) by lia.
    rewrite Hpx in Hdx.
    assert (2 ^ Z.pos (digits2_pos my) <= 2 ^ prec) by (apply Z.pow_le_mono_r; lia).
    assert (2 ^ 1 <= 2 ^ (ex - ey)) by (apply Z.pow_le_mono_r; lia).
    assert (Hprec : 2 ^ prec = 2 * 2 ^ (prec - 1)) by reflexivity.
    nia.
Qed.

Lemma SFsub_not_negative x my ey :
  valid_binary x = true -> bounded prec emax my ey = true ->
  not_negative x -> SFltb x (S754_finite false my ey) = false ->
  not_negative (SFsub prec emax x (S754_finite false my ey)).
Proof.
  destruct x as [sx|[]| |[] mx ex]; try done.
  intros Hx Hy _ Hlt. unfold SFsub. apply binary_normalize_not_negative. cbn [cond_Zopp].
  pose proof (aligned_order mx ex my ey Hx Hy Hlt). lia.
Qed.

(** A Number that is finite and greater than 0. *)
Lemma finite_above_0 (x : float) :
  above_0 x -> is_finite x = true -> exists m e, Prim2SF x = S754_finite false m e.
Proof.
  unfold above_0, is_finite, is_infinity.
  rewrite negb_true_iff, orb_false_iff, FloatAxioms.ltb_spec, FloatAxioms.eqb_spec,
    FloatAxioms.abs_spec.
  change (Prim2SF 0) with (S754_zero false).
  change (Prim2SF infinity) with (S754_infinity false).
  destruct (Prim2SF x) as [s|[]| |[] m e]; cbn; intros H0 [_ Hinf]; try done. eauto.
Qed.

(** [balance + amount] and [balance - amount] are not negative when the
    balance is not and the amount, greater than 0, is not greater than the
    balance that it is taken from. *)
Lemma add_not_negative (balance amount : float) :
  (0 <=? balance)%float = true -> above_0 amount -> (0 <=? balance + amount)%float = true.
Proof.
  rewrite !leb_0_not_negative, FloatAxioms.add_spec. intros Hb Ha.
  apply SFadd_not_negative; [done|]. apply leb_0_not_negative.
  unfold above_0 in Ha. rewrite FloatAxioms.ltb_spec in Ha. rewrite FloatAxioms.leb_spec.
  unfold SFltb in Ha. unfold SFleb. by destruct (SFcompare _ _) as [[]|].
Qed.

Lemma sub_not_negative (balance amount : float) :
  (0 <=? balance)%float = true -> above_0 amount -> is_finite amount = true ->
  (balance <? amount)%float = false -> (0 <=? balance - amount)%float = true.
Proof.
  rewrite !leb_0_not_negative, FloatAxioms.sub_spec, FloatAxioms.ltb_spec.
  intros Hb Ha Hfin Hlt. destruct (finite_above_0 amount Ha Hfin) as (m & e & Hm).
  pose proof (FloatAxioms.Prim2SF_valid amount) as Hv. rewrite Hm in Hv, Hlt |- *.
  apply SFsub_not_negative; [apply FloatAxioms.Prim2SF_valid|done|done|done].
Qed.

(** ** Balances when the transactions come in the order of their dates *)

Lemma balances_from_snoc balance txns txn :
  balances_from balance (txns ++ [txn])
  = balances_from balance txns ++ [fold_balance balance (txns ++ [txn])].
Proof.
  unfold balances_from. rewrite length_app, Nat.add_comm. cbn [length Nat.add].
  rewrite seq_S, fmap_app. cbn [fmap list_fmap]. f_equal.
  - apply list_fmap_ext. intros i k Hk. cbn.
    apply lookup_seq in Hk as [-> Hi]. by rewrite take_app_le by lia.
  - by rewrite firstn_all2 by (rewrite length_app; cbn; lia).
Qed.

Lemma running_balances_held this account :
  ledger_inv this -> running_balances this account = balances_from 0 (held this account).
Proof.
  intros Hinv. specialize (Hinv account). unfold running_balances, held.
  destruct (accounts this !! account) as [a|]; [|done]. destruct Hinv as [Htxns _].
  cbn. rewrite statement_lines_spec. cbn [fst].
  rewrite zip_with_line_of_balance by apply balances_from_length.
  by rewrite Htxns, sort_by_date_idem.
Qed.

(** A transaction dated on or after those of its account goes last. *)
Lemma held_snoc_sorted this account txn :
  ledger_inv this ->
  Forall (fun t => Txn.account t = account -> date_le (Txn.date t) (Txn.date txn))
    (transactions this) ->
  sort by_date (held this account ++ [txn]) = held this account ++ [txn].
Proof.
  intros Hinv Hlast. specialize (Hinv account). unfold held. rewrite sort_snoc.
  destruct (accounts this !! account) as [a|]; [|done].
  change (default [] (Account.transactions <$> Some a)) with (Account.transactions a).
  destruct Hinv as [Htxns _]. rewrite Htxns, sort_by_date_idem.
  apply insert_last_behind. apply Forall_forall.
  intros t [Ht Hin]%elem_of_sort%list_elem_of_filter.
  apply date_le_le_by. rewrite Forall_forall in Hlast. by apply Hlast.
Qed.

Lemma fold_balance_not_negative balance txns :
  (0 <=? balance)%float = true ->
  Forall (fun b => (0 <=? b)%float = true) (balances_from balance txns) ->
  (0 <=? fold_balance balance txns)%float = true.
Proof.
  intros H0. induction txns as [|txn txns _] using rev_ind; [done|].
  rewrite balances_from_snoc. intros [_ Hlast]%Forall_app.
  by rewrite Forall_singleton in Hlast.
Qed.

Lemma running_balances_not_negative this account :
  reachable this ->
  in_date_order (transactions this) ->
  finite_amounts (transactions this) ->
  Forall (fun balance => (0 <=? balance)%float = true) (running_balances this account).
Proof.
  intros Hr. revert account. revert this Hr. apply (reachable_changes
    (fun this => forall account,
       in_date_order (transactions this) -> finite_amounts (transactions this) ->
       Forall (fun balance => (0 <=? balance)%float = true) (running_balances this account))).
  - intros account _ _. constructor.
  - intros this d a ty am this' out Hr IH H Hacc account Horder Hfin.
    pose proof (ledger_inv_reachable this Hr) as Hinv.
    assert (Hinv' : ledger_inv this').
    { apply ledger_inv_reachable.
      by apply (reachable_handle this (T [d; a; ty; am]) this' out). }
    destruct (inputTransaction_accepted _ _ _ _ H Hacc)
      as (d' & a' & ty' & am' & [= <- <- <- <-] & _ & Hty & Ham & _ & Hw & _).
    destruct (accepted_transaction _ _ _ _ _ _ _ H Hacc) as (_ & _ & Ht & _ & _ & Ha & _).
    set (txn := next_transaction this d a (JS.toUpperCase ty) (JS.parseFloat am)) in *.
    rewrite Ht in Horder, Hfin.
    apply StronglySorted_app in Horder as (Hlast & Horder & _).
    apply Forall_app in Hfin as [Hfin Hfin']. rewrite Forall_singleton in Hfin'.
    specialize (IH account Horder Hfin).
    rewrite running_balances_held in IH |- * by done.
    assert (Hheld : held this' account
                    = if decide (a = account) then held this account ++ [txn]
                      else held this account).
    { unfold held at 1. rewrite Ha. destruct (decide (a = account)) as [->|Hne].
      - rewrite lookup_insert_eq. cbn. fold (held this account).
        apply held_snoc_sorted; [done|]. apply Forall_forall. intros t Hin _.
        apply (Hlast t txn Hin). apply list_elem_of_here.
      - by rewrite lookup_insert_ne. }
    rewrite Hheld. destruct (decide (a = account)) as [->|Hne]; [|done].
    rewrite balances_from_snoc. apply Forall_app. split; [done|]. rewrite Forall_singleton.
    rewrite fold_balance_snoc.
    pose proof (fold_balance_not_negative 0 (held this account) eq_refl IH) as Hbal.
    unfold calculateNewBalance. cbn [txn next_transaction Txn.type Txn.amount] in *.
    destruct Hty as [->|Hty].
    + by apply add_not_negative.
    + rewrite Hty. destruct (Hw Hty) as (currentBalance & Hcb & Hlt).
      apply sub_not_negative; try done.
      unfold getAccountBalance in Hcb. unfold held.
      destruct (accounts this !! account) as [acc|]; [|done]. by injection Hcb as <-.
  - intros this d id rt this' out _ IH H Hdef account.
    apply defineInterestRule_cases in H as (Ha & Ht & _).
    unfold running_balances. rewrite Ha, Ht. apply IH.
Qed.

(** X18: in a reachable state whose transactions have dates written in
    digits, were recorded in the order of their dates and have finite
    amounts, no balance of an account is less than 0: after each
    transaction of the account, taken in the order of the dates, the
    balance is 0 or more, and so is the balance that [getAccountBalance]
    returns. *)
Theorem balances_not_negative_in_date_order this account :
  reachable this ->
  Forall (fun txn => digit_date (Txn.date txn)) (transactions this) ->
  in_date_order (transactions this) ->
  finite_amounts (transactions this) ->
  Forall (fun balance => (0 <=? balance)%float = true) (running_balances this account) /\
  forall balance, getAccountBalance this account = Some balance ->
                  (0 <=? balance)%float = true.
Proof.
  intros Hr _ Horder Hfin.
  pose proof (running_balances_not_negative this account Hr Horder Hfin) as Hall.
  split; [done|]. intros balance.
  rewrite running_balances_held in Hall by by apply ledger_inv_reachable.
  unfold getAccountBalance, held in *.
  destruct (accounts this !! account) as [a|]; [|done]. intros [= <-].
  by apply fold_balance_not_negative.
Qed.

(** A deposit of 100.00 withdrawn in two parts. *)
Lemma balances_not_negative_in_date_order_witness :
  let this := state_after [T ["20230601"; "AC001"; "D"; "100.00"];
                           T ["20230601"; "AC001"; "W"; "30.00"];
                           T ["20230626"; "AC001"; "W"; "70.00"]] in
  running_balances this "AC001" = [100; 70; 0]%float /\
  Forall (fun balance => (0 <=? balance)%float = true) (running_balances this "AC001").
Proof.
  intros this. split; [vm_compute; reflexivity|].
  apply balances_not_negative_in_date_order.
  - eapply state_after_reachable. vm_compute. reflexivity.
  - vm_compute. repeat constructor.
  - vm_compute. repeat constructor.
  - vm_compute. repeat constructor.
Defined.

(** ** What is recorded stays *)

Lemma keeps_refl this : keeps this this.
Proof.
  repeat split; [by exists []; rewrite app_nil_r|by eauto..].
Qed.

Lemma keeps_trans this1 this2 this3 : keeps this1 this2 -> keeps this2 this3 -> keeps this1 this3.
Proof.
  intros ([new1 Ht1] & Ha1 & Hn1 & Hr1) ([new2 Ht2] & Ha2 & Hn2 & Hr2). repeat split.
  - exists (new1 ++ new2). by rewrite Ht2, Ht1, app_assoc.
  - intros account a Ha. destruct (Ha1 _ _ Ha) as (a' & Ha' & <-). by apply Ha2.
  - intros date n Hn. destruct (Hn1 _ _ Hn) as (n' & Hn' & Hle).
    destruct (Hn2 _ _ Hn') as (n'' & Hn'' & Hle'). exists n''. split; [done|lia].
  - intros rule Hr. destruct (Hr1 _ Hr) as (rule' & Hr' & <-). by apply Hr2.
Qed.

Lemma sort_transactions_keeps this account this' txns :
  sort_transactions this account = Some (this', txns) -> keeps this this'.
Proof.
  unfold sort_transactions. destruct (accounts this !! account) as [a|] eqn:Ha; [|done].
  intros [= <- _]. repeat split; cbn.
  - exists []. by rewrite app_nil_r.
  - intros account' a' Ha'. destruct (decide (account = account')) as [<-|Hne].
    + rewrite lookup_insert_eq. eexists. split; [done|]. cbn. congruence.
    + rewrite lookup_insert_ne by done. eauto.
  - eauto.
  - eauto.
Qed.

Lemma handle_keeps this c this' out : handle this c = Some (this', out) -> keeps this this'.
Proof.
  destruct c as [parts|parts|parts]; cbn; intros H.
  - destruct (accepted out) eqn:Hacc.
    + destruct (inputTransaction_accepted _ _ _ _ H Hacc) as (d & a & ty & am & -> & _).
      destruct (accepted_transaction _ _ _ _ _ _ _ H Hacc) as (_ & _ & Ht & Hi & Hn & Ha & _).
      repeat split.
      * by eexists.
      * intros account acc Hacc'. rewrite Ha. destruct (decide (a = account)) as [->|Hne].
        -- rewrite lookup_insert_eq, Hacc'. eexists. split; [done|]. done.
        -- rewrite lookup_insert_ne by done. eauto.
      * intros date n Hdate. rewrite Hn. destruct (decide (d = date)) as [->|Hne].
        -- rewrite lookup_insert_eq, Hdate. eexists. split; [done|]. cbn. lia.
        -- rewrite lookup_insert_ne by done. eauto.
      * rewrite Hi. eauto.
    + apply inputTransaction_cases in H as [[-> _]|(? & ? & ? & ? & _ & _ & _ & Hacc' & _)];
        [apply keeps_refl|congruence].
  - apply defineInterestRule_cases in H as (Ha & Ht & Hn & Hrules). repeat split.
    + exists []. by rewrite app_nil_r.
    + rewrite Ha. eauto.
    + rewrite Hn. eauto.
    + destruct Hrules as [[-> _]|(d & id & rt & _ & _ & -> & _)]; [by eauto|].
      intros rule Hin. destruct (decide (Rule.date rule = d)) as [Hd|Hd].
      * eexists. split; [apply upsert_elem_of|done].
      * exists rule. split; [|done]. by apply upsert_keeps.
  - apply printStatement_state in H as [->|(account & txns & Hs)]; [apply keeps_refl|].
    by eapply sort_transactions_keeps.
Qed.

(** X19: no sequence of commands takes away what a state holds: the
    transactions recorded stay, in their order, with new ones after them;
    each account stays, with its date of creation; each running number
    stays or grows; and each date that has a rule keeps one. *)
Theorem session_keeps_what_is_recorded this cs this' outs :
  session this cs = Some (this', outs) -> keeps this this'.
Proof.
  revert this outs. induction cs as [|c cs IH]; intros this outs; cbn.
  - intros [= <- _]. apply keeps_refl.
  - destruct (handle this c) as [[this1 out]|] eqn:Hc; [|done]. cbn.
    destruct (session this1 cs) as [[this2 outs']|] eqn:Hs; [|done]. cbn.
    intros [= <- _]. eapply keeps_trans; [by eapply handle_keeps|by eapply IH].
Qed.

(** A backdated deposit, a rule replaced and a statement. *)
Lemma session_keeps_what_is_recorded_witness :
  keeps (state_after [T ["20230505"; "AC001"; "D"; "100.00"];
                      I ["20230101"; "RULE01"; "1.95"]])
        (state_after [T ["20230505"; "AC001"; "D"; "100.00"];
                      I ["20230101"; "RULE01"; "1.95"];
                      T ["20230401"; "AC001"; "D"; "10.00"];
                      I ["20230101"; "RULE02"; "2.50"];
                      P ["AC001"; "202304"]]).
Proof.
  eapply (session_keeps_what_is_recorded _
            [T ["20230401"; "AC001"; "D"; "10.00"];
             I ["20230101"; "RULE02"; "2.50"];
             P ["AC001"; "202304"]]).
  vm_compute. reflexivity.
Defined.


(** ** The table of daily balances when the dates are digits *)

Lemma ascii_compare_code c d : Ascii.compare c d = Z.compare (JS.code c) (JS.code d).
Proof.
  unfold Ascii.compare, JS.code, nat_of_ascii.
  rewrite !N_nat_Z. symmetry. apply N2Z.inj_compare.
Qed.

Lemma digit_value_code c : JS.is_digit c = true -> default 0 (JS.hex_value c) = JS.code c - 48.
Proof.
  unfold JS.is_digit, JS.hex_value. intros ->. reflexivity.
Qed.

Lemma is_digit_code c : JS.is_digit c = true -> 48 <= JS.code c <= 57.
Proof. unfold JS.is_digit. intros [?%Z.leb_le ?%Z.leb_le]%andb_true_iff. lia. Qed.

(** Two digits in the order of strings are in the order of numbers. *)
Lemma two_digits_order s t :
  String.length s = 2%nat -> String.length t = 2%nat ->
  JS.all_chars JS.is_digit s = true -> JS.all_chars JS.is_digit t = true ->
  String.compare s t <> Gt -> number_of s <= number_of t.
Proof.
  destruct s as [|c1 [|c2 [|]]], t as [|d1 [|d2 [|]]]; try done. intros _ _.
  cbn [JS.all_chars]. rewrite !andb_true_r.
  intros [Hc1 Hc2]%andb_true_iff [Hd1 Hd2]%andb_true_iff.
  unfold number_of. cbn [JS.digits_value String.compare].
  rewrite !digit_value_code by done. rewrite !ascii_compare_code.
  apply is_digit_code in Hc1, Hc2, Hd1, Hd2.
  destruct (Z.compare_spec (JS.code c1) (JS.code d1)); [|lia|done].
  destruct (Z.compare_spec (JS.code c2) (JS.code d2)); [lia|lia|done].
Qed.

Lemma string_compare_app p s t : String.compare (p +:+ s) (p +:+ t) = String.compare s t.
Proof.
  induction p as [|c p IH]; [done|].
  change (String c p +:+ s) with (String c (p +:+ s)).
  change (String c p +:+ t) with (String c (p +:+ t)).
  cbn. by rewrite ascii_compare_refl.
Qed.

Lemma prefix_app p s : String.prefix p s = true -> exists r, s = p +:+ r.
Proof.
  revert s. induction p as [|c p IH]; intros s; [by exists s|].
  destruct s as [|d s]; [done|]. cbn. destruct (ascii_dec c d) as [->|]; [|done].
  intros [r ->]%IH. by exists r.
Qed.

Lemma all_chars_app_inv p s1 s2 :
  JS.all_chars p (s1 +:+ s2) = true -> JS.all_chars p s2 = true.
Proof. rewrite all_chars_app. by intros [_ ?]%andb_true_iff. Qed.

(** The day that a date of the month ends with. *)
Lemma date_in_month monthStr date :
  String.length monthStr = 6%nat -> String.length date = 8%nat ->
  JS.all_chars JS.is_digit date = true ->
  JS.startsWith date monthStr = true ->
  exists dd, date = monthStr +:+ dd /\ String.length dd = 2%nat /\
    JS.all_chars JS.is_digit dd = true /\ day_of date = Some (number_of dd).
Proof.
  intros Hm Hlen Hdigits [dd ->]%prefix_app. exists dd.
  rewrite string_app_length, Hm in Hlen.
  assert (Hdd : String.length dd = 2%nat) by lia.
  pose proof (all_chars_app_inv _ _ _ Hdigits) as Hd.
  repeat split; try done.
  unfold day_of. rewrite substring_day by done.
  apply parseInt_digits; [done|]. by destruct dd.
Qed.

Lemma StronglySorted_among {A} (R R' : A -> A -> Prop) (l : list A) :
  (forall x y, x ∈ l -> y ∈ l -> R x y -> R' x y) ->
  StronglySorted R l -> StronglySorted R' l.
Proof.
  intros HR Hs. induction Hs as [|x l Hl IH Hx]; [constructor|].
  constructor.
  - apply IH. intros y z Hy Hz. apply HR; by apply list_elem_of_further.
  - apply Forall_forall. intros y Hy. rewrite Forall_forall in Hx.
    apply HR; [apply list_elem_of_here|by apply list_elem_of_further|by apply Hx].
Qed.

(** X20: in a reachable state, for an account whose dates are written in
    digits, the entry of a day of the month in the table [dailyBalances] is
    the balance at the end of that day: the balance of the transactions
    dated before the month followed by those of the month up to the day. *)
Theorem dailyBalances_end_of_day this account a monthStr n d :
  reachable this ->
  accounts this !! account = Some a ->
  Forall (fun txn => JS.all_chars JS.is_digit (Txn.date txn) = true) (Account.transactions a) ->
  String.length monthStr = 6%nat ->
  daysInMonth monthStr = Some n ->
  1 <= d <= n ->
  dailyBalances (Account.transactions a) monthStr !! dateKey monthStr d
  = Some (fold_balance (balanceBefore (Account.transactions a) monthStr)
            (filter (fun txn => txn_day txn <= d) (in_month monthStr (Account.transactions a)))).
Proof.
  intros Hr Ha Hdigits Hm Hn Hd.
  pose proof (ledger_inv_reachable this Hr account) as Hinv. rewrite Ha in Hinv.
  destruct Hinv as [Htxns _].
  assert (Hlen : Forall (fun txn => String.length (Txn.date txn) = 8%nat)
                   (Account.transactions a)).
  { apply Forall_forall. intros txn Hin. rewrite Htxns in Hin.
    apply elem_of_sort, list_elem_of_filter in Hin as [_ Hin].
    pose proof (transactions_checked this Hr) as Hall.
    rewrite Forall_forall in Hall. destruct (Hall txn Hin) as [Hv _].
    by apply isValidDate_length. }
  assert (Hday : forall txn, txn ∈ in_month monthStr (Account.transactions a) ->
            exists dd, Txn.date txn = monthStr +:+ dd /\ String.length dd = 2%nat /\
              JS.all_chars JS.is_digit dd = true /\ day_of (Txn.date txn) = Some (number_of dd)).
  { intros txn [Hstart Hin]%list_elem_of_filter. rewrite Forall_forall in Hlen, Hdigits.
    apply date_in_month; auto. }
  apply (dailyBalances_closing _ monthStr n d); try done.
  - apply Forall_forall. intros txn Hin.
    destruct (Hday txn Hin) as (dd & _ & _ & _ & ->). eexists. split; [done|].
    apply digits_value_nonneg. done.
  - apply (StronglySorted_among (le_by by_date)).
    + intros t1 t2 H1 H2. unfold le_by, by_date, JS.localeCompare, txn_day.
      destruct (Hday t1 H1) as (dd1 & -> & Hl1 & Hd1 & ->).
      destruct (Hday t2 H2) as (dd2 & -> & Hl2 & Hd2 & ->).
      rewrite string_compare_app. cbn. by apply two_digits_order.
    + apply StronglySorted_filter. rewrite Htxns.
      apply sort_sorted; [apply by_date_trans|apply by_date_total].
Qed.

(** A deposit before June, and a withdrawal and a deposit within it that
    were not entered in the order of their dates: the entry of the 15th. *)
Lemma dailyBalances_end_of_day_witness :
  let this := state_after [T ["20230505"; "AC001"; "D"; "100.00"];
                           T ["20230620"; "AC001"; "W"; "30.00"];
                           T ["20230610"; "AC001"; "D"; "50.00"]] in
  exists a, accounts this !! "AC001" = Some a /\
    dailyBalances (Account.transactions a) "202306" !! dateKey "202306" 15
    = Some (100 + 50)%float.
Proof.
  intros this. eexists. split; [vm_compute; reflexivity|].
  eapply eq_trans; [apply (dailyBalances_end_of_day this "AC001" _ "202306" 30 15)|].
  - eapply state_after_reachable. vm_compute. reflexivity.
  - vm_compute. reflexivity.
  - vm_compute. repeat constructor.
  - reflexivity.
  - reflexivity.
  - lia.
  - vm_compute. reflexivity.
Defined.

(** ** The arrays of the accounts *)

(** The sort keeps the transactions of a date in their order. *)
Lemma insert_last_on_date txn txns dateStr :
  StronglySorted (le_by by_date) txns ->
  on_date dateStr (insert_last by_date txn txns) = on_date dateStr (txns ++ [txn]).
Proof.
  unfold on_date. induction 1 as [|y l Hl IH Hy]; [done|]. cbn [insert_last].
  destruct (by_date y txn) eqn:Hc.
  - rewrite <- app_comm_cons, !filter_cons, IH. reflexivity.
  - rewrite <- app_comm_cons, !filter_cons, IH. reflexivity.
  - rewrite filter_app. destruct (decide (Txn.date txn = dateStr)) as [Hd|Hd].
    + rewrite (filter_cons_True _ txn) by done.
      rewrite (filter_none _ (y :: l)); [by rewrite filter_cons_True|].
      apply Forall_forall. intros z Hz. cbn. rewrite <- Hd. intros Heq.
      assert (Hyz : le_by by_date y z).
      { apply elem_of_cons in Hz as [->|Hz].
        - unfold le_by, by_date, JS.localeCompare. by rewrite string_compare_refl.
        - rewrite Forall_forall in Hy. by apply Hy. }
      unfold le_by, by_date, JS.localeCompare in *. rewrite Heq in Hyz. done.
    + rewrite (filter_cons_False _ txn) by done.
      by rewrite (filter_cons_False _ txn), filter_nil, app_nil_r by done.
Qed.

Lemma sort_on_date txns dateStr :
  on_date dateStr (sort by_date txns) = on_date dateStr txns.
Proof.
  induction txns as [|txn txns IH] using rev_ind; [done|].
  rewrite sort_snoc, insert_last_on_date
    by (apply sort_sorted; [apply by_date_trans|apply by_date_total]).
  unfold on_date in *. by rewrite !filter_app, IH.
Qed.

(** X21: in every reachable state the array of an account holds the
    transactions recorded for the account, each once, those of one date in
    the order in which they were recorded, and, when the dates are written
    in digits, in the order of their dates. *)
Theorem account_arrays_in_date_order this account a :
  reachable this ->
  accounts this !! account = Some a ->
  Account.transactions a ≡ₚ of_account account (transactions this) /\
  (Forall (fun txn => digit_date (Txn.date txn)) (Account.transactions a) ->
   StronglySorted (le_by by_date) (Account.transactions a)) /\
  forall dateStr,
    on_date dateStr (Account.transactions a)
    = on_date dateStr (of_account account (transactions this)).
Proof.
  intros Hr Ha. pose proof (ledger_inv_reachable this Hr account) as Hinv.
  rewrite Ha in Hinv. destruct Hinv as [-> _]. split; [apply sort_perm|]. split.
  - intros _. apply sort_sorted; [apply by_date_trans|apply by_date_total].
  - intros dateStr. apply sort_on_date.
Qed.

(** Five transactions entered out of the order of their dates, four of
    them of AC001. *)
Lemma account_arrays_in_date_order_witness :
  let this := state_after [T ["20230626"; "AC001"; "D"; "100.00"];
                           T ["20230601"; "AC002"; "D"; "5.00"];
                           T ["20230601"; "AC001"; "D"; "10.00"];
                           T ["20230626"; "AC001"; "W"; "20.00"];
                           T ["20230601"; "AC001"; "D"; "30.00"]] in
  exists a, accounts this !! "AC001" = Some a /\
    Txn.txnId <$> Account.transactions a
    = ["20230601-02"; "20230601-03"; "20230626-01"; "20230626-02"] /\
    StronglySorted (le_by by_date) (Account.transactions a).
Proof.
  intros this. eexists. split; [vm_compute; reflexivity|]. split; [vm_compute; reflexivity|].
  eapply (account_arrays_in_date_order this "AC001").
  - eapply state_after_reachable. vm_compute. reflexivity.
  - vm_compute. reflexivity.
  - vm_compute. repeat constructor.
Defined.

(** ** A month before the first rule *)

Lemma date_le_trans d1 d2 d3 : date_le d1 d2 -> date_le d2 d3 -> date_le d1 d3.
Proof.
  unfold date_le, JS.str_le. rewrite !leb_le_by. apply string_compare_le_trans.
Qed.

(** The keys of the days ascend with the days. *)
Lemma dateKey_le monthStr d n :
  0 <= d <= n -> n < 100 -> date_le (dateKey monthStr d) (dateKey monthStr n).
Proof.
  intros Hd Hn. unfold date_le, JS.str_le, String.leb, dateKey.
  rewrite string_compare_app.
  assert (Hall : forallb (fun i =>
            forallb (fun j =>
              String.leb (JS.padStart2 (JS.toString (Z.of_nat i)))
                (JS.padStart2 (JS.toString (Z.of_nat (i + j))))) (seq 0 (100 - i)))
            (seq 0 100) = true) by (vm_compute; reflexivity).
  pose proof (proj1 (forallb_forall _ _) Hall (Z.to_nat d) ltac:(apply in_seq; lia)) as Hrow.
  cbv beta in Hrow.
  pose proof (proj1 (forallb_forall _ _) Hrow (Z.to_nat (n - d)) ltac:(apply in_seq; lia))
    as Hle.
  cbv beta in Hle. unfold String.leb in Hle.
  replace (Z.of_nat (Z.to_nat d + Z.to_nat (n - d))) with n in Hle by lia.
  rewrite Z2Nat.id in Hle by lia. exact Hle.
Qed.

(** The runs lie in the days that they cut. *)
Lemma maximal_runs_bounds same runs : forall from to,
  maximal_runs same from to runs ->
  Forall (fun run => from <= run.1 /\ run.1 <= run.2 /\ run.2 <= to) runs.
Proof.
  induction runs as [|[s e] rest IH]; intros from to; cbn; [done|].
  intros (-> & Hse & _ & Hrest). destruct rest as [|run rest].
  - subst. repeat constructor; cbn; lia.
  - destruct Hrest as [_ Hrest]. specialize (IH _ _ Hrest). constructor; cbn.
    + assert (e + 1 <= to).
      { apply Forall_cons in IH as [(H1 & H2 & H3) _]. lia. }
      lia.
    + eapply Forall_impl; [exact IH|]. cbn. intros r (H1 & H2 & H3). lia.
Qed.

(** X22: in a reachable state, for a month whose last day lies before the
    date of every rule, the interest of the month is 0 and the statement of
    the month has no line of interest: each of its lines is that of a
    deposit or of a withdrawal. *)
Theorem no_interest_before_the_first_rule this account a monthStr n endBalance :
  reachable this ->
  accounts this !! account = Some a ->
  String.length monthStr = 6%nat ->
  daysInMonth monthStr = Some n ->
  (forall rule, rule ∈ interestRules this ->
     ~ date_le (Rule.date rule) (dateKey monthStr n)) ->
  snd <$> calculateMonthlyInterest this account monthStr endBalance = Some 0%float /\
  forall this' lines,
    printStatement this [account; monthStr] = Some (this', Statement account lines) ->
    Forall (fun line => is_D_or_W (Line.type line)) lines.
Proof.
  intros Hr Ha Hlen Hn Hnone. pose proof (daysInMonth_bounds _ _ Hn) as Hb.
  assert (Hrate : forall d, 1 <= d <= n -> rate_on this monthStr d = 0%float).
  { intros d Hd. unfold rate_on.
    destruct (getInterestRate_cases this (dateKey monthStr d))
      as [[H0 _]|(rule & (Hin & Hle & _) & _)]; [done|].
    destruct (Hnone rule Hin). eapply date_le_trans; [exact Hle|].
    apply dateKey_le; lia. }
  assert (Hzero : forall endBalance',
            snd <$> calculateMonthlyInterest this account monthStr endBalance' = Some 0%float).
  { intros endBalance'.
    rewrite (calculateMonthlyInterest_by_runs this account a monthStr n) by done.
    f_equal.
    assert (Hruns : Forall (fun run => 1 <= run.1 /\ run.1 <= run.2 /\ run.2 <= n)
                      (rate_runs this monthStr n)).
    { apply (maximal_runs_bounds (same_rate this monthStr)).
      assert (Hk : 1 + Z.of_nat (Z.to_nat (n - 1)) = n) by lia.
      unfold rate_runs. rewrite <- Hk at 1.
      apply (runs_from_maximal _ _ 1 1); [done|]. intros; lia. }
    set (db := dailyBalances _ _). clearbody db.
    assert (Hfold : fold_left (add_run this monthStr db) (rate_runs this monthStr n) 0%float
                    = 0%float).
    { induction Hruns as [|[s e] runs (Hs & Hse & He) _ IH]; [done|]. cbn [fold_left].
      cbn in Hs, Hse, He. unfold add_run at 2. by rewrite Hrate by lia. }
    rewrite Hfold. reflexivity. }
  split; [apply Hzero|].
  intros this' lines Hp.
  destruct (printStatement_lines this account monthStr this' account lines Hr Hp)
    as (txnLines & balance & interest & Hi & Htypes & ->).
  rewrite Hzero in Hi. injection Hi as <-. cbn. by rewrite app_nil_r.
Qed.

(** June, with the first rule dated the 1st of July. *)
Lemma no_interest_before_the_first_rule_witness :
  let this := state_after [I ["20230701"; "RULE01"; "2.00"];
                           T ["20230605"; "AC001"; "D"; "1000.00"]] in
  snd <$> calculateMonthlyInterest this "AC001" "202306" 0%float = Some 0%float /\
  Line.type <$> lines_of (printStatement this ["AC001"; "202306"]) = ["D"].
Proof.
  intros this. split; [|vm_compute; reflexivity].
  eapply (no_interest_before_the_first_rule this "AC001" _ "202306" 30).
  - eapply state_after_reachable. vm_compute. reflexivity.
  - vm_compute. reflexivity.
  - reflexivity.
  - reflexivity.
  - intros rule Hin Hle. vm_compute in Hin.
    apply elem_of_cons in Hin as [->|Hin]; [discriminate Hle|].
    by apply elem_of_nil in Hin.
Defined.

(** ** The interest of a month from the balances of the days *)

(** The transactions of a month of an account with dates in digits have
    days, and come in the order of their days. *)
Lemma month_in_day_order this account a monthStr :
  reachable this ->
  accounts this !! account = Some a ->
  Forall (fun txn => digit_date (Txn.date txn)) (Account.transactions a) ->
  String.length monthStr = 6%nat ->
  Forall (fun txn => exists k, day_of (Txn.date txn) = Some k /\ 0 <= k)
    (in_month monthStr (Account.transactions a)) /\
  StronglySorted (fun t1 t2 => txn_day t1 <= txn_day t2)
    (in_month monthStr (Account.transactions a)).
Proof.
  intros Hr Ha Hdigits Hm.
  pose proof (ledger_inv_reachable this Hr account) as Hinv. rewrite Ha in Hinv.
  destruct Hinv as [Htxns _].
  assert (Hday : forall txn, txn ∈ in_month monthStr (Account.transactions a) ->
            exists dd, Txn.date txn = monthStr +:+ dd /\ String.length dd = 2%nat /\
              JS.all_chars JS.is_digit dd = true /\ day_of (Txn.date txn) = Some (number_of dd)).
  { intros txn [Hstart Hin]%list_elem_of_filter. rewrite Forall_forall in Hdigits.
    apply date_in_month; [done| |by apply Hdigits|done].
    rewrite Htxns in Hin. apply elem_of_sort, list_elem_of_filter in Hin as [_ Hin].
    pose proof (transactions_checked this Hr) as Hall.
    rewrite Forall_forall in Hall. destruct (Hall txn Hin) as [Hv _].
    by apply isValidDate_length. }
  split.
  - apply Forall_forall. intros txn Hin.
    destruct (Hday txn Hin) as (dd & _ & _ & _ & ->). eexists. split; [done|].
    by apply digits_value_nonneg.
  - apply (StronglySorted_among (le_by by_date)).
    + intros t1 t2 H1 H2. unfold le_by, by_date, JS.localeCompare, txn_day.
      destruct (Hday t1 H1) as (dd1 & -> & Hl1 & Hd1 & ->).
      destruct (Hday t2 H2) as (dd2 & -> & Hl2 & Hd2 & ->).
      rewrite string_compare_app. cbn. by apply two_digits_order.
    + apply StronglySorted_filter. rewrite Htxns.
      apply sort_sorted; [apply by_date_trans|apply by_date_total].
Qed.

Lemma fold_left_among {A B} (P : B -> Prop) (f g : A -> B -> A) (l : list B) :
  Forall P l -> (forall a x, P x -> f a x = g a x) ->
  forall a, fold_left f l a = fold_left g l a.
Proof.
  intros Hl Hfg. induction Hl as [|x l Hx _ IH]; intros a; [done|].
  cbn. by rewrite Hfg, IH.
Qed.

(** A balance of 18.25 through June at the rate 1.00.  By the formula the
    interest is 18.25 * 1.00 / 100 * 30 / 365, which is 0.015, and 0.02 to 2
    decimal places; the Number that the program computes for it is below
    0.015, and the interest returned is 0.01. *)
Lemma interest_is_not_the_rounded_formula :
  let this := state_after [I ["20230101"; "RULE01"; "1.00"];
                           T ["20230601"; "AC001"; "D"; "18.25"]] in
  rate_runs this "202306" 30 = [(1, 30)] /\
  getAccountBalance this "AC001" = Some 18.25%float /\
  Qeq_bool (decimal "18.25" * decimal "1.00" / 100 * 30 / 365) (15 # 1000) = true /\
  nearest_cents (15 # 1000) = 2 /\
  snd <$> calculateMonthlyInterest this "AC001" "202306" 0%float = Some 0.01%float /\
  nearest_cents (exact 0.01) = 1.
Proof. vm_compute. repeat split. Qed.

(** C1, amended: the interest is computed in binary64.  In a reachable
    state, for an existing account whose dates are written in digits and a
    month of six characters whose year and month are numbers, [rate_runs]
    cuts the days of the month into the maximal runs of successive days of
    equal rate, and the interest that [calculateMonthlyInterest] returns is
    the sum over these runs, in their order, of (balance at the end of the
    first day of the run) * rate / 100 * (days of the run) / 365, each
    operation rounded to the nearest Number, the runs whose rate is not
    greater than 0 left out, and the sum brought to 2 decimal places by
    [toFixed] at the end. *)
Theorem monthly_interest_by_runs this account a monthStr n endBalance :
  reachable this ->
  accounts this !! account = Some a ->
  Forall (fun txn => digit_date (Txn.date txn)) (Account.transactions a) ->
  Forall (fun rule => digit_date (Rule.date rule)) (interestRules this) ->
  String.length monthStr = 6%nat ->
  daysInMonth monthStr = Some n ->
  let runs := rate_runs this monthStr n in
  maximal_runs (same_rate this monthStr) 1 n runs /\
  snd <$> calculateMonthlyInterest this account monthStr endBalance
  = Some (JS.toFixed2
            (fold_left (add_interest this monthStr (Account.transactions a)) runs 0%float)).
Proof.
  intros Hr Ha Hdigits _ Hlen Hn runs.
  pose proof (daysInMonth_bounds _ _ Hn) as Hb.
  assert (Hmax : maximal_runs (same_rate this monthStr) 1 n runs).
  { assert (Hk : 1 + Z.of_nat (Z.to_nat (n - 1)) = n) by lia.
    unfold runs, rate_runs. rewrite <- Hk at 1.
    apply (runs_from_maximal _ _ 1 1); [done|]. intros; lia. }
  split; [done|].
  rewrite (calculateMonthlyInterest_by_runs this account a monthStr n) by done.
  assert (Hsorted : sort by_date (Account.transactions a) = Account.transactions a).
  { pose proof (ledger_inv_reachable this Hr account) as Hinv. rewrite Ha in Hinv.
    destruct Hinv as [Htxns _]. rewrite Htxns. apply sort_by_date_idem. }
  rewrite Hsorted. do 2 f_equal.
  destruct (month_in_day_order this account a monthStr Hr Ha Hdigits Hlen) as [Hdays Horder].
  apply (fold_left_among (fun run => 1 <= run.1 /\ run.1 <= run.2 /\ run.2 <= n)).
  - by apply (maximal_runs_bounds (same_rate this monthStr)).
  - intros total [s e] (Hs & Hse & He). cbn in Hs, Hse, He.
    unfold add_run, add_interest, balance_at_end_of.
    by rewrite (dailyBalances_closing _ monthStr n s) by (done || lia).
Qed.

(** Scenario E: a balance of 1000.00 through June, the rate 1.00 until the
    14th and 2.00 from the 15th.  And the same rates with a deposit on the
    10th and a withdrawal on the 20th: the second run takes the balance at
    the end of the 15th, 1500.00. *)
Lemma monthly_interest_by_runs_witness :
  let this := state_after [T ["20230505"; "AC001"; "D"; "1000.00"];
                           I ["20230101"; "RULE01"; "1.00"];
                           I ["20230615"; "RULE02"; "2.00"]] in
  let this' := state_after [T ["20230505"; "AC001"; "D"; "1000.00"];
                            I ["20230101"; "RULE01"; "1.00"];
                            I ["20230615"; "RULE02"; "2.00"];
                            T ["20230620"; "AC001"; "W"; "200.00"];
                            T ["20230610"; "AC001"; "D"; "500.00"]] in
  rate_runs this "202306" 30 = [(1, 14); (15, 30)] /\
  snd <$> calculateMonthlyInterest this "AC001" "202306" 0%float
  = Some (JS.toFixed2 (1000 * 1 / 100 * 14 / 365 + 1000 * 2 / 100 * 16 / 365)%float) /\
  JS.toFixed2 (1000 * 1 / 100 * 14 / 365 + 1000 * 2 / 100 * 16 / 365)%float = 1.26%float /\
  snd <$> calculateMonthlyInterest this' "AC001" "202306" 0%float
  = Some (JS.toFixed2 (1000 * 1 / 100 * 14 / 365 + 1500 * 2 / 100 * 16 / 365)%float) /\
  JS.toFixed2 (1000 * 1 / 100 * 14 / 365 + 1500 * 2 / 100 * 16 / 365)%float = 1.7%float.
Proof.
  cbv zeta. split; [vm_compute; reflexivity|].
  split; [|split; [vm_compute; reflexivity|split; [|vm_compute; reflexivity]]].
  - eapply eq_trans.
    + eapply (monthly_interest_by_runs _ "AC001" _ "202306" 30).
      * eapply state_after_reachable. vm_compute. reflexivity.
      * vm_compute. reflexivity.
      * vm_compute. repeat constructor.
      * vm_compute. repeat constructor.
      * reflexivity.
      * vm_compute. reflexivity.
    + vm_compute. reflexivity.
  - eapply eq_trans.
    + eapply (monthly_interest_by_runs _ "AC001" _ "202306" 30).
      * eapply state_after_reachable. vm_compute. reflexivity.
      * vm_compute. reflexivity.
      * vm_compute. repeat constructor.
      * vm_compute. repeat constructor.
      * reflexivity.
      * vm_compute. reflexivity.
    + vm_compute. reflexivity.
Defined.

(** ** Where the program departs from its specification *)

(** C2, at a withdrawal dated before the deposit that covers it: both
    transactions are recorded, and the balance in the order of the dates is
    -50.00 after the first one, which the statement of the month shows. *)
Lemma backdated_withdrawal_negative_balance :
  (fun r : BankAccountSystem * list Printed => accepted <$> r.2)
    <$> session constructor backdated_withdrawal = Some [true; true] /\
  running_balances (state_after backdated_withdrawal) "AC001" = [(-50)%float; 50%float] /\
  Line.balance
    <$> lines_of (printStatement (state_after backdated_withdrawal) ["AC001"; "202306"])
  = [(-50)%float; 50%float] /\
  ((-50) <? 0)%float = true.
Proof. vm_compute. repeat split. Qed.

(** C8, at a month of 31 days: the interest line of July is dated the 30th;
    and at February, whose interest line is dated a day that is no date. *)
Lemma interest_line_is_dated_the_30th :
  let this := state_after [I ["20230101"; "RULE01"; "2.00"];
                           T ["20230201"; "AC001"; "D"; "1000.00"];
                           T ["20230701"; "AC001"; "D"; "1000.00"]] in
  daysInMonth "202307" = Some 31 /\
  last (lines_of (printStatement this ["AC001"; "202307"]))
  = Some {| Line.date := "20230730"; Line.txnId := ""; Line.type := "I";
            Line.amount := 3.4; Line.balance := 2003.4 |} /\
  daysInMonth "202302" = Some 28 /\
  Line.date <$> last (lines_of (printStatement this ["AC001"; "202302"]))
  = Some "20230230" /\
  isValidDate "20230230" = false.
Proof. vm_compute. repeat split. Qed.
